(** * Search relevance engine of the sugester backend

    A shallow embedding of the JavaScript services
    [param-extractor.js], [intent-classifier.js], [query-builder.js],
    [ranking.js], [zero-results.js], [merchandising.js] and [cache.js]
    (with [normalizeCacheKey] of [normalizers.js]), and of the [/search]
    route, its schema and its handler up to the index call, followed by
    the properties established about them.

    JavaScript strings are sequences of UTF-16 code units; regular
    expressions are embedded as terms of a small regex language that is run
    by a backtracking matcher with the ECMAScript priorities (leftmost match,
    ordered alternation, greedy repetition). *)

From Stdlib Require Import String Ascii.
From Stdlib Require Import List NArith ZArith QArith Bool Lia Arith.
From Stdlib Require Import Reals Lra.
From Stdlib Require Import Permutation.
Import ListNotations.

Close Scope R_scope.
Close Scope Q_scope.
Close Scope Z_scope.
Close Scope N_scope.
Open Scope nat_scope.
Open Scope list_scope.

Set Implicit Arguments.

(* ================================================================== *)
(** ** JavaScript strings *)
(* ================================================================== *)

Module JsString.

(** A string is the list of its UTF-16 code units. *)
Definition jsstring := list N.

(** String literals are written in UTF-8 in this file and decoded to code
    units (one-, two- and three-byte sequences, i.e. the Basic Multilingual
    Plane, which is all the program's tables use). *)
Fixpoint utf16_of_utf8 (bs : list N) : jsstring :=
  match bs with
  | [] => []
  | b0 :: t =>
      if (b0 <? 128)%N then b0 :: utf16_of_utf8 t
      else if (b0 <? 224)%N then
        match t with
        | b1 :: t' => ((b0 - 192) * 64 + (b1 - 128))%N :: utf16_of_utf8 t'
        | [] => [b0]
        end
      else
        match t with
        | b1 :: b2 :: t' =>
            ((b0 - 224) * 4096 + (b1 - 128) * 64 + (b2 - 128))%N
              :: utf16_of_utf8 t'
        | _ => [b0]
        end
  end.

Definition lit (s : String.string) : jsstring :=
  utf16_of_utf8 (map Ascii.N_of_ascii (String.list_ascii_of_string s)).
Arguments lit s%_string.

Fixpoint eqb (a b : jsstring) : bool :=
  match a, b with
  | [], [] => true
  | x :: a', y :: b' => (x =? y)%N && eqb a' b'
  | _, _ => false
  end.

(** [s.startsWith(p)] *)
Fixpoint startsWith (s p : jsstring) : bool :=
  match p, s with
  | [], _ => true
  | y :: p', x :: s' => (x =? y)%N && startsWith s' p'
  | _ :: _, [] => false
  end.

(** A string is truthy when it is not empty. *)
Definition truthy (s : jsstring) : bool :=
  match s with [] => false | _ => true end.

(** [a || b] on strings. *)
Definition or_else (a b : jsstring) : jsstring := if truthy a then a else b.

(** [parts.join(sep)] *)
Fixpoint join (sep : jsstring) (parts : list jsstring) : jsstring :=
  match parts with
  | [] => []
  | [p] => p
  | p :: rest => p ++ sep ++ join sep rest
  end.

(** *** Character classes of ECMAScript *)

Definition in_range (lo hi c : N) : bool := ((lo <=? c) && (c <=? hi))%N.

(** [\d] *)
Definition is_digit (c : N) : bool := in_range 48 57 c.
Definition is_upper_ascii (c : N) : bool := in_range 65 90 c.
Definition is_lower_ascii (c : N) : bool := in_range 97 122 c.
Definition is_letter_ascii (c : N) : bool := is_upper_ascii c || is_lower_ascii c.
(** [\w] *)
Definition is_word (c : N) : bool :=
  is_letter_ascii c || is_digit c || (c =? 95)%N.
(** [\s], which is also what [trim] removes: white space and line
    terminators. *)
Definition is_space (c : N) : bool :=
  in_range 9 13 c || (c =? 32)%N || (c =? 160)%N || (c =? 5760)%N
  || in_range 8192 8202 c || (c =? 8232)%N || (c =? 8233)%N
  || (c =? 8239)%N || (c =? 8287)%N || (c =? 12288)%N || (c =? 65279)%N.

(** *** Case mapping

    The simple case mappings are tabulated for U+0000..U+017F (ASCII,
    Latin-1 and Latin Extended-A, which contain the Polish alphabet used by
    the catalogue), together with the three code units above that range whose
    lower-case form lies inside it. Other code units are left unchanged:
    the case mappings of the language beyond this range, such as those of
    Greek and Cyrillic letters, are not tabulated. *)
Definition upper_unit (c : N) : N :=
  if is_lower_ascii c then (c - 32)%N
  else if (c =? 181)%N then 924%N
  else if in_range 224 254 c && negb (c =? 247)%N then (c - 32)%N
  else if (c =? 255)%N then 376%N
  else if in_range 256 303 c || in_range 306 311 c || in_range 330 375 c
       then (if N.odd c then c - 1 else c)%N
  else if (c =? 305)%N then 73%N
  else if in_range 313 328 c || in_range 377 382 c
       then (if N.even c then c - 1 else c)%N
  else if (c =? 383)%N then 83%N
  else c.

Definition lower_unit (c : N) : N :=
  if is_upper_ascii c then (c + 32)%N
  else if in_range 192 222 c && negb (c =? 215)%N then (c + 32)%N
  else if in_range 256 303 c || in_range 306 311 c || in_range 330 375 c
       then (if N.even c then c + 1 else c)%N
  else if (c =? 376)%N then 255%N
  else if in_range 313 328 c || in_range 377 382 c
       then (if N.odd c then c + 1 else c)%N
  else if (c =? 8490)%N then 107%N
  else if (c =? 8491)%N then 229%N
  else if (c =? 7838)%N then 223%N
  else c.

(** [s.toLowerCase()]; U+0130 is the one code unit whose lower-case form
    has two code units. *)
Definition toLowerCase (s : jsstring) : jsstring :=
  flat_map (fun c => if (c =? 304)%N then [105; 775]%N else [lower_unit c]) s.

(** [s.toUpperCase()]; U+00DF and U+0149 expand to two code units. *)
Definition toUpperCase (s : jsstring) : jsstring :=
  flat_map (fun c => if (c =? 223)%N then [83; 83]%N
                     else if (c =? 329)%N then [700; 78]%N
                     else [upper_unit c]) s.

(** Canonicalize of a case-insensitive, non-unicode regular expression: the
    upper-case form when it is a single code unit, except that a non-ASCII
    code unit is never folded onto an ASCII one. *)
Definition canonicalize (c : N) : N :=
  let u := upper_unit c in
  if ((128 <=? c) && (u <? 128))%N then c else u.

(** [s.trim()] *)
Fixpoint trimStart (s : jsstring) : jsstring :=
  match s with
  | c :: t => if is_space c then trimStart t else s
  | [] => []
  end.

Definition trimEnd (s : jsstring) : jsstring := rev (trimStart (rev s)).

Definition trim (s : jsstring) : jsstring := trimEnd (trimStart s).

(** [parseInt(s, 10)] on a string of decimal digits, as the capture groups
    [(\d+)] deliver it (numbers are kept exact, where a double rounds
    above 2^53). *)
Definition parseDigits (s : jsstring) : Z :=
  fold_left (fun acc c => (acc * 10 + Z.of_N (c - 48))%Z) s 0%Z.

(** [s.includes(p)] *)
Fixpoint includes (s p : jsstring) : bool :=
  startsWith s p || match s with [] => false | _ :: s' => includes s' p end.

(** The scalar values found in the objects of the services: strings,
    numbers (kept exact), booleans and [undefined]. *)
Inductive value : Type :=
| VStr : jsstring -> value
| VNum : Q -> value
| VBool : bool -> value
| VUndef : value.

Definition value_eqb (a b : value) : bool :=
  match a, b with
  | VStr x, VStr y => eqb x y
  | VNum x, VNum y => Qeq_bool x y
  | VBool x, VBool y => Bool.eqb x y
  | _, _ => false
  end.

Definition of_option (o : option jsstring) : value :=
  match o with Some s => VStr s | None => VUndef end.

End JsString.
Import JsString.

(* ================================================================== *)
(** ** Regular expressions *)
(* ================================================================== *)

Module Regex.

(** The fragment of the ECMAScript regex language used by the services.
    Bounded repetition [{m,n}], [+] and [?] are derived forms. *)
Inductive regex : Type :=
| Empty : regex
| Char : (N -> bool) -> regex
| Seq : regex -> regex -> regex
| Alt : regex -> regex -> regex
| Star : regex -> regex
| Group : nat -> regex -> regex
| Bol : regex
| Eol : regex
| WordB : regex.

(** A position in the subject string: the code units before it (nearest
    first), the code units after it, and the captures made so far. *)
Record cursor : Type := Cursor {
  before : list N;
  after : list N;
  caps : list (nat * jsstring)
}.

Definition remaining (c : cursor) : nat := length (after c).

Definition word_before (c : cursor) : bool :=
  match before c with x :: _ => is_word x | [] => false end.
Definition word_after (c : cursor) : bool :=
  match after c with x :: _ => is_word x | [] => false end.
Definition at_start (c : cursor) : bool :=
  match before c with [] => true | _ => false end.
Definition at_end (c : cursor) : bool :=
  match after c with [] => true | _ => false end.
Definition at_word_boundary (c : cursor) : bool :=
  xorb (word_before c) (word_after c).

Definition set_cap (n : nat) (c0 c1 : cursor) : cursor :=
  Cursor (before c1) (after c1)
         ((n, firstn (remaining c0 - remaining c1) (after c0)) :: caps c1).

Definition K := cursor -> option cursor.

(** Greedy [*]: try one more iteration, which must consume input, and fall
    back to the continuation. The fuel bounds the number of iterations by
    the length of the remaining input. *)
Fixpoint star_loop (step : K -> K) (k : K) (fuel : nat) (c : cursor)
  : option cursor :=
  match fuel with
  | O => k c
  | S f =>
      match step (fun c' => if remaining c' <? remaining c
                            then star_loop step k f c' else None) c with
      | Some e => Some e
      | None => k c
      end
  end.

(** The backtracking matcher, in continuation-passing style. *)
Fixpoint run (r : regex) (k : K) (c : cursor) : option cursor :=
  match r with
  | Empty => k c
  | Char p =>
      match after c with
      | x :: t => if p x then k (Cursor (x :: before c) t (caps c)) else None
      | [] => None
      end
  | Seq r1 r2 => run r1 (run r2 k) c
  | Alt r1 r2 =>
      match run r1 k c with
      | Some e => Some e
      | None => run r2 k c
      end
  | Star r1 => star_loop (run r1) k (S (remaining c)) c
  | Group n r1 => run r1 (fun c' => k (set_cap n c c')) c
  | Bol => if at_start c then k c else None
  | Eol => if at_end c then k c else None
  | WordB => if at_word_boundary c then k c else None
  end.

(** A match anchored at a position. *)
Definition match_at (r : regex) (bef aft : list N) : option cursor :=
  run r (fun c => Some c) (Cursor bef aft []).

(** The leftmost match at or after a position: its start and its end. *)
Fixpoint search (r : regex) (bef aft : list N) : option (cursor * cursor) :=
  match match_at r bef aft with
  | Some e => Some (Cursor bef aft [], e)
  | None =>
      match aft with
      | [] => None
      | x :: t => search r (x :: bef) t
      end
  end.

(** [re.exec(s)] for a regex without the [g] flag. *)
Definition exec (r : regex) (s : jsstring) : option (cursor * cursor) :=
  search r [] s.

(** [re.test(s)] *)
Definition test (r : regex) (s : jsstring) : bool :=
  match exec r s with Some _ => true | None => false end.

(** The text of a match, [m[0]]. *)
Definition matched (m : cursor * cursor) : jsstring :=
  firstn (remaining (fst m) - remaining (snd m)) (after (fst m)).

(** [m.index] *)
Definition index (m : cursor * cursor) : nat := length (before (fst m)).

(** [m[n]] for a capture group; [None] is [undefined]. *)
Fixpoint lookup_cap (n : nat) (l : list (nat * jsstring)) : option jsstring :=
  match l with
  | [] => None
  | (i, s) :: t => if Nat.eqb i n then Some s else lookup_cap n t
  end.
Definition group (m : cursor * cursor) (n : nat) : option jsstring :=
  lookup_cap n (caps (snd m)).

(** [s.replace(re, rep)] for a regex without the [g] flag. *)
Definition replace (r : regex) (rep : jsstring) (s : jsstring) : jsstring :=
  match exec r s with
  | None => s
  | Some (c0, c1) => rev (before c0) ++ rep ++ after c1
  end.

(** [s.replace(re, rep)] for a regex with the [g] flag: every match, left to
    right, the search resuming where the previous match ended (one code unit
    further after an empty match). *)
Fixpoint replace_from (r : regex) (rep : cursor * cursor -> jsstring)
  (fuel : nat) (bef aft : list N) : jsstring :=
  match fuel with
  | O => aft
  | S f =>
      match search r bef aft with
      | None => aft
      | Some (c0, c1) =>
          let skipped := firstn (length aft - remaining c0) aft in
          if remaining c1 <? remaining c0
          then skipped ++ rep (c0, c1)
                 ++ replace_from r rep f (before c1) (after c1)
          else match after c1 with
               | [] => skipped ++ rep (c0, c1)
               | x :: t =>
                   skipped ++ rep (c0, c1)
                     ++ x :: replace_from r rep f (x :: before c1) t
               end
      end
  end.

(** ... with a replacement function of the match *)
Definition replaceAllWith (r : regex) (rep : cursor * cursor -> jsstring)
  (s : jsstring) : jsstring :=
  replace_from r rep (S (length s)) [] s.

(** ... with a replacement string (which has no [$] pattern in this
    program) *)
Definition replaceAll (r : regex) (rep : jsstring) (s : jsstring) : jsstring :=
  replaceAllWith r (fun _ => rep) s.

(** [s.split(re)]: the pieces between the matches of the separator. *)
Fixpoint split_from (r : regex) (fuel : nat) (piece : list N)
  (bef aft : list N) : list jsstring :=
  match fuel with
  | O => [rev piece ++ aft]
  | S f =>
      match aft with
      | [] => [rev piece]
      | x :: t =>
          match match_at r bef aft with
          | Some e =>
              if remaining e <? length aft
              then rev piece :: split_from r f [] (before e) (after e)
              else match piece with
                   | [] => split_from r f [x] (x :: bef) t
                   | _ => rev piece :: split_from r f [x] (x :: bef) t
                   end
          | None => split_from r f (x :: piece) (x :: bef) t
          end
      end
  end.

Definition split (r : regex) (s : jsstring) : list jsstring :=
  match s with
  | [] => match match_at r [] [] with Some _ => [] | None => [[]] end
  | _ => split_from r (S (length s)) [] [] s
  end.

(** *** Derived forms *)

Definition plus (r : regex) : regex := Seq r (Star r).
Definition opt (r : regex) : regex := Alt r Empty.

Fixpoint rep (n : nat) (r : regex) : regex :=
  match n with
  | O => Empty
  | S n' => Seq r (rep n' r)
  end.

(** [r{0,n}], greedy *)
Fixpoint upto (n : nat) (r : regex) : regex :=
  match n with
  | O => Empty
  | S n' => opt (Seq r (upto n' r))
  end.

(** [r{lo,hi}] *)
Definition rep_range (lo hi : nat) (r : regex) : regex :=
  Seq (rep lo r) (upto (hi - lo) r).

Fixpoint seqs (rs : list regex) : regex :=
  match rs with
  | [] => Empty
  | [r] => r
  | r :: rest => Seq r (seqs rest)
  end.

(** [r1|r2|...|rn]; the list is never empty in this file. *)
Fixpoint alts (rs : list regex) : regex :=
  match rs with
  | [] => Char (fun _ => false)
  | [r] => r
  | r :: rest => Alt r (alts rest)
  end.

(** One code unit, case-sensitive and case-insensitive. *)
Definition chr (c : N) : regex := Char (N.eqb c).
Definition chr_i (c : N) : regex :=
  Char (fun x => (canonicalize x =? canonicalize c)%N).

(** A literal, case-sensitive and case-insensitive. *)
Definition str (s : jsstring) : regex := seqs (map chr s).
Definition str_i (s : jsstring) : regex := seqs (map chr_i s).
Definition s_ (s : String.string) : regex := str (lit s).
Definition i_ (s : String.string) : regex := str_i (lit s).
Arguments s_ s%_string.
Arguments i_ s%_string.

(** A class [[...]] listing code units, under the [i] flag. *)
Definition oneof_i (s : String.string) : regex :=
  Char (fun x => existsb (fun c => (canonicalize x =? canonicalize c)%N) (lit s)).
Arguments oneof_i s%_string.
Definition oneof (s : String.string) : regex :=
  Char (fun x => existsb (N.eqb x) (lit s)).
Arguments oneof s%_string.

(** [[a-z]] or [[A-Z]] under the [i] flag: the ASCII letters. *)
Definition letter_i : regex :=
  Char (fun x => is_upper_ascii (canonicalize x)).
(** [[A-Z0-9]] under the [i] flag. *)
Definition alnum_i : regex :=
  Char (fun x => is_upper_ascii (canonicalize x) || is_digit x).
(** [[lo-hi]] over digits. *)
Definition digits (lo hi : N) : regex := Char (in_range (48 + lo) (48 + hi)).
Definition digit : regex := Char is_digit.
Definition wordc : regex := Char is_word.
Definition space : regex := Char is_space.

End Regex.
Import Regex.

(* ================================================================== *)
(** ** param-extractor.js *)
(* ================================================================== *)

Module ParamExtractor.

(** A JavaScript object used as a record of fields, in insertion order. *)
Definition object := list (jsstring * value).

Fixpoint set_field (o : object) (key : jsstring) (v : value) : object :=
  match o with
  | [] => [(key, v)]
  | (k, w) :: rest =>
      if JsString.eqb k key then (k, v) :: rest
      else (k, w) :: set_field rest key v
  end.

(** [Object.assign(target, source)] *)
Definition assign (target source : object) : object :=
  fold_left (fun o kv => set_field o (fst kv) (snd kv)) source target.

Fixpoint get_field (o : object) (key : jsstring) : option value :=
  match o with
  | [] => None
  | (k, w) :: rest => if JsString.eqb k key then Some w else get_field rest key
  end.

(** [m[n]] for a group that takes part in every match of its pattern. *)
Definition cap (m : cursor * cursor) (n : nat) : jsstring :=
  match group m n with Some s => s | None => [] end.

Definition parseInt (s : jsstring) : value := VNum (inject_Z (parseDigits s)).

(** [parseFloat] on [\d+(?:\.\d+)?] *)
Fixpoint parseFloat_from (acc : Z) (s : jsstring) : Q :=
  match s with
  | [] => inject_Z acc
  | c :: t =>
      if is_digit c then parseFloat_from (acc * 10 + Z.of_N (c - 48))%Z t
      else Qred (inject_Z acc
                 + Qmake (parseDigits t) (Pos.pow 10 (Pos.of_nat (length t))))%Q
  end.
Definition parseFloat (s : jsstring) : value := VNum (parseFloat_from 0%Z s).

Record extractor : Type := Extractor {
  name : jsstring;
  pattern : regex;
  extract : cursor * cursor -> object;
  contextPattern : option regex
}.

(** [/\b(RF|EF|FE|E-mount|Z-mount|X-mount|L-mount|MFT)\b/i] without the
    word boundaries, shared by the extractor, the stripper and the
    classifier. *)
Definition mount_names : regex :=
  alts [i_ "RF"; i_ "EF"; i_ "FE"; i_ "E-mount"; i_ "Z-mount"; i_ "X-mount";
        i_ "L-mount"; i_ "MFT"].

Definition EXTRACTORS : list extractor :=
  [ (* /f\/(D)/i with D = \d+\.?\d* *)
    Extractor (lit "aperture")
      (seqs [i_ "f"; s_ "/";
             Group 1 (seqs [plus digit; opt (s_ "."); Star digit])])
      (fun m => [(lit "params.aperture", VStr (lit "f/" ++ cap m 1))])
      None;
    (* /(\d+)-(\d+)\s*mm/i *)
    Extractor (lit "focal_range")
      (seqs [Group 1 (plus digit); s_ "-"; Group 2 (plus digit); Star space;
             i_ "mm"])
      (fun m => [(lit "params.focal_length_min", parseInt (cap m 1));
                 (lit "params.focal_length_max", parseInt (cap m 2))])
      None;
    (* /\b(\d+)\s*mm\b/i *)
    Extractor (lit "focal_single")
      (seqs [WordB; Group 1 (plus digit); Star space; i_ "mm"; WordB])
      (fun m => [(lit "params.focal_length_min", parseInt (cap m 1));
                 (lit "params.focal_length_max", parseInt (cap m 1))])
      None;
    (* /\b(\d+)[kK]\b/ *)
    Extractor (lit "video_resolution")
      (seqs [WordB; Group 1 (plus digit); oneof "kK"; WordB])
      (fun m => [(lit "params.video_resolution", VStr (cap m 1 ++ lit "K"))])
      None;
    (* /(\d+)\s*fps/i *)
    Extractor (lit "video_fps")
      (seqs [Group 1 (plus digit); Star space; i_ "fps"])
      (fun m => [(lit "params.video_fps", parseInt (cap m 1))])
      None;
    (* /\b(full\s*frame|pełna\s*klatka|ff)\b/i *)
    Extractor (lit "sensor_size")
      (seqs [WordB;
             Group 1 (alts [seqs [i_ "full"; Star space; i_ "frame"];
                            seqs [i_ "pełna"; Star space; i_ "klatka"];
                            i_ "ff"]);
             WordB])
      (fun _ => [(lit "params.sensor_size", VStr (lit "Full Frame"))])
      None;
    (* /\b(aps-?c)\b/i *)
    Extractor (lit "sensor_size_apsc")
      (seqs [WordB; Group 1 (seqs [i_ "aps"; opt (s_ "-"); i_ "c"]); WordB])
      (fun _ => [(lit "params.sensor_size", VStr (lit "APS-C"))])
      None;
    (* /\b(micro\s*4\/3|m43|mft)\b/i *)
    Extractor (lit "sensor_size_m43")
      (seqs [WordB;
             Group 1 (alts [seqs [i_ "micro"; Star space; s_ "4/3"];
                            i_ "m43"; i_ "mft"]);
             WordB])
      (fun _ => [(lit "params.sensor_size", VStr (lit "Micro 4/3"))])
      None;
    (* /\b(RF|EF|FE|E-mount|Z-mount|X-mount|L-mount|MFT)\b/i *)
    Extractor (lit "mount")
      (seqs [WordB; Group 1 mount_names; WordB])
      (fun m => [(lit "params.mount", VStr (toUpperCase (cap m 1)))])
      None;
    (* /\b(\d{2})\s*mm\b/i, only in the context /filtr|cpl|nd|uv|polaryz/i *)
    Extractor (lit "filter_diameter")
      (seqs [WordB; Group 1 (rep 2 digit); Star space; i_ "mm"; WordB])
      (fun m => [(lit "params.filter_diameter", parseInt (cap m 1))])
      (Some (alts [i_ "filtr"; i_ "cpl"; i_ "nd"; i_ "uv"; i_ "polaryz"]));
    (* /(\d+(?:\.\d+)?)\s*(?:MP|Mpx|megapiksel)/i *)
    Extractor (lit "megapixels")
      (seqs [Group 1 (seqs [plus digit; opt (seqs [s_ "."; plus digit])]);
             Star space;
             alts [i_ "MP"; i_ "Mpx"; i_ "megapiksel"]])
      (fun m => [(lit "params.megapixels", parseFloat (cap m 1))])
      None ].

(** [extractParams(query)]: every extractor whose context pattern (when it
    has one) and whose pattern match contributes its fields. *)
Definition extractParams (query : jsstring) : object :=
  let q := or_else query [] in
  fold_left
    (fun params e =>
       match contextPattern e with
       | Some ctx =>
           if negb (test ctx q) then params
           else match exec (pattern e) q with
                | Some m => assign params (extract e m)
                | None => params
                end
       | None =>
           match exec (pattern e) q with
           | Some m => assign params (extract e m)
           | None => params
           end
       end)
    EXTRACTORS [].

(** The seven patterns that [stripParams] deletes, in order. *)
Definition STRIP_PATTERNS : list regex :=
  [ (* /f\/\d+\.?\d*/gi *)
    seqs [i_ "f"; s_ "/"; plus digit; opt (s_ "."); Star digit];
    (* /\d+-\d+\s*mm/gi *)
    seqs [plus digit; s_ "-"; plus digit; Star space; i_ "mm"];
    (* /\b\d+\s*mm\b/gi *)
    seqs [WordB; plus digit; Star space; i_ "mm"; WordB];
    (* /\b\d+[kK]\b/g *)
    seqs [WordB; plus digit; oneof "kK"; WordB];
    (* /\d+\s*fps/gi *)
    seqs [plus digit; Star space; i_ "fps"];
    (* /\b(?:full\s*frame|pełna\s*klatka|ff|aps-?c|micro\s*4\/3|m43|mft)\b/gi *)
    seqs [WordB;
          alts [seqs [i_ "full"; Star space; i_ "frame"];
                seqs [i_ "pełna"; Star space; i_ "klatka"];
                i_ "ff";
                seqs [i_ "aps"; opt (s_ "-"); i_ "c"];
                seqs [i_ "micro"; Star space; s_ "4/3"];
                i_ "m43"; i_ "mft"];
          WordB];
    (* /\b(?:RF|EF|FE|E-mount|Z-mount|X-mount|L-mount|MFT)\b/gi *)
    seqs [WordB; mount_names; WordB] ].

(** [/\s+/g] *)
Definition SPACES : regex := plus space.

(** [stripParams(query)] *)
Definition stripParams (query : jsstring) : jsstring :=
  let q := or_else query [] in
  let q := fold_left (fun q r => replaceAll r [] q) STRIP_PATTERNS q in
  trim (replaceAll SPACES (lit " ") q).

End ParamExtractor.


(* ================================================================== *)
(** ** The intent object *)
(* ================================================================== *)

(** The [type] property of an intent. *)
Inductive IntentType : Type :=
| EAN | SKU | MODEL | BRAND | COMPOUND | PARAMETRIC | CATEGORY | PRICE
| GENERAL.

(** ['used'] and ['new'] *)
Inductive Preference : Type := used | new.

(** An intent is a JavaScript object with a [type] and optional properties;
    [None] is a property that is not there. The properties that the
    classifier may set to [null] carry a second [option], whose [None] is
    [null]. *)
Record Intent : Type := {
  type : IntentType;
  query : option jsstring;
  modelQuery : option jsstring;
  brand : option jsstring;
  isBodyQuery : option bool;
  conditionPref : option (option Preference);
  wantsAccessories : option bool;
  accessoryCategory : option (option jsstring);
  category : option jsstring;
  maxPrice : option (option Z);
  params : option ParamExtractor.object;
  detectedCategory : option jsstring;
  compatMounts : option (list jsstring);
  compatibilityMode : option bool;
  textQuery : option jsstring
}.

(* ================================================================== *)
(** ** intent-classifier.js *)
(* ================================================================== *)

Module IntentClassifier.

Definition KNOWN_BRANDS : list jsstring :=
  [ lit "canon"; lit "sony"; lit "nikon"; lit "fujifilm"; lit "fuji";
    lit "panasonic"; lit "lumix";
    lit "olympus"; lit "om system"; lit "leica"; lit "sigma"; lit "tamron";
    lit "viltrox"; lit "samyang";
    lit "godox"; lit "profoto"; lit "manfrotto"; lit "benro"; lit "gitzo";
    lit "peak design";
    lit "lowepro"; lit "hoya"; lit "b+w"; lit "nisi"; lit "dji"; lit "gopro";
    lit "sandisk"; lit "lexar";
    lit "kingston"; lit "zhiyun"; lit "rode"; lit "sennheiser";
    lit "smallrig"; lit "fomei";
    lit "patona"; lit "newell"; lit "savage"; lit "marumi"; lit "epson";
    lit "glareone";
    lit "hasselblad"; lit "ricoh"; lit "pentax"; lit "zeiss"; lit "tokina";
    lit "laowa";
    lit "joby"; lit "tether tools"; lit "elinchrom"; lit "broncolor";
    lit "aputure" ].

(** [\b(canon|sony|...)\b] with the [i] flag; the [+] of [b+w] is escaped,
    so every brand is a literal. *)
Definition BRAND_PATTERN : regex :=
  seqs [WordB; Group 1 (alts (map str_i KNOWN_BRANDS)); WordB].

Definition CATEGORY_NAMES : list (jsstring * jsstring) :=
  [ (lit "aparaty", lit "Aparaty cyfrowe");
    (lit "aparaty cyfrowe", lit "Aparaty cyfrowe");
    (lit "aparaty bezlusterkowe", lit "Aparaty cyfrowe");
    (lit "bezlusterkowce", lit "Aparaty cyfrowe");
    (lit "mirrorless", lit "Aparaty cyfrowe");
    (lit "lustrzanki", lit "Aparaty cyfrowe");
    (lit "dslr", lit "Aparaty cyfrowe");
    (lit "aparaty analogowe", lit "Aparaty analogowe");
    (lit "analogowe", lit "Aparaty analogowe");
    (lit "obiektywy", lit "Obiektywy do bezlusterkowców");
    (lit "obiektyw", lit "Obiektywy do bezlusterkowców");
    (lit "obiektywy do bezlusterkowców", lit "Obiektywy do bezlusterkowców");
    (lit "obiektywy do lustrzanek", lit "Obiektywy do lustrzanek");
    (lit "statywy", lit "Statywy i akcesoria");
    (lit "statyw", lit "Statywy i akcesoria");
    (lit "lampy błyskowe", lit "Lampy błyskowe");
    (lit "lampy", lit "Lampy błyskowe");
    (lit "flesz", lit "Lampy błyskowe");
    (lit "flash", lit "Lampy błyskowe");
    (lit "lampy studyjne", lit "Lampy błyskowe studyjne");
    (lit "oświetlenie", lit "Lampy światła ciągłego");
    (lit "lampy wideo", lit "Lampy wideo");
    (lit "softboxy", lit "Softboxy i akcesoria");
    (lit "filtry", lit "Filtry, pokrywki");
    (lit "filtr", lit "Filtry, pokrywki");
    (lit "filtry nd", lit "Filtry, pokrywki");
    (lit "filtry uv", lit "Filtry, pokrywki");
    (lit "filtry prostokątne", lit "Filtry prostokątne");
    (lit "karty pamięci", lit "Karty pamięci");
    (lit "karty sd", lit "Karty pamięci");
    (lit "karty cf", lit "Karty pamięci");
    (lit "torby", lit "Torby, plecaki, walizki");
    (lit "plecaki", lit "Torby, plecaki, walizki");
    (lit "plecak", lit "Torby, plecaki, walizki");
    (lit "walizki", lit "Torby, plecaki, walizki");
    (lit "drony", lit "Drony");
    (lit "dron", lit "Drony");
    (lit "kamery", lit "Kamery cyfrowe");
    (lit "kamera", lit "Kamery cyfrowe");
    (lit "kamery sportowe", lit "Kamery sportowe");
    (lit "gopro", lit "Kamery sportowe");
    (lit "kamery internetowe", lit "Kamery internetowe");
    (lit "gimbale", lit "Systemy stabilizacji");
    (lit "gimbal", lit "Systemy stabilizacji");
    (lit "stabilizatory", lit "Systemy stabilizacji");
    (lit "audio", lit "Audio");
    (lit "mikrofon", lit "Audio");
    (lit "mikrofony", lit "Audio");
    (lit "słuchawki", lit "Słuchawki");
    (lit "akumulatory", lit "Akumulatory");
    (lit "akumulator", lit "Akumulatory");
    (lit "baterie", lit "Akumulatory");
    (lit "ładowarki", lit "Ładowarki");
    (lit "zasilanie", lit "Zasilanie");
    (lit "lornetki", lit "Lornetki");
    (lit "lornetka", lit "Lornetki");
    (lit "lunety", lit "Lunety");
    (lit "teleskopy", lit "Teleskopy");
    (lit "monitory", lit "Monitory");
    (lit "monitor", lit "Monitory");
    (lit "drukarki", lit "Drukarki");
    (lit "drukarka", lit "Drukarki");
    (lit "skanery", lit "Skanery");
    (lit "tablety", lit "Tablety");
    (lit "etui", lit "Etui");
    (lit "paski", lit "Paski i szelki");
    (lit "adaptery", lit "Adaptery bagnetowe");
    (lit "dyski", lit "Dyski twarde");
    (lit "tła", lit "Tła i systemy zawieszania");
    (lit "papier", lit "Papier fotograficzny");
    (lit "używane", lit "Używane aparaty cyfrowe") ].

(** [map.get(key)] on a [Map] with string keys (the keys of the tables of
    this module are distinct). *)
Fixpoint map_get {A : Type} (m : list (jsstring * A)) (key : jsstring)
  : option A :=
  match m with
  | [] => None
  | (k, v) :: rest => if JsString.eqb k key then Some v else map_get rest key
  end.

(** [^s\b] and [\bs\b] with the [i] flag *)
Definition bw (s : string) : regex := seqs [Bol; i_ s; WordB].
Definition ww (s : string) : regex := seqs [WordB; i_ s; WordB].
Arguments bw s%_string.
Arguments ww s%_string.

(** [/^om-?[0-9]\b|^e-?m[0-9]\b/i], shared by three tables entries *)
Definition om_em : list regex :=
  [ seqs [Bol; i_ "om"; opt (s_ "-"); digit; WordB];
    seqs [Bol; i_ "e"; opt (s_ "-"); i_ "m"; digit; WordB] ].

(** [/^x-?[a-z][0-9]|^x-?[thsep]\d|^x100\b|^gfx\b/i] *)
Definition fuji_body : regex :=
  alts [ seqs [Bol; i_ "x"; opt (s_ "-"); letter_i; digit];
         seqs [Bol; i_ "x"; opt (s_ "-"); oneof_i "thsep"; digit];
         bw "x100"; bw "gfx" ].

(** [/^s[0-9]\b|^s5\b|^gh[0-9]\b|^g[0-9]\b/i] *)
Definition lumix_body : list regex :=
  [ seqs [Bol; i_ "s"; digit; WordB]; bw "s5";
    seqs [Bol; i_ "gh"; digit; WordB]; seqs [Bol; i_ "g"; digit; WordB] ].

Definition BODY_MODEL_PATTERNS : list (jsstring * regex) :=
  [ (* /^a[1-9]\b|^a7[crs]?\b|^a6[0-9]{3}\b|^a9\b|^alpha\b|^fx[0-9]/i *)
    (lit "sony",
     alts [ seqs [Bol; i_ "a"; digits 1 9; WordB];
            seqs [Bol; i_ "a7"; opt (oneof_i "crs"); WordB];
            seqs [Bol; i_ "a6"; rep 3 digit; WordB];
            bw "a9"; bw "alpha"; seqs [Bol; i_ "fx"; digit] ]);
    (* /^eos\b|^r[0-9]\b|^r5\b|^r6\b|^r7\b|^r8\b|^r10\b|^r50\b|^r100\b
        |^powershot\b|^1d\b|^5d\b|^6d\b|^7d\b|^80d\b|^90d\b/i *)
    (lit "canon",
     alts [ bw "eos"; seqs [Bol; i_ "r"; digit; WordB];
            bw "r5"; bw "r6"; bw "r7"; bw "r8"; bw "r10"; bw "r50"; bw "r100";
            bw "powershot"; bw "1d"; bw "5d"; bw "6d"; bw "7d"; bw "80d";
            bw "90d" ]);
    (* /^z[0-9]\b|^z5\b|^z6\b|^z7\b|^z8\b|^z9\b|^z30\b|^z50\b|^zf\b|^zfc\b
        |^d[0-9]{3,4}\b/i *)
    (lit "nikon",
     alts [ seqs [Bol; i_ "z"; digit; WordB];
            bw "z5"; bw "z6"; bw "z7"; bw "z8"; bw "z9"; bw "z30"; bw "z50";
            bw "zf"; bw "zfc";
            seqs [Bol; i_ "d"; rep_range 3 4 digit; WordB] ]);
    (lit "fujifilm", fuji_body);
    (lit "fuji", fuji_body);
    (* /^s[0-9]\b|^s5\b|^gh[0-9]\b|^g[0-9]\b|^lumix\b/i *)
    (lit "panasonic", alts (lumix_body ++ [bw "lumix"]));
    (lit "lumix", alts lumix_body);
    (* /^om-?[0-9]\b|^e-?m[0-9]\b|^pen\b/i *)
    (lit "olympus", alts (om_em ++ [bw "pen"]));
    (lit "om system", alts om_em);
    (* /^sl[0-9]?\b|^q[0-9]?\b|^m[0-9]{1,2}\b|^cl\b/i *)
    (lit "leica",
     alts [ seqs [Bol; i_ "sl"; opt digit; WordB];
            seqs [Bol; i_ "q"; opt digit; WordB];
            seqs [Bol; i_ "m"; rep_range 1 2 digit; WordB];
            bw "cl" ]);
    (* /^x[0-9]d\b|^907\b/i *)
    (lit "hasselblad", alts [ seqs [Bol; i_ "x"; digit; i_ "d"; WordB]; bw "907" ]);
    (* /^gr\b|^theta\b/i *)
    (lit "ricoh", alts [ bw "gr"; bw "theta" ]);
    (* /^k-?[0-9]\b/i *)
    (lit "pentax", seqs [Bol; i_ "k"; opt (s_ "-"); digit; WordB]);
    (* /^mavic\b|^mini\b|^air\b|^phantom\b|^osmo\b|^pocket\b|^avata\b
        |^action\b/i *)
    (lit "dji",
     alts [ bw "mavic"; bw "mini"; bw "air"; bw "phantom"; bw "osmo";
            bw "pocket"; bw "avata"; bw "action" ]);
    (* /^hero\b|^max\b/i *)
    (lit "gopro", alts [ bw "hero"; bw "max" ]) ].

(** [detectBodyQuery(brand, afterBrand)] *)
Definition detectBodyQuery (brand afterBrand : jsstring) : bool :=
  let brandLower := toLowerCase brand in
  match map_get BODY_MODEL_PATTERNS brandLower with
  | Some pattern => if test pattern afterBrand then true else false
  | None => false
  end.

Definition MODEL_TO_BRAND : list (regex * jsstring) :=
  [ (* /\beos\b|^r[0-9]\b|^r5\b|^r6\b|^r7\b|^r8\b|^r10\b|^r50\b|^r100\b
        |^powershot\b|\b1d\b|\b5d\b|\b6d\b|\b7d\b|\b80d\b|\b90d\b/i *)
    (alts [ ww "eos"; seqs [Bol; i_ "r"; digit; WordB];
            bw "r5"; bw "r6"; bw "r7"; bw "r8"; bw "r10"; bw "r50"; bw "r100";
            bw "powershot"; ww "1d"; ww "5d"; ww "6d"; ww "7d"; ww "80d";
            ww "90d" ],
     lit "canon");
    (* /\balpha\b|^a[1-9]\b|^a7[crs]?\b|^a6[0-9]{3}\b|^a9\b|^zv-?[0-9e]/i *)
    (alts [ ww "alpha"; seqs [Bol; i_ "a"; digits 1 9; WordB];
            seqs [Bol; i_ "a7"; opt (oneof_i "crs"); WordB];
            seqs [Bol; i_ "a6"; rep 3 digit; WordB];
            bw "a9";
            seqs [Bol; i_ "zv"; opt (s_ "-"); oneof_i "0123456789e"] ],
     lit "sony");
    (* /\blumix\b|^gh[0-9]\b|^g[0-9]\b|^s5\b/i *)
    (alts [ ww "lumix"; seqs [Bol; i_ "gh"; digit; WordB];
            seqs [Bol; i_ "g"; digit; WordB]; bw "s5" ],
     lit "panasonic");
    (* /^x-?t[0-9]|^x-?[hsep][0-9]|^x100\b|^gfx\b|^x-?pro/i *)
    (alts [ seqs [Bol; i_ "x"; opt (s_ "-"); i_ "t"; digit];
            seqs [Bol; i_ "x"; opt (s_ "-"); oneof_i "hsep"; digit];
            bw "x100"; bw "gfx";
            seqs [Bol; i_ "x"; opt (s_ "-"); i_ "pro"] ],
     lit "fujifilm");
    (* /^z[5-9]\b|^z30\b|^z50\b|^zf\b|^zfc\b|^d[3-9][0-9]{2}\b
        |^d[0-9]{4}\b/i *)
    (alts [ seqs [Bol; i_ "z"; digits 5 9; WordB];
            bw "z30"; bw "z50"; bw "zf"; bw "zfc";
            seqs [Bol; i_ "d"; digits 3 9; rep 2 digit; WordB];
            seqs [Bol; i_ "d"; rep 4 digit; WordB] ],
     lit "nikon");
    (* /\bmavic\b|\bosmo\b|\bphantom\b|\bavata\b/i *)
    (alts [ ww "mavic"; ww "osmo"; ww "phantom"; ww "avata" ], lit "dji");
    (* /\bhero\b/i *)
    (ww "hero", lit "gopro");
    (* /^om-?[0-9]\b|^e-?m[0-9]\b|^pen\b/i *)
    (alts (om_em ++ [bw "pen"]), lit "olympus");
    (* /^gr\b|^theta\b/i *)
    (alts [ bw "gr"; bw "theta" ], lit "ricoh");
    (* /^k-?[0-9]\b/i *)
    (seqs [Bol; i_ "k"; opt (s_ "-"); digit; WordB], lit "pentax") ].

(** [(?:\b|$)] *)
Definition wb_or_end : regex := Alt WordB Eol.

(** [/\b(?:A)(?:\b|$)/i] with
    [A = używ\w*|uzyw\w*|second[\s-]?hand|poleasingow\w*] *)
Definition USED_PATTERN : regex :=
  seqs [ WordB;
         alts [ seqs [i_ "używ"; Star wordc];
                seqs [i_ "uzyw"; Star wordc];
                seqs [i_ "second";
                      opt (Char (fun x => is_space x || (x =? 45)%N));
                      i_ "hand"];
                seqs [i_ "poleasingow"; Star wordc] ];
         wb_or_end ].

(** [/\b(?:now[yaeio]|fabrycznie?\s*now[yaeio]|nówka)(?:\b|$)/i] *)
Definition NEW_PATTERN : regex :=
  seqs [ WordB;
         alts [ seqs [i_ "now"; oneof_i "yaeio"];
                seqs [i_ "fabryczni"; opt (i_ "e"); Star space; i_ "now";
                      oneof_i "yaeio"];
                i_ "nówka" ];
         wb_or_end ].

(** [/\b(?:A)(?:\b|$)/i] with
    [A = akceso\w*|accesso\w*|klatk[aię]\w*|grip\w*|osłon\w*|etui\w*
      |filtr\w*|torb[aęy]\w*|plecak\w*|pasek\w*|ładowark\w*|akumulat\w*
      |bateri\w*] *)
Definition ACCESSORY_PATTERN : regex :=
  seqs [ WordB;
         alts [ seqs [i_ "akceso"; Star wordc];
                seqs [i_ "accesso"; Star wordc];
                seqs [i_ "klatk"; oneof_i "aię"; Star wordc];
                seqs [i_ "grip"; Star wordc];
                seqs [i_ "osłon"; Star wordc];
                seqs [i_ "etui"; Star wordc];
                seqs [i_ "filtr"; Star wordc];
                seqs [i_ "torb"; oneof_i "aęy"; Star wordc];
                seqs [i_ "plecak"; Star wordc];
                seqs [i_ "pasek"; Star wordc];
                seqs [i_ "ładowark"; Star wordc];
                seqs [i_ "akumulat"; Star wordc];
                seqs [i_ "bateri"; Star wordc] ];
         wb_or_end ].

(** The [PATTERNS] table. *)

(** [/^\d{8}$|^\d{13}$/] *)
Definition PATTERNS_EAN : regex :=
  Alt (seqs [Bol; rep 8 digit; Eol]) (seqs [Bol; rep 13 digit; Eol]).

(** [/^[A-Z]{2,4}[-_][A-Z]*\d[A-Z0-9]*/i] *)
Definition PATTERNS_SKU : regex :=
  seqs [Bol; rep_range 2 4 letter_i; oneof "-_"; Star letter_i; digit;
        Star alnum_i].

(** [/f\/\d+\.?\d*/i] *)
Definition PATTERNS_PARAMETRIC_APERTURE : regex :=
  seqs [i_ "f"; s_ "/"; plus digit; opt (s_ "."); Star digit].

(** [/\d+(?:-\d+)?\s*mm/i] *)
Definition PATTERNS_PARAMETRIC_FOCAL : regex :=
  seqs [plus digit; opt (seqs [s_ "-"; plus digit]); Star space; i_ "mm"].

(** [/\b\d+[kK]\b/] *)
Definition PATTERNS_PARAMETRIC_RES : regex :=
  seqs [WordB; plus digit; oneof "kK"; WordB].

(** [/\d+\s*fps/i] *)
Definition PATTERNS_PARAMETRIC_FPS : regex :=
  seqs [plus digit; Star space; i_ "fps"].

(** [/\b(?:full\s*frame|aps-?c|micro\s*4\/3|m43|pełna\s*klatka)\b/i] *)
Definition PATTERNS_PARAMETRIC_SENSOR : regex :=
  seqs [WordB;
        alts [seqs [i_ "full"; Star space; i_ "frame"];
              seqs [i_ "aps"; opt (s_ "-"); i_ "c"];
              seqs [i_ "micro"; Star space; s_ "4/3"];
              i_ "m43";
              seqs [i_ "pełna"; Star space; i_ "klatka"]];
        WordB].

(** [/\b(?:RF|EF|FE|E-mount|Z-mount|X-mount|L-mount|MFT)\b/i] *)
Definition PATTERNS_PARAMETRIC_MOUNT : regex :=
  seqs [WordB; ParamExtractor.mount_names; WordB].

(** [/(?:do\s+(\d+)\s*(?:zł|pln)?|poniżej\s+(\d+)|tani[ae]?\b)/i] *)
Definition PATTERNS_PRICE : regex :=
  alts [ seqs [i_ "do"; plus space; Group 1 (plus digit); Star space;
               opt (alts [i_ "zł"; i_ "pln"])];
         seqs [i_ "poniżej"; plus space; Group 2 (plus digit)];
         seqs [i_ "tani"; opt (oneof_i "ae"); WordB] ].

(** [detectConditionPreference(q)]: ['used'], ['new'] or [null] *)
Definition detectConditionPreference (q : jsstring) : option Preference :=
  if test USED_PATTERN q then Some used
  else if test NEW_PATTERN q then Some new
  else None.

(** [detectAccessoryPreference(q)] *)
Definition detectAccessoryPreference (q : jsstring) : bool :=
  test ACCESSORY_PATTERN q.

(** A category of [null] (the generic [akcesoria]) is [None]. *)
Definition ACCESSORY_TO_CATEGORY : list (jsstring * option jsstring) :=
  [ (lit "akumulator", Some (lit "Akumulatory"));
    (lit "akumulatory", Some (lit "Akumulatory"));
    (lit "bateria", Some (lit "Akumulatory"));
    (lit "baterie", Some (lit "Akumulatory"));
    (lit "ładowarka", Some (lit "Ładowarki"));
    (lit "ładowarki", Some (lit "Ładowarki"));
    (lit "filtr", Some (lit "Filtry, pokrywki"));
    (lit "filtry", Some (lit "Filtry, pokrywki"));
    (lit "torba", Some (lit "Torby, plecaki, walizki"));
    (lit "torby", Some (lit "Torby, plecaki, walizki"));
    (lit "plecak", Some (lit "Torby, plecaki, walizki"));
    (lit "plecaki", Some (lit "Torby, plecaki, walizki"));
    (lit "etui", Some (lit "Etui"));
    (lit "grip", Some (lit "Akumulatory"));
    (lit "gripy", Some (lit "Akumulatory"));
    (lit "klatka", Some (lit "Rigi i akcesoria"));
    (lit "klatki", Some (lit "Rigi i akcesoria"));
    (lit "osłona", Some (lit "Akcesoria drobne"));
    (lit "osłony", Some (lit "Akcesoria drobne"));
    (lit "pasek", Some (lit "Paski i szelki"));
    (lit "paski", Some (lit "Paski i szelki"));
    (lit "akcesoria", None) ].

(** The inner loop of [detectAccessoryCategory]: the category of the first
    key that the word is a prefix of, for words of at least four code
    units. The outer [option] says whether the loop returned. *)
Fixpoint prefix_lookup (m : list (jsstring * option jsstring))
  (word : jsstring) : option (option jsstring) :=
  match m with
  | [] => None
  | (key, cat) :: rest =>
      if startsWith key word && (4 <=? length word) then Some cat
      else prefix_lookup rest word
  end.

Fixpoint detectAccessoryCategory_words (words : list jsstring)
  : option jsstring :=
  match words with
  | [] => None
  | word :: rest =>
      match map_get ACCESSORY_TO_CATEGORY word with
      | Some cat => cat
      | None =>
          match prefix_lookup ACCESSORY_TO_CATEGORY word with
          | Some cat => cat
          | None => detectAccessoryCategory_words rest
          end
      end
  end.

(** [detectAccessoryCategory(q)] *)
Definition detectAccessoryCategory (q : jsstring) : option jsstring :=
  detectAccessoryCategory_words (split ParamExtractor.SPACES (toLowerCase q)).

(** [stripModifierWords(q)] *)
Definition stripModifierWords (q : jsstring) : jsstring :=
  trim (replaceAll ParamExtractor.SPACES (lit " ")
          (replace NEW_PATTERN []
             (replace USED_PATTERN []
                (replace ACCESSORY_PATTERN [] q)))).

(** [inferBrandFromModel(q)]: the brand and [isBodyQuery], or [null] *)
Definition inferBrandFromModel (q : jsstring) : option (jsstring * bool) :=
  let cleaned := trim (replace NEW_PATTERN [] (replace USED_PATTERN [] q)) in
  (fix loop (table : list (regex * jsstring)) : option (jsstring * bool) :=
     match table with
     | [] => None
     | (pattern, brand) :: rest =>
         if test pattern cleaned
         then Some (brand, detectBodyQuery brand cleaned)
         else loop rest
     end) MODEL_TO_BRAND.

(** [parseInt(priceMatch[1] || priceMatch[2], 10) || null] *)
Definition parse_maxPrice (m : cursor * cursor) : option Z :=
  let digits :=
    match group m 1 with
    | Some s => if truthy s then Some s else group m 2
    | None => group m 2
    end in
  match digits with
  | Some s => let n := parseDigits s in if (n =? 0)%Z then None else Some n
  | None => None
  end.

(** The properties shared by all the objects that [classifyIntent]
    returns. *)
Definition intent (ty : IntentType) (q : jsstring)
  (conditionPref : option Preference) (wantsAccessories : bool) : Intent :=
  {| type := ty; query := Some q; modelQuery := None; brand := None;
     isBodyQuery := None; conditionPref := Some conditionPref;
     wantsAccessories := Some wantsAccessories; accessoryCategory := None;
     category := None; maxPrice := None; params := None;
     detectedCategory := None; compatMounts := None;
     compatibilityMode := None; textQuery := None |}.

Definition intent_MODEL (q modelQuery brand : jsstring) (isBodyQuery : bool)
  (conditionPref : option Preference) (wantsAccessories : bool)
  (accessoryCategory : option jsstring) : Intent :=
  {| type := MODEL; query := Some q; modelQuery := Some modelQuery;
     brand := Some brand; isBodyQuery := Some isBodyQuery;
     conditionPref := Some conditionPref;
     wantsAccessories := Some wantsAccessories;
     accessoryCategory := Some accessoryCategory;
     category := None; maxPrice := None; params := None;
     detectedCategory := None; compatMounts := None;
     compatibilityMode := None; textQuery := None |}.

Definition intent_BRAND (q brand : jsstring)
  (conditionPref : option Preference) (wantsAccessories : bool)
  (accessoryCategory : option jsstring) : Intent :=
  {| type := BRAND; query := Some q; modelQuery := None;
     brand := Some brand; isBodyQuery := None;
     conditionPref := Some conditionPref;
     wantsAccessories := Some wantsAccessories;
     accessoryCategory := Some accessoryCategory;
     category := None; maxPrice := None; params := None;
     detectedCategory := None; compatMounts := None;
     compatibilityMode := None; textQuery := None |}.

Definition intent_CATEGORY (q category : jsstring)
  (conditionPref : option Preference) (wantsAccessories : bool) : Intent :=
  {| type := CATEGORY; query := Some q; modelQuery := None; brand := None;
     isBodyQuery := None; conditionPref := Some conditionPref;
     wantsAccessories := Some wantsAccessories; accessoryCategory := None;
     category := Some category; maxPrice := None; params := None;
     detectedCategory := None; compatMounts := None;
     compatibilityMode := None; textQuery := None |}.

Definition intent_PRICE (q : jsstring) (maxPrice : option Z)
  (conditionPref : option Preference) (wantsAccessories : bool) : Intent :=
  {| type := PRICE; query := Some q; modelQuery := None; brand := None;
     isBodyQuery := None; conditionPref := Some conditionPref;
     wantsAccessories := Some wantsAccessories; accessoryCategory := None;
     category := None; maxPrice := Some maxPrice; params := None;
     detectedCategory := None; compatMounts := None;
     compatibilityMode := None; textQuery := None |}.

(** [classifyIntent(query)]: the first rule that matches decides. *)
Definition classifyIntent (query : jsstring) : Intent :=
  let q := trim (or_else query []) in
  let conditionPref := detectConditionPreference q in
  let wantsAccessories := detectAccessoryPreference q in
  let accessoryCategory :=
    if wantsAccessories then detectAccessoryCategory q else None in
  (* RULE 1: EAN barcode *)
  if test PATTERNS_EAN q then intent EAN q conditionPref wantsAccessories
  (* RULE 2: SKU / manufacturer code pattern *)
  else if test PATTERNS_SKU q then intent SKU q conditionPref wantsAccessories
  else
  (* RULE 3: MODEL or BRAND, a brand name detected *)
  match exec BRAND_PATTERN q with
  | Some brandMatch =>
      let afterBrand := trim (after (snd brandMatch)) in
      if test alnum_i afterBrand then
        let isBodyQuery :=
          if wantsAccessories then false
          else detectBodyQuery (ParamExtractor.cap brandMatch 1) afterBrand in
        let modelQuery := stripModifierWords q in
        intent_MODEL q modelQuery (ParamExtractor.cap brandMatch 1) isBodyQuery
                     conditionPref wantsAccessories accessoryCategory
      else
        intent_BRAND q (ParamExtractor.cap brandMatch 1)
                     conditionPref wantsAccessories accessoryCategory
  | None =>
  (* RULE 3b: MODEL without explicit brand *)
  match inferBrandFromModel q with
  | Some (inferred_brand, inferred_isBodyQuery) =>
      let isBodyQuery :=
        if wantsAccessories then false else inferred_isBodyQuery in
      let modelQuery := stripModifierWords q in
      intent_MODEL q modelQuery inferred_brand isBodyQuery
                   conditionPref wantsAccessories accessoryCategory
  | None =>
  (* RULE 4: PARAMETRIC *)
  let hasParam :=
    test PATTERNS_PARAMETRIC_APERTURE q
    || test PATTERNS_PARAMETRIC_FOCAL q
    || test PATTERNS_PARAMETRIC_RES q
    || test PATTERNS_PARAMETRIC_FPS q
    || test PATTERNS_PARAMETRIC_SENSOR q
    || test PATTERNS_PARAMETRIC_MOUNT q in
  if hasParam then intent PARAMETRIC q conditionPref wantsAccessories
  else
  (* RULE 5: CATEGORY, exact match to known category *)
  let qLower := toLowerCase q in
  match map_get CATEGORY_NAMES qLower with
  | Some mappedCategory =>
      intent_CATEGORY q mappedCategory conditionPref wantsAccessories
  | None =>
  (* RULE 6: PRICE *)
  match exec PATTERNS_PRICE q with
  | Some priceMatch =>
      let maxPrice := parse_maxPrice priceMatch in
      let cleanQuery := trim (replace PATTERNS_PRICE [] q) in
      intent_PRICE (or_else cleanQuery q) maxPrice
                   conditionPref wantsAccessories
  | None =>
  (* DEFAULT: GENERAL *)
  intent GENERAL q conditionPref wantsAccessories
  end end end end.

End IntentClassifier.


(* ================================================================== *)
(** ** The query language of the index *)
(* ================================================================== *)

Module Es.

(** The scripts that the services send to the index, named after what they
    compute; their Painless sources are interpreted in [Ranking]. *)
Inductive Script : Type :=
| sales_30d_boost
| sales_365d_boost
| revenue_boost
| ga4_popularity_boost
| ga4_conversion_boost
| ga4_trending_boost
| margin_boost
| rating_boost
| sku_specificity_boost
| name_startsWith_boost
| category_path_boost
| popular_sort_key
| trending_sort_key.

(** Structured queries. A clause list that the source leaves out of a
    [bool] is the empty list. *)
#[warnings="-register-all"]
Inductive Query : Type :=
| match_all : Query
| term (field : jsstring) (v : value) (boost : option Q) : Query
| terms (field : jsstring) (vs : list jsstring) : Query
| range (field : jsstring) (gte lte : option value) : Query
| multi_match (q : jsstring) (fields : list jsstring) (ty : jsstring)
    (fuzziness : option value) (prefix_length : option Z) (boost : option Q)
  : Query
| match_phrase (field q : jsstring) (slop : option Z) (boost : option Q)
  : Query
| match_ (field q operator : jsstring) : Query
| bool_ (must should filter : list Query)
    (minimum_should_match : option Z) : Query
| function_score (q : Query) (functions : list score_function)
    (score_mode boost_mode : jsstring) : Query
with score_function : Type :=
| weight_fn (filter : Query) (weight : Q) : score_function
| script_score (s : Script) (params : list (jsstring * jsstring))
  : score_function
| gauss (field origin scale : jsstring) (decay : Q) : score_function.

Inductive sort_clause : Type :=
| by_field (field order : jsstring)
| by_score
| by_script (s : Script) (order : jsstring).

Inductive agg : Type :=
| terms_agg (field : jsstring) (size : Z)
| range_agg (field : jsstring)
    (ranges : list (jsstring * option Z * option Z)).

(** The phrase suggester request of [buildSpellCheckQuery]. *)
Record suggest : Type := {
  suggest_text : jsstring;
  suggest_field : jsstring;
  suggest_size : Z;
  gram_size : Z;
  suggest_mode : jsstring;
  pre_tag : jsstring;
  post_tag : jsstring
}.

(** The body of a search request. *)
Record body : Type := {
  from : option Z;
  size : option Z;
  body_query : option Query;
  aggs : list (jsstring * agg);
  _source : list jsstring;
  sort : option (list sort_clause);
  body_suggest : option suggest
}.

End Es.
Import Es.

(** What a JavaScript function can throw here: a [TypeError] of the
    language, or the error of a failed index call. *)
Inductive exn : Type := TypeError | IndexError.

Inductive result (A : Type) : Type :=
| Ok : A -> result A
| Throw : exn -> result A.
Arguments Ok {A} _.
Arguments Throw {A} _.

(* ================================================================== *)
(** ** query-builder.js *)
(* ================================================================== *)

Module QueryBuilder.

Import ParamExtractor.

Definition BRAND_CASE_MAP : list (jsstring * jsstring) :=
  [ (lit "dji", lit "DJI"); (lit "nisi", lit "NISI");
    (lit "nanlite", lit "NANLITE"); (lit "b+w", lit "B+W");
    (lit "gopro", lit "GoPro"); (lit "glareone", lit "GlareOne");
    (lit "peak design", lit "Peak Design");
    (lit "om system", lit "OM System"); (lit "easycover", lit "EasyCover");
    (lit "blackmagic", lit "Blackmagic");
    (lit "venus optics", lit "Venus Optics");
    (lit "insta360", lit "Insta360") ].

(** [normalizeBrandCase(brand)]; the fallback is
    [lower.replace(/\b\w/g, c => c.toUpperCase())]. The table is looked up
    by its own keys only (a brand named like a property that every object
    inherits is not modelled). *)
Definition normalizeBrandCase (brand : jsstring) : jsstring :=
  let lower := toLowerCase brand in
  match IntentClassifier.map_get BRAND_CASE_MAP lower with
  | Some b => b
  | None =>
      replaceAllWith (Seq WordB wordc) (fun m => toUpperCase (matched m)) lower
  end.

Definition NAME_FIELDS : list jsstring :=
  [ lit "name.exact^10"; lit "model_code^8"; lit "name.prefix^4";
    lit "name.folded^3"; lit "name.morfologik^2"; lit "name.stempel^1";
    lit "description^0.5" ].

Definition NAME_FIELDS_LIGHT : list jsstring :=
  [ lit "name.exact^10"; lit "name.prefix^4"; lit "name.folded^3";
    lit "name.morfologik^2" ].

(** The [filters] of a search request; [None] is a property that is not
    there. *)
Record Filters : Type := {
  f_brand : option jsstring;
  f_category : option jsstring;
  f_availability : option jsstring;
  f_mount : option jsstring;
  price_min : option Q;
  price_max : option Q
}.

Definition no_filters : Filters :=
  {| f_brand := None; f_category := None; f_availability := None;
     f_mount := None; price_min := None; price_max := None |}.

(** The options of [buildSearchQuery]. *)
Record Options : Type := {
  filters : option Filters;
  page : option Z;
  perPage : option Z;
  o_sort : option jsstring
}.

(** A string property that is there and truthy. *)
Definition truthy_opt (o : option jsstring) : option jsstring :=
  match o with
  | Some s => if truthy s then Some s else None
  | None => None
  end.

Definition plain_term (field : string) (v : value) : Query :=
  term (lit field) v None.
Arguments plain_term field%_string v.

(** [buildFilterClauses(filters)] *)
Definition buildFilterClauses (f : Filters) : list Query :=
  (match truthy_opt (f_brand f) with
   | Some b => [plain_term "brand" (VStr b)] | None => [] end)
  ++ (match truthy_opt (f_category f) with
      | Some c => [plain_term "category" (VStr c)] | None => [] end)
  ++ (match truthy_opt (f_availability f) with
      | Some a => [plain_term "availability" (VStr a)] | None => [] end)
  ++ (match truthy_opt (f_mount f) with
      | Some m => [plain_term "compatible_mounts" (VStr m)] | None => [] end)
  ++ (match price_min f, price_max f with
      | None, None => []
      | lo, hi => [range (lit "price") (option_map VNum lo) (option_map VNum hi)]
      end).

(** [buildParamFilters(params)] *)
Definition buildParamFilters (params : object) : list Query :=
  map (fun kv =>
         let '(field, v) := kv in
         if includes field (lit "focal_length_min")
         then range (lit "params.focal_length_min") None (Some v)
         else if includes field (lit "focal_length_max")
         then range (lit "params.focal_length_max") (Some v) None
         else term field v None)
      params.

(** [buildSortClause(sort)] *)
Definition buildSortClause (sort : jsstring) : list sort_clause :=
  if JsString.eqb sort (lit "price_asc")
  then [by_field (lit "price") (lit "asc"); by_score]
  else if JsString.eqb sort (lit "price_desc")
  then [by_field (lit "price") (lit "desc"); by_score]
  else if JsString.eqb sort (lit "newest")
  then [by_field (lit "created_at") (lit "desc"); by_score]
  else if JsString.eqb sort (lit "popular")
  then [by_script popular_sort_key (lit "desc"); by_score]
  else if JsString.eqb sort (lit "trending")
  then [by_script trending_sort_key (lit "desc"); by_score]
  else [by_score].

(** [intent.params && Object.keys(intent.params).length > 0] *)
Definition has_params (intent : Intent) : bool :=
  match params intent with
  | Some (_ :: _) => true
  | _ => false
  end.

Definition sku_terms (field : string) (q skuUpper skuLower : jsstring)
  : list Query :=
  [ term (lit field) (VStr q) (Some 200%Q);
    term (lit field) (VStr skuUpper) (Some 200%Q);
    term (lit field) (VStr skuLower) (Some 200%Q) ].
Arguments sku_terms field%_string q skuUpper skuLower.

(** The [MODEL] branch for accessories of a model. *)
Definition model_accessory_query (q modelQuery : jsstring)
  (modelBrand : option jsstring) (intent : Intent) : Query :=
  (* the model text is escaped before it is compiled, so it is a literal *)
  let accessoryPart := trim (replace (str_i modelQuery) [] q) in
  let accCategory :=
    match accessoryCategory intent with
    | Some (Some c) => truthy_opt (Some c)
    | _ => None
    end in
  let mustClauses :=
    [ bool_ []
        [ multi_match modelQuery
            [lit "name.folded^3"; lit "name.morfologik^2"; lit "name.prefix^1"]
            (lit "best_fields") None None None;
          match_ (lit "description") modelQuery (lit "and") ]
        [] (Some 1%Z) ]
    ++ match accCategory with
       | Some c => [plain_term "category" (VStr c)]
       | None => []
       end in
  let shouldClauses :=
    [ multi_match q NAME_FIELDS (lit "cross_fields") None None (Some 5%Q) ]
    ++ (if truthy accessoryPart
        then [ multi_match accessoryPart
                 [lit "name.folded^5"; lit "name.morfologik^3"]
                 (lit "best_fields") None None (Some 3%Q) ]
        else [])
    ++ [ multi_match modelQuery [lit "name.folded^3"; lit "name.morfologik^2"]
           (lit "best_fields") None None (Some 2%Q) ]
    ++ match modelBrand with
       | Some b => [term (lit "brand") (VStr b) (Some 8%Q)]
       | None => []
       end in
  bool_ mustClauses shouldClauses [] None.

(** The standard [MODEL] branch. *)
Definition model_query (q : jsstring) (modelBrand : option jsstring)
  (intent : Intent) : Query :=
  let textQ := if has_params intent then stripParams q else q in
  let shouldClauses :=
    [ match_phrase (lit "name.morfologik") q None (Some 50%Q);
      match_phrase (lit "name.morfologik") q (Some 2%Z) (Some 25%Q);
      match_phrase (lit "model_code") q None (Some 30%Q) ]
    ++ match modelBrand with
       | Some b => [term (lit "brand") (VStr b) (Some 15%Q)]
       | None => []
       end in
  bool_
    [ multi_match textQ
        [lit "name.exact^10"; lit "model_code^8"; lit "name.folded^5";
         lit "name.prefix^3"]
        (lit "best_fields") (Some (VNum 1%Q)) (Some 2%Z) None ]
    shouldClauses [] None.

(** [buildIntentQuery(q, intent)]. The [BRAND] branch reads
    [intent.brand.toLowerCase()] and so throws when the intent has no
    brand. *)
Definition buildIntentQuery (q : jsstring) (intent : Intent) : result Query :=
  match type intent with
  | EAN => Ok (plain_term "ean" (VStr q))
  | SKU =>
      let skuUpper := toUpperCase q in
      let skuLower := toLowerCase q in
      Ok (bool_
            [ multi_match q NAME_FIELDS_LIGHT (lit "best_fields")
                None None None ]
            (sku_terms "sku" q skuUpper skuLower
             ++ sku_terms "manufacturer_code" q skuUpper skuLower
             ++ sku_terms "model_code" q skuUpper skuLower
             ++ [ match_phrase (lit "name.morfologik") q None (Some 50%Q) ])
            [] None)
  | MODEL =>
      let modelBrand := option_map normalizeBrandCase (truthy_opt (brand intent)) in
      let modelQuery :=
        match truthy_opt (modelQuery intent) with Some m => m | None => q end in
      if match wantsAccessories intent with Some true => true | _ => false end
         && negb (JsString.eqb modelQuery q)
      then Ok (model_accessory_query q modelQuery modelBrand intent)
      else Ok (model_query q modelBrand intent)
  | BRAND =>
      match brand intent with
      | None => Throw TypeError
      | Some b =>
          let brandNorm := normalizeBrandCase b in
          Ok (bool_ []
                [ term (lit "brand") (VStr brandNorm) (Some 20%Q);
                  multi_match q NAME_FIELDS (lit "best_fields") None None None ]
                [] None)
      end
  | COMPOUND =>
      let brandNorm := option_map normalizeBrandCase (truthy_opt (brand intent)) in
      let paramFilters :=
        buildParamFilters (match params intent with Some p => p | None => [] end) in
      let textQuery :=
        match truthy_opt (textQuery intent) with Some t => t | None => q end in
      let mustClauses :=
        [ plain_term "category" (of_option (detectedCategory intent)) ]
        ++ match compatibilityMode intent, compatMounts intent with
           | Some true, Some mounts => [terms (lit "compatible_mounts") mounts]
           | _, _ => []
           end in
      let shouldClauses :=
        [ match_phrase (lit "name.morfologik") q (Some 3%Z) (Some 20%Q);
          multi_match textQuery NAME_FIELDS (lit "best_fields") None None None ]
        ++ match brandNorm, compatibilityMode intent with
           | Some b, Some true => []
           | Some b, _ => [term (lit "brand") (VStr b) (Some 10%Q)]
           | None, _ => []
           end in
      Ok (bool_ mustClauses shouldClauses paramFilters None)
  | PARAMETRIC =>
      let textPart := stripParams q in
      if negb (truthy textPart) then Ok match_all
      else Ok (multi_match textPart NAME_FIELDS (lit "best_fields")
                 (Some (VStr (lit "AUTO"))) (Some 1%Z) None)
  | CATEGORY =>
      let qLower := toLowerCase q in
      Ok (function_score
            (bool_
               [ plain_term "category" (of_option (category intent)) ]
               [ multi_match q
                   [lit "name.folded^3"; lit "name.morfologik^2";
                    lit "name.stempel^1"]
                   (lit "best_fields") None None None ]
               [] None)
            [ script_score name_startsWith_boost [(lit "q", qLower)];
              script_score category_path_boost [] ]
            (lit "multiply") (lit "multiply"))
  | PRICE =>
      match truthy_opt (query intent) with
      | None => Ok match_all
      | Some textPart =>
          if JsString.eqb textPart q then Ok match_all
          else Ok (multi_match textPart NAME_FIELDS (lit "best_fields")
                     None None None)
      end
  | GENERAL =>
      let generalHasParams := has_params intent in
      let generalTextQ := if generalHasParams then stripParams q else q in
      Ok (multi_match (or_else generalTextQ q) NAME_FIELDS (lit "best_fields")
            (Some (VStr (lit "AUTO"))) (Some 1%Z) None)
  end.

Definition SEARCH_AGGS : list (jsstring * agg) :=
  [ (lit "brands", terms_agg (lit "brand") 20);
    (lit "categories", terms_agg (lit "category") 20);
    (lit "availability_facet", terms_agg (lit "availability") 5);
    (lit "mounts", terms_agg (lit "compatible_mounts") 15);
    (lit "price_ranges",
     range_agg (lit "price")
       [ (lit "0-500", None, Some 500%Z);
         (lit "500-1000", Some 500%Z, Some 1000%Z);
         (lit "1000-3000", Some 1000%Z, Some 3000%Z);
         (lit "3000-5000", Some 3000%Z, Some 5000%Z);
         (lit "5000-10000", Some 5000%Z, Some 10000%Z);
         (lit "10000+", Some 10000%Z, None) ]) ].

Definition SEARCH_SOURCE : list jsstring :=
  [ lit "id"; lit "name"; lit "brand"; lit "category"; lit "category_path";
    lit "price"; lit "sale_price"; lit "is_promo"; lit "currency";
    lit "availability"; lit "image_url"; lit "product_url"; lit "has_image";
    lit "avg_rating"; lit "review_count"; lit "is_new"; lit "sales_30d";
    lit "description"; lit "sku"; lit "condition"; lit "is_bestseller";
    lit "is_highlighted";
    lit "ga4.popularity_score"; lit "ga4.conversion_score";
    lit "ga4.trending_score" ].

(** [buildSearchQuery(q, intent, options)], with the defaults
    [filters = {}], [page = 1], [perPage = 20], [sort = 'relevance']. *)
Definition buildSearchQuery (q : jsstring) (intent : Intent) (o : Options)
  : result body :=
  let filters := match filters o with Some f => f | None => no_filters end in
  let page := match page o with Some p => p | None => 1%Z end in
  let perPage := match perPage o with Some p => p | None => 20%Z end in
  let sort := match o_sort o with Some s => s | None => lit "relevance" end in
  let from := ((page - 1) * perPage)%Z in
  let filterClauses := buildFilterClauses filters in
  let params :=
    match type intent with
    | COMPOUND => []
    | PARAMETRIC =>
        match params intent with Some p => p | None => extractParams q end
    | _ => match params intent with Some p => p | None => [] end
    end in
  let paramFilters := buildParamFilters params in
  match buildIntentQuery q intent with
  | Throw e => Throw e
  | Ok baseQuery =>
      Ok {| from := Some from;
            size := Some perPage;
            body_query :=
              Some (bool_ [baseQuery] [] (filterClauses ++ paramFilters) None);
            aggs := SEARCH_AGGS;
            _source := SEARCH_SOURCE;
            sort := if negb (JsString.eqb sort (lit "relevance"))
                    then Some (buildSortClause sort) else None;
            body_suggest := None |}
  end.

(** [buildSpellCheckQuery(q)] *)
Definition buildSpellCheckQuery (q : jsstring) : body :=
  {| from := None; size := Some 0%Z; body_query := None; aggs := [];
     _source := []; sort := None;
     body_suggest :=
       Some {| suggest_text := q; suggest_field := lit "name.folded";
               suggest_size := 1; gram_size := 3;
               suggest_mode := lit "missing";
               pre_tag := lit "<em>"; post_tag := lit "</em>" |} |}.

End QueryBuilder.

(* ================================================================== *)
(** ** ranking.js *)
(* ================================================================== *)

Module Ranking.

Definition CORE_CATEGORIES : list jsstring :=
  [ lit "Aparaty fotograficzne"; lit "Aparaty bezlusterkowe";
    lit "Lustrzanki cyfrowe"; lit "Aparaty kompaktowe"; lit "Obiektywy";
    lit "Obiektywy zmiennoogniskowe"; lit "Obiektywy stałoogniskowe";
    lit "Obiektywy makro"; lit "Drony"; lit "Drony konsumenckie";
    lit "Drony profesjonalne" ].

Definition ACCESSORY_CATEGORIES : list jsstring :=
  [ lit "Rigi i akcesoria"; lit "Akumulatory"; lit "Ładowarki";
    lit "Akcesoria drobne"; lit "Osłony"; lit "Torby, plecaki, walizki";
    lit "Filtry, pokrywki"; lit "Paski i szelki"; lit "Zasilanie";
    lit "Zasilacze"; lit "Kable"; lit "Etui"; lit "Czytniki";
    lit "Lampy wideo"; lit "Wyzwalanie lamp studyjnych"; lit "Slidery";
    lit "Monitory podglądowe" ].

Definition BODY_PRODUCT_CATEGORIES : list jsstring :=
  [ lit "Aparaty cyfrowe"; lit "Używane aparaty cyfrowe";
    lit "Kamery cyfrowe"; lit "Kamery sportowe"; lit "Drony" ].

(** The condition weights [(newWeight, usedWeight)]: the default favours
    new products, and flips when the user asks for used or new ones. *)
Definition condition_weights (conditionPref : option Preference) : Q * Q :=
  match conditionPref with
  | Some used => (0.55, 1.8)%Q
  | Some new => (1.5, 0.4)%Q
  | None => (1.3, 0.55)%Q
  end.

(** [intent?.conditionPref || null] *)
Definition conditionPref_of (intent : option Intent) : option Preference :=
  match intent with
  | Some i => match conditionPref i with Some (Some p) => Some p | _ => None end
  | None => None
  end.

Definition flag_true (o : option bool) : bool :=
  match o with Some true => true | _ => false end.

Definition when_term (field : string) (v : value) (w : Q) : score_function :=
  weight_fn (term (lit field) v None) w.
Arguments when_term field%_string v w.

(** [wrapWithFunctionScore(baseQuery, intent = null)] *)
Definition wrapWithFunctionScore (baseQuery : Query) (intent : option Intent)
  : Query :=
  let isBodyQuery :=
    match intent with Some i => flag_true (isBodyQuery i) | None => false end in
  let wantsAccessories :=
    match intent with Some i => flag_true (wantsAccessories i) | None => false end in
  let isSKUQuery :=
    match intent with
    | Some i => match type i with SKU => true | _ => false end
    | None => false
    end in
  let conditionPref := conditionPref_of intent in
  let newWeight := fst (condition_weights conditionPref) in
  let usedWeight := snd (condition_weights conditionPref) in
  function_score baseQuery
    ([ (* availability *)
       when_term "availability" (VStr (lit "in_stock")) 1.5%Q;
       when_term "availability" (VStr (lit "na_zamowienie")) 0.8%Q;
       when_term "availability" (VStr (lit "out_of_stock")) 0.3%Q;
       (* sales, revenue and the GA4 scores *)
       script_score sales_30d_boost [];
       script_score sales_365d_boost [];
       script_score revenue_boost [];
       script_score ga4_popularity_boost [];
       script_score ga4_conversion_boost [];
       script_score ga4_trending_boost [];
       (* margin *)
       script_score margin_boost [];
       (* novelty *)
       gauss (lit "created_at") (lit "now") (lit "60d") 0.5%Q;
       (* promo *)
       when_term "is_promo" (VBool true) 1.3%Q;
       (* rating *)
       script_score rating_boost [];
       (* no-image penalty *)
       when_term "has_image" (VBool false) 0.1%Q;
       (* condition: new vs used *)
       when_term "condition" (VStr (lit "new")) newWeight;
       when_term "condition" (VStr (lit "used")) usedWeight;
       (* bestseller / highlighted badges *)
       when_term "is_bestseller" (VBool true) 1.15%Q;
       when_term "is_highlighted" (VBool true) 1.1%Q ]
     ++ (* SKU specificity *)
     (if isSKUQuery then [script_score sku_specificity_boost []] else [])
     ++ (* category context *)
     (if isBodyQuery then
        [ weight_fn (terms (lit "category") BODY_PRODUCT_CATEGORIES) 8.0%Q;
          weight_fn (terms (lit "category")
                       [ lit "Obiektywy do bezlusterkowców";
                         lit "Obiektywy do lustrzanek";
                         lit "Obiektywy do filmowania";
                         lit "Używane obiektywy" ]) 3.0%Q;
          weight_fn (terms (lit "category") ACCESSORY_CATEGORIES) 0.08%Q ]
      else if wantsAccessories then
        [ weight_fn (terms (lit "category") ACCESSORY_CATEGORIES) 5.0%Q;
          weight_fn (terms (lit "category") BODY_PRODUCT_CATEGORIES) 0.1%Q ]
      else []))
    (lit "multiply") (lit "multiply").

(** [getCategoryBoost(category)] *)
Definition getCategoryBoost (category : jsstring) : Q :=
  if existsb (JsString.eqb category) CORE_CATEGORIES then 1.2%Q else 1.0%Q.

(** *** What the envelope computes on a document

    The scoring functions run inside the index, on the fields of a document.
    Their doubles are idealised as real numbers. *)

Open Scope R_scope.

(** The fields of an indexed product that the scoring functions read. A
    numeric field that a script guards with [containsKey] and [size() > 0]
    is optional; time is counted in days. *)
Record Doc : Type := {
  doc_availability : jsstring;
  doc_sales_30d : R;
  doc_sales_365d : option R;
  doc_revenue_30d : option R;
  doc_revenue_365d : option R;
  doc_ga4_popularity_score : option R;
  doc_ga4_conversion_score : option R;
  doc_ga4_trending_score : option R;
  doc_margin_pct : R;
  doc_created_at : R;
  doc_is_promo : bool;
  doc_review_count : R;
  doc_avg_rating : R;
  doc_has_image : bool;
  doc_condition : jsstring;
  doc_is_bestseller : bool;
  doc_is_highlighted : bool;
  doc_name_exact : jsstring;
  doc_category : jsstring;
  doc_category_path : option jsstring
}.

(** The keyword and boolean fields that the filters of the envelope test. *)
Definition doc_field (d : Doc) (field : jsstring) : value :=
  if JsString.eqb field (lit "availability") then VStr (doc_availability d)
  else if JsString.eqb field (lit "is_promo") then VBool (doc_is_promo d)
  else if JsString.eqb field (lit "has_image") then VBool (doc_has_image d)
  else if JsString.eqb field (lit "condition") then VStr (doc_condition d)
  else if JsString.eqb field (lit "is_bestseller")
  then VBool (doc_is_bestseller d)
  else if JsString.eqb field (lit "is_highlighted")
  then VBool (doc_is_highlighted d)
  else if JsString.eqb field (lit "category") then VStr (doc_category d)
  else VUndef.

(** Whether a document passes the filter of a scoring function; these
    filters are [term] and [terms] clauses. *)
Definition filter_matches (f : Query) (d : Doc) : bool :=
  match f with
  | term field v _ => value_eqb (doc_field d field) v
  | terms field vs =>
      existsb (fun s => value_eqb (doc_field d field) (VStr s)) vs
  | _ => false
  end.

(** [1 + x * k] when the optional field is there and positive, else [1]. *)
Definition positive_boost (x : option R) (k : R) : R :=
  match x with
  | Some v => if Rlt_dec 0 v then 1 + v * k else 1
  | None => 1
  end.

Definition get_param (ps : list (jsstring * jsstring)) (k : jsstring)
  : jsstring :=
  match IntentClassifier.map_get ps k with Some v => v | None => [] end.

(** The Painless sources of the scripts. *)
Definition eval_script (s : Script) (ps : list (jsstring * jsstring))
  (d : Doc) : R :=
  match s with
  | sales_30d_boost =>
      let s30 := doc_sales_30d d in
      if Rlt_dec 0 s30 then 1 + ln (1 + s30) * 0.25 else 1
  | sales_365d_boost =>
      match doc_sales_365d d with
      | Some s365 => if Rlt_dec 0 s365 then 1 + ln (1 + s365) * 0.1 else 1
      | None => 1
      end
  | revenue_boost =>
      let rev := match doc_revenue_30d d with Some r => r | None => 0 end in
      let rev :=
        if Rle_dec rev 0 then
          match doc_revenue_365d d with Some r => r / 12 | None => rev end
        else rev in
      if Rlt_dec 0 rev then 1 + ln (1 + rev) * 0.025 else 1
  | ga4_popularity_boost => positive_boost (doc_ga4_popularity_score d) 0.008
  | ga4_conversion_boost => positive_boost (doc_ga4_conversion_score d) 0.004
  | ga4_trending_boost => positive_boost (doc_ga4_trending_score d) 0.003
  | margin_boost => 1 + doc_margin_pct d * 0.003
  | rating_boost =>
      if Rge_dec (doc_review_count d) 3
      then 1 + (doc_avg_rating d - 3) * 0.1 else 1
  | sku_specificity_boost =>
      let len := length (doc_name_exact d) in
      if (len <? 15)%nat then 3
      else if (len <? 30)%nat then 2.5
      else if (len <? 45)%nat then 1.8
      else if (len <? 60)%nat then 1.2
      else 1
  | name_startsWith_boost =>
      if startsWith (toLowerCase (doc_name_exact d)) (get_param ps (lit "q"))
      then 5 else 1
  | category_path_boost =>
      let path :=
        match doc_category_path d with
        | Some p => toLowerCase p
        | None => []
        end in
      if includes path (lit "pozostałe") || includes path (lit "akcesoria drobne")
      then 0.5 else 1
  | popular_sort_key =>
      match doc_ga4_popularity_score d with
      | Some p => if Rlt_dec 0 p then p else doc_sales_30d d * 0.1
      | None => doc_sales_30d d * 0.1
      end
  | trending_sort_key =>
      match doc_ga4_trending_score d with
      | Some t => t
      | None => 0
      end
  end.

(** The number of days of a scale such as ["60d"]. *)
Fixpoint leading_digits (s : jsstring) : jsstring :=
  match s with
  | c :: t => if is_digit c then c :: leading_digits t else []
  | [] => []
  end.
Definition scale_days (s : jsstring) : R := IZR (parseDigits (leading_digits s)).

(** The Gaussian decay of the index: [decay] at a distance of [scale] from
    the origin, [exp (ln decay * (distance / scale)^2)]. As a real number
    it is never 0; the doubles of the index round it to 0 at a large
    distance. *)
Definition gauss_decay (scale decay distance : R) : R :=
  exp (ln decay * (distance / scale) ^ 2).

(** One scoring function on a document, at the time [now]; a function
    whose filter does not match contributes the neutral factor. *)
Definition apply_function (now : R) (f : score_function) (d : Doc) : R :=
  match f with
  | weight_fn flt w => if filter_matches flt d then Q2R w else 1
  | script_score s ps => eval_script s ps d
  | gauss _ _ scale decay =>
      gauss_decay (scale_days scale) (Q2R decay) (Rabs (now - doc_created_at d))
  end.

(** [score_mode: 'multiply'] *)
Definition functions_value (now : R) (fs : list score_function) (d : Doc) : R :=
  fold_right (fun f acc => apply_function now f d * acc) 1 fs.

(** [boost_mode: 'multiply']: the text relevance [base] of the wrapped
    query times the value of the functions. This is the score of a
    document when the index accepts the values of the functions, see
    [index_score] below. *)
Definition ranking_score (now : R) (envelope : Query) (d : Doc) (base : R) : R :=
  match envelope with
  | function_score _ fs _ _ => base * functions_value now fs d
  | _ => base
  end.


(** *** What the index refuses

    The index (Elasticsearch from version 7 on, whose answers carry
    [hits.total.value] as the services read it) does not accept a negative
    score: when a scoring function returns a negative value for a document
    that the query matches, the search request fails and no document is
    scored. The text relevance that the index computes for the wrapped
    query is never negative. *)

(** A value that the index accepts from a scoring function. *)
Definition accepts_value (v : R) : bool := if Rle_dec 0 v then true else false.

(** No function of the list is negative on the document. *)
Definition accepts (now : R) (fs : list score_function) (d : Doc) : bool :=
  forallb (fun f => accepts_value (apply_function now f d)) fs.

(** The score of a document under an envelope, or [None] when the index
    refuses a value of one of its functions. *)
Definition index_score (now : R) (envelope : Query) (d : Doc) (base : R)
  : option R :=
  match envelope with
  | function_score _ fs _ _ =>
      if accepts now fs d then Some (ranking_score now envelope d base)
      else None
  | _ => Some base
  end.

Close Scope R_scope.

End Ranking.

(* ================================================================== *)
(** ** routes/search.js: the schema of the query string *)
(* ================================================================== *)

Module SearchRoute.

(** The query string of [GET /search] as the schema describes it; [None] is
    a parameter that is not given. *)
Record Querystring : Type := {
  qs_q : option jsstring;
  qs_page : option Z;
  qs_per_page : option Z;
  qs_sort : option jsstring;
  qs_brand : option jsstring;
  qs_category : option jsstring;
  qs_availability : option jsstring;
  qs_price_min : option Q;
  qs_price_max : option Q;
  qs_mount : option jsstring
}.

(** [sort: { type: 'string', enum: [...], default: 'relevance' }] *)
Definition SORT_ENUM : list jsstring :=
  [ lit "relevance"; lit "price_asc"; lit "price_desc"; lit "newest";
    lit "popular" ].

Definition in_enum (enum : list jsstring) (s : jsstring) : bool :=
  existsb (JsString.eqb s) enum.

Definition opt_ok {A : Type} (p : A -> bool) (o : option A) : bool :=
  match o with Some a => p a | None => true end.

(** The length that [minLength] and [maxLength] count: code points, a
    surrogate pair being one. *)
Fixpoint ucs2length (s : jsstring) : nat :=
  match s with
  | [] => 0
  | hi :: rest =>
      match rest with
      | lo :: rest' =>
          if in_range 55296 56319 hi && in_range 56320 57343 lo
          then S (ucs2length rest') else S (ucs2length rest)
      | [] => 1
      end
  end.

(** Whether the schema accepts a query string; a request that it refuses
    is answered with an error and never reaches the handler. *)
Definition schema_accepts (qs : Querystring) : bool :=
  match qs_q qs with
  | Some q => (1 <=? ucs2length q) && (ucs2length q <=? 200)
  | None => false
  end
  && opt_ok (fun p => (1 <=? p)%Z) (qs_page qs)
  && opt_ok (fun p => (1 <=? p)%Z && (p <=? 100)%Z) (qs_per_page qs)
  && opt_ok (in_enum SORT_ENUM) (qs_sort qs)
  && opt_ok (Qle_bool 0) (qs_price_min qs)
  && opt_ok (Qle_bool 0) (qs_price_max qs).

(** The [sort] that the handler passes to [buildSearchQuery], after the
    default of the schema. *)
Definition sort_of (qs : Querystring) : jsstring :=
  match qs_sort qs with Some s => s | None => lit "relevance" end.

(** The sort clause that a query string leads to, when the schema accepts
    it: [None] is a refused request, [Some None] a body without [sort]. *)
Definition sort_clause_of (qs : Querystring)
  : option (option (list sort_clause)) :=
  if schema_accepts qs then
    Some (if negb (JsString.eqb (sort_of qs) (lit "relevance"))
          then Some (QueryBuilder.buildSortClause (sort_of qs)) else None)
  else None.

End SearchRoute.

(* ================================================================== *)
(** ** zero-results.js *)
(* ================================================================== *)

Module ZeroResults.

Import QueryBuilder.

Inductive FallbackType : Type :=
| spell_correction | query_relaxation | category_fallback | bestsellers
| error.

Record SuggestOption : Type := { text : jsstring; score : Q }.
Record SuggestEntry : Type := { options : list SuggestOption }.

Section Cascade.

(** The hits and aggregations of the index are passed through as they
    are. *)
Variables Hit Aggs : Type.

(** The response of [es.search]: [result.suggest?.spell_check],
    [result.hits.total.value], [result.hits.hits] and
    [result.aggregations]. *)
Record Response : Type := {
  suggest_spell_check : option (list SuggestEntry);
  hits_total_value : Z;
  hits_hits : list Hit;
  aggregations : option Aggs
}.

Record RecoveryOutcome : Type := {
  products : list Hit;
  total : Z;
  out_aggregations : option Aggs;
  didYouMean : option jsstring;
  fallbackType : FallbackType;
  relaxedQuery : option jsstring;
  fallbackCategory : option jsstring
}.

(** The index client: a call answers with a response or fails, and may
    change the state of the index. *)
Variable S : Type.
Variable search : S -> body -> result Response * S.

(** The state that the cascade runs in: the index, and the calls made so
    far with their answers, oldest first. The log is not in the source; it
    is kept to state in which order the calls are made. *)
Definition call : Type := body * result Response.
Record World : Type := { index : S; log : list call }.

(** Computations that call the index and may throw. *)
Definition M (A : Type) : Type := World -> result A * World.

Definition ret {A : Type} (a : A) : M A := fun w => (Ok a, w).

Definition bind {A B : Type} (m : M A) (k : A -> M B) : M B :=
  fun w =>
    match m w with
    | (Ok a, w') => k a w'
    | (Throw e, w') => (Throw e, w')
    end.

Definition lift {A : Type} (r : result A) : M A := fun w => (r, w).

(** [try { m } catch { handler }] *)
Definition try_catch {A : Type} (m : M A) (handler : M A) : M A :=
  fun w =>
    match m w with
    | (Ok a, w') => (Ok a, w')
    | (Throw _, w') => handler w'
    end.

(** [await es.search({ index: INDEX_NAME, body })] *)
Definition es_search (b : body) : M Response :=
  fun w =>
    let (r, s') := search (index w) b in
    (r, {| index := s'; log := log w ++ [(b, r)] |}).

Notation "x <- m ;; k" := (bind m (fun x => k))
  (at level 61, m at next level, right associativity).

Definition Qlt_bool (a b : Q) : bool := negb (Qle_bool b a).

(** [trySpellCorrection(es, query)] *)
Definition trySpellCorrection (query : jsstring) : M (option (jsstring * Q)) :=
  try_catch
    (let body := buildSpellCheckQuery query in
     result <- es_search body ;;
     match suggest_spell_check result with
     | Some (entry :: _) =>
         match options entry with
         | best :: _ =>
             if Qlt_bool 0.5 (score best)
                && negb (JsString.eqb (text best) query)
             then ret (Some (text best, score best))
             else ret None
         | [] => ret None
         end
     | _ => ret None
     end)
    (* Spell check failure is non-critical *)
    (ret None).

(** [{ type: 'GENERAL', query: q }] *)
Definition general_intent (q : jsstring) : Intent :=
  {| type := GENERAL; query := Some q; modelQuery := None; brand := None;
     isBodyQuery := None; conditionPref := None; wantsAccessories := None;
     accessoryCategory := None; category := None; maxPrice := None;
     params := None; detectedCategory := None; compatMounts := None;
     compatibilityMode := None; textQuery := None |}.

(** The GENERAL pipeline on a text: [buildSearchQuery] with a GENERAL
    intent, its query wrapped by [wrapWithFunctionScore]. *)
Definition general_request (q : jsstring) (o : Options) : result body :=
  match buildSearchQuery q (general_intent q) o with
  | Throw e => Throw e
  | Ok b =>
      Ok {| from := from b; size := size b;
            body_query :=
              option_map (fun bq => Ranking.wrapWithFunctionScore bq None)
                         (body_query b);
            aggs := aggs b; _source := _source b; sort := sort b;
            body_suggest := body_suggest b |}
  end.

(** The relaxation loop, over the values of [drop] still to try. *)
Fixpoint relaxation_loop (words : list jsstring) (o : Options)
  (drops : list nat) : M (option RecoveryOutcome) :=
  match drops with
  | [] => ret None
  | drop :: rest =>
      let relaxed := join (lit " ") (firstn (length words - drop) words) in
      if negb (truthy relaxed) then relaxation_loop words o rest
      else
        body <- lift (general_request relaxed o) ;;
        found <-
          try_catch
            (result <- es_search body ;;
             if (0 <? hits_total_value result)%Z then
               ret (Some {| products := hits_hits result;
                            total := hits_total_value result;
                            out_aggregations := aggregations result;
                            didYouMean := None;
                            fallbackType := query_relaxation;
                            relaxedQuery := Some relaxed;
                            fallbackCategory := None |})
             else ret None)
            (ret None) ;;
        match found with
        | Some outcome => ret (Some outcome)
        | None => relaxation_loop words o rest
        end
  end.

(** [tryQueryRelaxation(es, query, options)] *)
Definition tryQueryRelaxation (query : jsstring) (o : Options)
  : M (option RecoveryOutcome) :=
  let words := split ParamExtractor.SPACES query in
  if length words <=? 1 then ret None
  else relaxation_loop words o (seq 1 (length words - 1)).

Definition FALLBACK_SOURCE : list jsstring :=
  [ lit "id"; lit "name"; lit "brand"; lit "category"; lit "price";
    lit "sale_price"; lit "is_promo"; lit "currency"; lit "availability";
    lit "image_url"; lit "product_url"; lit "has_image"; lit "avg_rating";
    lit "review_count" ].

Definition in_stock : Query :=
  term (lit "availability") (VStr (lit "in_stock")) None.

Definition category_body (category : jsstring) : body :=
  {| from := None; size := Some 10%Z;
     body_query :=
       Some (bool_ [term (lit "category") (VStr category) None] []
                   [in_stock] None);
     aggs := []; _source := FALLBACK_SOURCE;
     sort := Some [by_field (lit "sales_30d") (lit "desc")];
     body_suggest := None |}.

Definition bestsellers_body : body :=
  {| from := None; size := Some 10%Z;
     body_query := Some (bool_ [] [] [in_stock] None);
     aggs := []; _source := FALLBACK_SOURCE;
     sort := Some [by_field (lit "sales_30d") (lit "desc")];
     body_suggest := None |}.

(** [tryCategoryFallback(es, category)] *)
Definition tryCategoryFallback (category : jsstring)
  : M (option RecoveryOutcome) :=
  try_catch
    (result <- es_search (category_body category) ;;
     if (0 <? hits_total_value result)%Z then
       ret (Some {| products := hits_hits result;
                    total := hits_total_value result;
                    out_aggregations := None;
                    didYouMean := None;
                    fallbackType := category_fallback;
                    relaxedQuery := None;
                    fallbackCategory := Some category |})
     else ret None)
    (* Category fallback failure *)
    (ret None).

(** [getBestsellers(es)] *)
Definition getBestsellers : M RecoveryOutcome :=
  try_catch
    (result <- es_search bestsellers_body ;;
     ret {| products := hits_hits result;
            total := hits_total_value result;
            out_aggregations := None;
            didYouMean := None;
            fallbackType := bestsellers;
            relaxedQuery := None;
            fallbackCategory := None |})
    (ret {| products := [];
            total := 0%Z;
            out_aggregations := None;
            didYouMean := None;
            fallbackType := error;
            relaxedQuery := None;
            fallbackCategory := None |}).

(** Steps 2 to 4 of [recoverZeroResults]. *)
Definition after_spell_correction (originalQuery : jsstring) (intent : Intent)
  (o : Options) : M RecoveryOutcome :=
  (* Step 2: query relaxation *)
  relaxedResult <- tryQueryRelaxation originalQuery o ;;
  match relaxedResult with
  | Some outcome => ret outcome
  | None =>
      (* Step 3: category fallback *)
      match type intent, truthy_opt (category intent) with
      | CATEGORY, Some cat =>
          catResult <- tryCategoryFallback cat ;;
          match catResult with
          | Some outcome => ret outcome
          | None => getBestsellers
          end
      | _, _ =>
          (* Step 4: bestsellers *)
          getBestsellers
      end
  end.

(** [recoverZeroResults(es, originalQuery, intent, options = {})] *)
Definition recoverZeroResults (originalQuery : jsstring) (intent : Intent)
  (o : Options) : M RecoveryOutcome :=
  (* Step 1: spell correction via the phrase suggester *)
  spellResult <- trySpellCorrection originalQuery ;;
  match spellResult with
  | Some (correctedQuery, _) =>
      body <- lift (general_request correctedQuery o) ;;
      result <- es_search body ;;
      if (0 <? hits_total_value result)%Z then
        ret {| products := hits_hits result;
               total := hits_total_value result;
               out_aggregations := aggregations result;
               didYouMean := Some correctedQuery;
               fallbackType := spell_correction;
               relaxedQuery := None;
               fallbackCategory := None |}
      else after_spell_correction originalQuery intent o
  | None => after_spell_correction originalQuery intent o
  end.

End Cascade.

End ZeroResults.

(* ================================================================== *)
(** ** routes/search.js: the handler up to the index call *)
(* ================================================================== *)

Module SearchHandler.

Import SearchRoute QueryBuilder.

(** The [filters] object that the handler fills from the query string: a
    string parameter when it is truthy, a price bound when it is given. *)
Definition request_filters (qs : Querystring) : Filters :=
  {| f_brand := truthy_opt (qs_brand qs);
     f_category := truthy_opt (qs_category qs);
     f_availability := truthy_opt (qs_availability qs);
     f_mount := truthy_opt (qs_mount qs);
     price_min := qs_price_min qs;
     price_max := qs_price_max qs |}.

(** [if (intent.type === 'PRICE' && intent.maxPrice)
      filters.price_max = intent.maxPrice] *)
Definition with_intent_price (f : Filters) (i : Intent) : Filters :=
  match type i, maxPrice i with
  | PRICE, Some (Some n) =>
      if (n =? 0)%Z then f
      else {| f_brand := f_brand f; f_category := f_category f;
              f_availability := f_availability f; f_mount := f_mount f;
              price_min := price_min f; price_max := Some (inject_Z n) |}
  | _, _ => f
  end.

(** [page] and [per_page] after the defaults of the schema. *)
Definition page_of (qs : Querystring) : Z :=
  match qs_page qs with Some p => p | None => 1%Z end.
Definition per_page_of (qs : Querystring) : Z :=
  match qs_per_page qs with Some p => p | None => 20%Z end.

(** The text [q] of the request; the schema requires it. *)
Definition q_of (qs : Querystring) : jsstring :=
  match qs_q qs with Some q => q | None => [] end.

(** The body that the handler sends to the index on a cache miss:
    [buildSearchQuery] on the classified text, its query wrapped by
    [wrapWithFunctionScore] with the intent. *)
Definition search_request (qs : Querystring) : result body :=
  let q := q_of qs in
  let i := IntentClassifier.classifyIntent q in
  let filters := with_intent_price (request_filters qs) i in
  match buildSearchQuery q i
          {| filters := Some filters; page := Some (page_of qs);
             perPage := Some (per_page_of qs); o_sort := Some (sort_of qs) |}
  with
  | Throw e => Throw e
  | Ok b =>
      Ok {| from := from b; size := size b;
            body_query :=
              option_map (fun bq => Ranking.wrapWithFunctionScore bq (Some i))
                         (body_query b);
            aggs := aggs b; _source := _source b; sort := sort b;
            body_suggest := body_suggest b |}
  end.

End SearchHandler.

(* ================================================================== *)
(** ** utils/normalizers.js and services/cache.js: the cache keys *)
(* ================================================================== *)

Module Normalizers.

(** [normalizeCacheKey(q)]:
    [(q || '').toLowerCase().trim().replace(/\s+/g, ' ')] *)
Definition normalizeCacheKey (q : jsstring) : jsstring :=
  replaceAll ParamExtractor.SPACES (lit " ")
    (trim (toLowerCase (or_else q []))).

End Normalizers.

Module Cache.

Definition AUTOCOMPLETE_PREFIX : jsstring := lit "ac:".
Definition SEARCH_PREFIX : jsstring := lit "sr:".

(** [getTTL(query, type = 'autocomplete')], in seconds *)
Definition getTTL (query : jsstring) (type : jsstring) : Z :=
  let len := length (or_else query []) in
  if JsString.eqb type (lit "autocomplete") then
    if len <=? 2 then 300%Z
    else if len <=? 4 then 120%Z
    else 60%Z
  else 60%Z.

(** The key of [getCachedAutocomplete] and [setCachedAutocomplete] *)
Definition autocomplete_key (query : jsstring) : jsstring :=
  AUTOCOMPLETE_PREFIX ++ Normalizers.normalizeCacheKey query.

(** The key of [getCachedSearch] and [setCachedSearch], given the eight
    hexadecimal digits that [hashFilters] computes from the filters, the
    sort order and the page. *)
Definition search_key (query filterHash : jsstring) : jsstring :=
  SEARCH_PREFIX ++ Normalizers.normalizeCacheKey query ++ lit ":" ++ filterHash.

End Cache.

(* ================================================================== *)
(** ** merchandising.js *)
(* ================================================================== *)

Module Merchandising.

(** The rules of a file: the entries of the object, in the order of
    [Object.entries]; each key maps to an array of product ids. Product
    ids are strings. *)
Definition Rules : Type := list (jsstring * list jsstring).

(** The loop of [getPinnedProducts] and [getBlacklistedProducts]: the ids
    of the first rule whose key is the query or is followed by a space in
    it, and [[]] without such a rule. *)
Fixpoint first_rule (rules : Rules) (q : jsstring) : list jsstring :=
  match rules with
  | [] => []
  | (key, productIds) :: rest =>
      if JsString.eqb q key || startsWith q (key ++ lit " ") then productIds
      else first_rule rest q
  end.

Definition lookup_rules (rules : Rules) (query : jsstring) : list jsstring :=
  first_rule rules (trim (toLowerCase (or_else query []))).

Section Products.

(** The properties of a product besides [id] and [is_pinned]. *)
Variable A : Type.

(** A product of a response; an [id] of [None] is [undefined]. *)
Record Product : Type := {
  id : option jsstring;
  is_pinned : bool;
  details : A
}.

(** The two rule tables, as the module holds them when it is called. *)
Variables pinnedRules blacklistedRules : Rules.

(** [getPinnedProducts(query)] *)
Definition getPinnedProducts (query : jsstring) : list jsstring :=
  lookup_rules pinnedRules query.

(** [getBlacklistedProducts(query)] *)
Definition getBlacklistedProducts (query : jsstring) : list jsstring :=
  lookup_rules blacklistedRules query.

(** [p.id === pid] *)
Definition has_id (pid : jsstring) (p : Product) : bool :=
  match id p with
  | Some i => JsString.eqb i pid
  | None => false
  end.

(** [blacklisted.has(p.id)] *)
Definition is_blacklisted (blacklisted : list jsstring) (p : Product) : bool :=
  existsb (fun b => has_id b p) blacklisted.

(** [{ ...product, is_pinned: true }] *)
Definition pin (p : Product) : Product :=
  {| id := id p; is_pinned := true; details := details p |}.

(** [filtered.findIndex(p => p.id === pid)] followed by
    [filtered.splice(idx, 1)]: the first product with the id, and the list
    without it. *)
Fixpoint take_first (pid : jsstring) (l : list Product)
  : option (Product * list Product) :=
  match l with
  | [] => None
  | p :: t =>
      if has_id pid p then Some (p, t)
      else match take_first pid t with
           | Some (x, t') => Some (x, p :: t')
           | None => None
           end
  end.

(** The loop over the pinned ids, with the products pinned so far and the
    products still in the list. *)
Fixpoint pin_loop (allProductsById : jsstring -> option Product)
  (pinnedIds : list jsstring) (pinnedProducts filtered : list Product)
  : list Product * list Product :=
  match pinnedIds with
  | [] => (pinnedProducts, filtered)
  | pid :: rest =>
      match allProductsById pid with
      | Some p =>
          pin_loop allProductsById rest (pinnedProducts ++ [pin p]) filtered
      | None =>
          (* Product already in results: move to top and flag *)
          match take_first pid filtered with
          | Some (product, filtered') =>
              pin_loop allProductsById rest
                       (pinnedProducts ++ [pin product]) filtered'
          | None => pin_loop allProductsById rest pinnedProducts filtered
          end
      end
  end.

(** [applyMerchandising(products, query, allProductsById = {})]; the
    object [allProductsById] is given by its lookup, [None] for a property
    that is not there or is falsy. The set [existingIds] of the source is
    written and never read. *)
Definition applyMerchandising (products : list Product) (query : jsstring)
  (allProductsById : jsstring -> option Product) : list Product :=
  let blacklisted := getBlacklistedProducts query in
  let pinnedIds := getPinnedProducts query in
  (* Remove blacklisted *)
  let filtered :=
    filter (fun p => negb (is_blacklisted blacklisted p)) products in
  (* Add pinned products at the top *)
  match pinnedIds with
  | [] => filtered
  | _ :: _ =>
      let '(pinnedProducts, filtered') :=
        pin_loop allProductsById pinnedIds [] filtered in
      pinnedProducts ++ filtered'
  end.

(** A product without its [is_pinned] flag. *)
Definition unflagged (p : Product) : option jsstring * A := (id p, details p).

End Products.

End Merchandising.

(* ================================================================== *)
(** ** Definitions used to state the properties *)
(* ================================================================== *)

(** *** What a regular expression matches

    The matches of a regex between two positions of a string, without the
    priorities of the matcher: a position is the pair of the code units
    before it (nearest first) and after it. *)
Module RegexSpec.

Definition position : Type := (list N * list N)%type.

Definition at_position (p : position) (caps : list (nat * jsstring)) : cursor :=
  Cursor (fst p) (snd p) caps.

Inductive Matches : regex -> position -> position -> Prop :=
| M_Empty : forall p, Matches Empty p p
| M_Char : forall (f : N -> bool) x bef aft,
    f x = true -> Matches (Char f) (bef, x :: aft) (x :: bef, aft)
| M_Seq : forall r1 r2 p1 p2 p3,
    Matches r1 p1 p2 -> Matches r2 p2 p3 -> Matches (Seq r1 r2) p1 p3
| M_AltL : forall r1 r2 p1 p2, Matches r1 p1 p2 -> Matches (Alt r1 r2) p1 p2
| M_AltR : forall r1 r2 p1 p2, Matches r2 p1 p2 -> Matches (Alt r1 r2) p1 p2
| M_StarNil : forall r p, Matches (Star r) p p
| M_StarCons : forall r p1 p2 p3,
    Matches r p1 p2 -> length (snd p2) < length (snd p1) ->
    Matches (Star r) p2 p3 -> Matches (Star r) p1 p3
| M_Group : forall n r p1 p2, Matches r p1 p2 -> Matches (Group n r) p1 p2
| M_Bol : forall aft, Matches Bol ([], aft) ([], aft)
| M_Eol : forall bef, Matches Eol (bef, []) (bef, [])
| M_WordB : forall p,
    at_word_boundary (at_position p []) = true -> Matches WordB p p.

(** The continuation succeeds at a position, whatever was captured. *)
Definition succeeds_at (k : K) (p : position) : Prop :=
  forall caps, k (at_position p caps) <> None.

End RegexSpec.

(** *** The manufacturer-code shape *)
Module SkuShape.

Definition is_separator (c : N) : bool := (c =? 45)%N || (c =? 95)%N.
Definition is_alnum (c : N) : bool := is_letter_ascii c || is_digit c.

(** Two to four letters, a separator [-] or [_], and an alphanumeric
    suffix with at least one digit. *)
Definition sku_shape (letters : jsstring) (sep : N) (suffix : jsstring)
  : bool :=
  (2 <=? length letters) && (length letters <=? 4)
  && forallb is_letter_ascii letters
  && is_separator sep
  && forallb is_alnum suffix && existsb is_digit suffix.

(** What the classes of ASCII letters, digits and white space have to do
    with each other, for one code unit. *)
Definition ascii_class_check (x : N) : bool :=
  implb (is_letter_ascii x)
        (is_upper_ascii (canonicalize x) && negb (is_digit x)
         && negb (is_space x))
  && implb (is_digit x) (negb (is_space x))
  && implb (is_alnum x) (is_letter_ascii x || is_digit x).

End SkuShape.

(** *** Reading the functions off an envelope *)
Module RankingSpec.

Import Ranking.

Definition functions_of (envelope : Query) : list score_function :=
  match envelope with
  | function_score _ fs _ _ => fs
  | _ => []
  end.

(** The functions of an envelope that weigh the [condition] of a
    document. *)
Definition condition_functions (fs : list score_function)
  : list score_function :=
  filter (fun f => match f with
                   | weight_fn (term field _ _) _ =>
                       JsString.eqb field (lit "condition")
                   | _ => false
                   end) fs.

(** A weight for new products followed by a weight for used ones. *)
Definition condition_pair (newWeight usedWeight : Q) : list score_function :=
  [ weight_fn (term (lit "condition") (VStr (lit "new")) None) newWeight;
    weight_fn (term (lit "condition") (VStr (lit "used")) None) usedWeight ].

(** A document with another [sales_30d] and all other fields kept. *)
Definition with_sales_30d (d : Doc) (s : R) : Doc :=
  {| doc_availability := doc_availability d;
     doc_sales_30d := s;
     doc_sales_365d := doc_sales_365d d;
     doc_revenue_30d := doc_revenue_30d d;
     doc_revenue_365d := doc_revenue_365d d;
     doc_ga4_popularity_score := doc_ga4_popularity_score d;
     doc_ga4_conversion_score := doc_ga4_conversion_score d;
     doc_ga4_trending_score := doc_ga4_trending_score d;
     doc_margin_pct := doc_margin_pct d;
     doc_created_at := doc_created_at d;
     doc_is_promo := doc_is_promo d;
     doc_review_count := doc_review_count d;
     doc_avg_rating := doc_avg_rating d;
     doc_has_image := doc_has_image d;
     doc_condition := doc_condition d;
     doc_is_bestseller := doc_is_bestseller d;
     doc_is_highlighted := doc_is_highlighted d;
     doc_name_exact := doc_name_exact d;
     doc_category := doc_category d;
     doc_category_path := doc_category_path d |}.

(** A new, in-stock product without sales, created now, sold at the given
    margin. *)
Definition sample_doc (margin : R) : Doc :=
  {| doc_availability := lit "in_stock";
     doc_sales_30d := 0%R;
     doc_sales_365d := None;
     doc_revenue_30d := None;
     doc_revenue_365d := None;
     doc_ga4_popularity_score := None;
     doc_ga4_conversion_score := None;
     doc_ga4_trending_score := None;
     doc_margin_pct := margin;
     doc_created_at := 0%R;
     doc_is_promo := false;
     doc_review_count := 0%R;
     doc_avg_rating := 0%R;
     doc_has_image := true;
     doc_condition := lit "new";
     doc_is_bestseller := false;
     doc_is_highlighted := false;
     doc_name_exact := lit "Canon EOS R6";
     doc_category := lit "Aparaty cyfrowe";
     doc_category_path := None |}.

(** A scoring function is not negative on the first document and not
    lower on the second. *)
Definition between (now : R) (d1 d2 : Doc) (f : score_function) : Prop :=
  (0 <= apply_function now f d1 <= apply_function now f d2)%R.

End RankingSpec.

(** *** The order of the recovery cascade *)
Module CascadeSpec.

Import QueryBuilder ZeroResults.

Section Plan.

Variables Hit Aggs : Type.

(** The suggestion that [trySpellCorrection] accepts from the answer to the
    spell check: the first option of the first entry, when its score
    exceeds 0.5 and its text differs from the query. *)
Definition accepted_suggestion (query : jsstring)
  (r : result (Response Hit Aggs))
  : option jsstring :=
  match r with
  | Ok resp =>
      match suggest_spell_check resp with
      | Some (entry :: _) =>
          match options entry with
          | best :: _ =>
              if Qlt_bool 0.5 (score best)
                 && negb (JsString.eqb (text best) query)
              then Some (text best) else None
          | [] => None
          end
      | _ => None
      end
  | Throw _ => None
  end.

(** The texts of the relaxation state: the query without its last word,
    without its last two words, and so on down to its first word, the empty
    ones left out. *)
Definition relaxations (query : jsstring) : list jsstring :=
  let words := split ParamExtractor.SPACES query in
  filter truthy
    (map (fun drop => join (lit " ") (firstn (length words - drop) words))
         (seq 1 (length words - 1))).

(** The body that the GENERAL pipeline sends for a text (the pipeline does
    not throw on a GENERAL intent, so the second case is never taken). *)
Definition general_body (q : jsstring) (o : Options) : body :=
  match general_request q o with
  | Ok b => b
  | Throw _ => bestsellers_body
  end.

(** The states that a cascade can go through, in order, each with the
    request that it sends. *)
Definition plan (query : jsstring) (intent : Intent) (o : Options)
  (suggestion : option jsstring) : list (FallbackType * body) :=
  match suggestion with
  | Some corrected => [(spell_correction, general_body corrected o)]
  | None => []
  end
  ++ map (fun relaxed => (query_relaxation, general_body relaxed o))
         (relaxations query)
  ++ match type intent, truthy_opt (category intent) with
     | CATEGORY, Some cat => [(category_fallback, category_body cat)]
     | _, _ => []
     end
  ++ [(bestsellers, bestsellers_body)].

Definition has_hits (r : result (Response Hit Aggs)) : bool :=
  match r with
  | Ok resp => (0 <? hits_total_value resp)%Z
  | Throw _ => false
  end.

(** [Cascade p calls fin]: the calls are those of the states of [p], in
    order and without gaps, each state before the last one answering
    without a hit, and [fin] is how the last call ends the cascade. *)
Inductive Cascade
  : list (FallbackType * body) -> list (body * result (Response Hit Aggs))
    -> result FallbackType -> Prop :=
| cascade_hit : forall stage b resp rest,
    stage <> bestsellers -> has_hits (Ok resp) = true ->
    Cascade ((stage, b) :: rest) [(b, Ok resp)] (Ok stage)
| cascade_next : forall stage b r rest calls fin,
    stage <> bestsellers -> has_hits r = false ->
    (stage = spell_correction -> exists resp, r = Ok resp) ->
    Cascade rest calls fin ->
    Cascade ((stage, b) :: rest) ((b, r) :: calls) fin
| cascade_spell_failure : forall b e rest,
    Cascade ((spell_correction, b) :: rest) [(b, Throw e)] (Throw e)
| cascade_bestsellers : forall b resp rest,
    Cascade ((bestsellers, b) :: rest) [(b, Ok resp)] (Ok bestsellers)
| cascade_error : forall b e rest,
    Cascade ((bestsellers, b) :: rest) [(b, Throw e)] (Ok error).

Definition final_of (r : result (RecoveryOutcome Hit Aggs))
  : result FallbackType :=
  match r with
  | Ok outcome => Ok (fallbackType outcome)
  | Throw e => Throw e
  end.

(** A caught state: one call; a hit ends the cascade in this state, and
    anything else hands over to the states after it. *)
Definition hands_over (stage : FallbackType) (b : body)
  (res : result (option (RecoveryOutcome Hit Aggs)))
  (calls : list (body * result (Response Hit Aggs))) : Prop :=
  match res with
  | Ok (Some outcome) =>
      fallbackType outcome = stage
      /\ forall rest, Cascade ((stage, b) :: rest) calls (Ok stage)
  | Ok None =>
      forall rest calls' fin,
        Cascade rest calls' fin ->
        Cascade ((stage, b) :: rest) (calls ++ calls') fin
  | Throw _ => False
  end.

(** The texts that the relaxation loop searches for, given the values of
    [drop] that it still has to try. *)
Definition relaxed_texts (words : list jsstring) (drops : list nat)
  : list jsstring :=
  filter truthy
    (map (fun drop => join (lit " ") (firstn (length words - drop) words))
         drops).

Definition relaxation_entries (o : Options) (texts : list jsstring)
  : list (FallbackType * body) :=
  map (fun relaxed => (query_relaxation, general_body relaxed o)) texts.

End Plan.

(** An index that answers the first call with the suggestion [canon]
    (score 0.9) and fails on every later call; its state counts the
    calls. *)
Definition suggest_then_fail (n : nat) (b : body)
  : result (Response nat unit) * nat :=
  match n with
  | O =>
      (Ok {| suggest_spell_check :=
               Some [ {| options := [ {| text := lit "canon";
                                         score := 0.9%Q |} ] |} ];
             hits_total_value := 0%Z; hits_hits := [];
             aggregations := None |},
       1)
  | S _ => (Throw IndexError, S n)
  end.

(** An index without a suggestion and without a hit for any search but
    the bestsellers, of which it has two. *)
Definition only_bestsellers (n : nat) (b : body)
  : result (Response nat unit) * nat :=
  match from b, body_suggest b, body_query b with
  | None, None, Some (bool_ [] [] _ _) =>
      (Ok {| suggest_spell_check := None; hits_total_value := 2%Z;
             hits_hits := [7; 9]; aggregations := None |}, S n)
  | _, _, _ =>
      (Ok {| suggest_spell_check := None; hits_total_value := 0%Z;
             hits_hits := []; aggregations := None |}, S n)
  end.

Definition no_options : Options :=
  {| filters := None; page := None; perPage := None; o_sort := None |}.

End CascadeSpec.


(** *** The start of a manufacturer code *)
Module CodePrefix.

(** Two to four letters, a separator [-] or [_], letters, and a digit. *)
Definition code_prefix (letters : jsstring) (sep : N) (pre : jsstring) (d : N)
  : bool :=
  (2 <=? length letters) && (length letters <=? 4)
  && forallb is_letter_ascii letters
  && SkuShape.is_separator sep
  && forallb is_letter_ascii pre && is_digit d.

(** A letter under the [i] flag is an ASCII letter. *)
Definition letter_i_check (x : N) : bool :=
  implb (is_upper_ascii (canonicalize x)) (is_letter_ascii x).

End CodePrefix.

(** *** White space in a text *)
Module Spacing.

(** Every run of white space replaced by one space; [in_space] says that
    the code unit before was white space. *)
Fixpoint collapse_from (in_space : bool) (s : jsstring) : jsstring :=
  match s with
  | [] => []
  | c :: t =>
      if is_space c
      then if in_space then collapse_from true t
           else 32%N :: collapse_from true t
      else c :: collapse_from false t
  end.

Definition collapse (s : jsstring) : jsstring := collapse_from false s.

(** Every white-space code unit is a space that follows a code unit that
    is not white space; the text neither starts (when [prev_space]) nor
    ends with one. *)
Fixpoint spaced (prev_space : bool) (s : jsstring) : bool :=
  match s with
  | [] => negb prev_space
  | c :: t =>
      if is_space c then (c =? 32)%N && negb prev_space && spaced true t
      else spaced false t
  end.

(** Words separated by single spaces, or the empty text. *)
Definition single_spaced (s : jsstring) : bool :=
  match s with
  | [] => true
  | _ => spaced true s
  end.

(** The same without the condition on the end of the text. *)
Fixpoint loose (prev_space : bool) (s : jsstring) : bool :=
  match s with
  | [] => true
  | c :: t =>
      if is_space c then (c =? 32)%N && negb prev_space && loose true t
      else loose false t
  end.

(** The last code unit is not white space. *)
Fixpoint ends_word (s : jsstring) : bool :=
  match s with
  | [] => false
  | c :: t => match t with [] => negb (is_space c) | _ => ends_word t end
  end.

(** The text does not start with white space. *)
Definition no_lead_space (s : jsstring) : bool :=
  match s with [] => true | y :: _ => negb (is_space y) end.

(** Lower-casing leaves the code unit as it is. *)
Definition lower_fixed (c : N) : bool :=
  negb (c =? 304)%N && (lower_unit c =? c)%N.

(** The lower-case form of a code unit consists of such code units. *)
Definition lower_check (c : N) : bool :=
  forallb lower_fixed (toLowerCase [c]).

End Spacing.

(** *** The range of the case tables *)
Module CaseRange.

(** The code units on which the case tables of [JsString] are those of the
    language: U+0000 to U+017F, without U+0130, whose lower-case form has
    a code unit outside that range. *)
Definition latin_unit (c : N) : bool := (c <=? 383)%N && negb (c =? 304)%N.

(** A text of such code units. *)
Definition latin (s : jsstring) : bool := forallb latin_unit s.

(** Lower-casing such a code unit gives such code units. *)
Definition latin_lower_check (c : N) : bool :=
  implb (latin_unit c) (latin (toLowerCase [c])).

End CaseRange.

(** *** What the recovery cascade returns *)
Module RecoverySpec.

Import QueryBuilder ZeroResults CascadeSpec.

Section Outcome.

Variables Hit Aggs : Type.

(** The outcome of a state that ends the cascade with the answer [resp]. *)
Definition outcome_of (stage : FallbackType) (resp : Response Hit Aggs)
  (with_aggs : bool) (dym relaxed cat : option jsstring)
  : RecoveryOutcome Hit Aggs :=
  {| products := hits_hits resp;
     total := hits_total_value resp;
     out_aggregations := if with_aggs then aggregations resp else None;
     didYouMean := dym;
     fallbackType := stage;
     relaxedQuery := relaxed;
     fallbackCategory := cat |}.

(** The outcome when even the bestsellers cannot be read. *)
Definition error_outcome : RecoveryOutcome Hit Aggs :=
  {| products := []; total := 0%Z; out_aggregations := None;
     didYouMean := None; fallbackType := error; relaxedQuery := None;
     fallbackCategory := None |}.

(** How an outcome is built from the last call of the cascade, given the
    suggestion accepted from the spell check. *)
Definition built_from (query : jsstring) (intent : Intent) (o : Options)
  (suggestion : option jsstring) (last : body * result (Response Hit Aggs))
  (out : RecoveryOutcome Hit Aggs) : Prop :=
  match snd last with
  | Throw _ => fst last = bestsellers_body /\ out = error_outcome
  | Ok resp =>
      (exists corrected,
          suggestion = Some corrected
          /\ fst last = general_body corrected o
          /\ (0 < hits_total_value resp)%Z
          /\ out = outcome_of spell_correction resp true
                     (Some corrected) None None)
      \/ (exists relaxed,
             In relaxed (relaxations query)
             /\ fst last = general_body relaxed o
             /\ (0 < hits_total_value resp)%Z
             /\ out = outcome_of query_relaxation resp true
                        None (Some relaxed) None)
      \/ (exists cat,
             type intent = CATEGORY
             /\ truthy_opt (category intent) = Some cat
             /\ fst last = category_body cat
             /\ (0 < hits_total_value resp)%Z
             /\ out = outcome_of category_fallback resp false
                        None None (Some cat))
      \/ (fst last = bestsellers_body
          /\ out = outcome_of bestsellers resp false None None None)
  end.

End Outcome.

End RecoverySpec.

(** *** The relaxed texts and their requests *)
Module RelaxationSpec.

Import QueryBuilder ZeroResults CascadeSpec Spacing.

(** The words of a text: its maximal runs of code units that are not white
    space. [word] holds the word being read, last code unit first. *)
Fixpoint words_from (word : list N) (s : jsstring) : list jsstring :=
  match s with
  | [] => match word with [] => [] | _ => [rev word] end
  | c :: t =>
      if is_space c
      then match word with
           | [] => words_from [] t
           | _ => rev word :: words_from [] t
           end
      else words_from (c :: word) t
  end.

Definition words (s : jsstring) : list jsstring := words_from [] s.

(** Words put together again, separated by single spaces. *)
Definition unwords (ws : list jsstring) : jsstring :=
  match ws with
  | [] => []
  | w :: rest => w ++ flat_map (fun x => 32%N :: x) rest
  end.

(** A word: not empty and without white space. *)
Definition is_a_word (w : jsstring) : Prop :=
  w <> [] /\ forallb (fun c => negb (is_space c)) w = true.

(** The relaxed texts as the spec words them: the text without its
    trailing 1, then 2, ... words, down to its first word. *)
Definition word_prefixes (q : jsstring) : list jsstring :=
  let ws := words q in
  map (fun drop => unwords (firstn (length ws - drop) ws))
      (seq 1 (length ws - 1)).

(** The text neither starts nor ends with white space. *)
Definition outer_trimmed (q : jsstring) : bool :=
  match q with
  | [] => true
  | _ => no_lead_space q && ends_word q
  end.

(** What [split] by white space returns, read off the text: the pieces
    between the runs of white space, an empty piece before a run at the
    start and after a run at the end. *)
Fixpoint pieces_from (in_space : bool) (piece : list N) (s : jsstring)
  : list jsstring :=
  match s with
  | [] => [rev piece]
  | c :: t =>
      if is_space c
      then if in_space then pieces_from true piece t
           else rev piece :: pieces_from true [] t
      else pieces_from false (c :: piece) t
  end.

(** The GENERAL query as the spec words it: a fuzzy multi-field match on
    the text. *)
Definition fuzzy_match (text : jsstring) : Query :=
  multi_match text NAME_FIELDS (lit "best_fields")
    (Some (VStr (lit "AUTO"))) (Some 1%Z) None.

(** The GENERAL pipeline as the spec words it, query and ranking: the
    fuzzy match on the text under the filters of the request, inside the
    ranking envelope of a search without intent, with the paging and the
    sort order of the request. *)
Definition general_pipeline (text : jsstring) (o : Options) : body :=
  let page := match page o with Some p => p | None => 1%Z end in
  let perPage := match perPage o with Some p => p | None => 20%Z end in
  let sort := match o_sort o with Some s => s | None => lit "relevance" end in
  {| from := Some ((page - 1) * perPage)%Z;
     size := Some perPage;
     body_query :=
       Some (Ranking.wrapWithFunctionScore
               (bool_ [fuzzy_match text] []
                  (buildFilterClauses
                     (match filters o with Some f => f | None => no_filters end))
                  None)
               None);
     aggs := SEARCH_AGGS;
     _source := SEARCH_SOURCE;
     sort := if JsString.eqb sort (lit "relevance") then None
             else Some (buildSortClause sort);
     body_suggest := None |}.

(** The states of the cascade in order, each with its request, for the
    suggestion accepted from the spell check. *)
Definition ordered_states (query : jsstring) (intent : Intent) (o : Options)
  (suggestion : option jsstring) : list (FallbackType * body) :=
  match suggestion with
  | Some corrected => [(spell_correction, general_pipeline corrected o)]
  | None => []
  end
  ++ map (fun text => (query_relaxation, general_pipeline text o))
         (word_prefixes query)
  ++ match type intent, truthy_opt (category intent) with
     | CATEGORY, Some cat => [(category_fallback, category_body cat)]
     | _, _ => []
     end
  ++ [(bestsellers, bestsellers_body)].

(** The text that a request of the GENERAL pipeline searches for. *)
Definition searched_text (b : body) : option jsstring :=
  match body_query b with
  | Some (function_score (bool_ [multi_match text _ _ _ _ _] _ _ _) _ _ _) =>
      Some text
  | _ => None
  end.

End RelaxationSpec.

(** *** Lists that keep the order of another list *)
Module Order.

(** [Subseq l1 l2]: [l1] is [l2] without some of its elements. *)
Inductive Subseq {X : Type} : list X -> list X -> Prop :=
| subseq_nil : Subseq [] []
| subseq_skip : forall x l1 l2, Subseq l1 l2 -> Subseq l1 (x :: l2)
| subseq_keep : forall x l1 l2, Subseq l1 l2 -> Subseq (x :: l1) (x :: l2).

End Order.

(** *** Merchandising without extra products *)
Module MerchandisingSpec.

Import Merchandising.

(** None of the ids is a property of [allProductsById]. So it is with the
    default [{}], with which the routes call, for ids that do not name a
    property that every object inherits (such as [constructor]). *)
Definition not_found {A : Type}
  (allProductsById : jsstring -> option (Product A)) (ids : list jsstring)
  : Prop :=
  forall pid, In pid ids -> allProductsById pid = None.

(** An object without properties. *)
Definition no_products (A : Type) : jsstring -> option (Product A) :=
  fun _ => None.

(** Three results and two rules for queries that start with [canon]. *)
Definition sample_products : list (Product unit) :=
  [ {| id := Some (lit "p1"); is_pinned := false; details := tt |};
    {| id := Some (lit "p2"); is_pinned := false; details := tt |};
    {| id := Some (lit "p3"); is_pinned := false; details := tt |} ].

Definition sample_pinned : Rules := [ (lit "canon", [lit "p3"; lit "p9"]) ].

Definition sample_blacklisted : Rules := [ (lit "canon", [lit "p1"]) ].

Section Found.

Variable A : Type.

(** The pinned products found among the results: for each pinned id, in
    the order of the ids, the first result with that id. *)
Definition found_pinned (pinnedIds : list jsstring)
  (results : list (Product A)) : list (Product A) :=
  flat_map (fun pid => match find (has_id pid) results with
                       | Some p => [p]
                       | None => []
                       end) pinnedIds.

(** The results whose id is not pinned, in their order. *)
Definition not_pinned (pinnedIds : list jsstring)
  (results : list (Product A)) : list (Product A) :=
  filter (fun p => negb (existsb (fun pid => has_id pid p) pinnedIds)) results.

End Found.

End MerchandisingSpec.

(** *** Documents that differ in a keyword field *)
Module RankingDocs.

Import Ranking.

(** A document with another availability, condition and category, and all
    other fields kept. *)
Definition with_keywords (d : Doc) (availability condition category : jsstring)
  : Doc :=
  {| doc_availability := availability;
     doc_sales_30d := doc_sales_30d d;
     doc_sales_365d := doc_sales_365d d;
     doc_revenue_30d := doc_revenue_30d d;
     doc_revenue_365d := doc_revenue_365d d;
     doc_ga4_popularity_score := doc_ga4_popularity_score d;
     doc_ga4_conversion_score := doc_ga4_conversion_score d;
     doc_ga4_trending_score := doc_ga4_trending_score d;
     doc_margin_pct := doc_margin_pct d;
     doc_created_at := doc_created_at d;
     doc_is_promo := doc_is_promo d;
     doc_review_count := doc_review_count d;
     doc_avg_rating := doc_avg_rating d;
     doc_has_image := doc_has_image d;
     doc_condition := condition;
     doc_is_bestseller := doc_is_bestseller d;
     doc_is_highlighted := doc_is_highlighted d;
     doc_name_exact := doc_name_exact d;
     doc_category := category;
     doc_category_path := doc_category_path d |}.

(** The categories of two lists are different. *)
Definition disjoint_categories (l1 l2 : list jsstring) : bool :=
  forallb (fun c => negb (existsb (JsString.eqb c) l2)) l1.

End RankingDocs.

(** *** The parameter fields *)
Module ParamFields.

(** The fields that the extractors write. *)
Definition PARAM_FIELDS : list jsstring :=
  [ lit "params.aperture"; lit "params.focal_length_min";
    lit "params.focal_length_max"; lit "params.video_resolution";
    lit "params.video_fps"; lit "params.sensor_size"; lit "params.mount";
    lit "params.filter_diameter"; lit "params.megapixels" ].

(** The keys of an object, in order. *)
Definition keys (o : ParamExtractor.object) : list jsstring := map fst o.

End ParamFields.


(* ================================================================== *)
(** ** Properties *)
(* ================================================================== *)

Import ParamExtractor IntentClassifier QueryBuilder Ranking.

(** *** Strings *)

Lemma eqb_spec (a b : jsstring) : reflect (a = b) (JsString.eqb a b).
Proof.
  revert b; induction a as [|x a IH]; intros [|y b]; simpl;
    try (constructor; congruence).
  destruct (N.eqb_spec x y) as [->|Hn]; simpl.
  - destruct (IH b) as [->|Hn]; constructor; congruence.
  - constructor; congruence.
Qed.

Lemma eqb_refl (a : jsstring) : JsString.eqb a a = true.
Proof. destruct (eqb_spec a a); congruence. Qed.

Lemma or_else_empty (s : jsstring) : or_else s [] = s.
Proof. destruct s; reflexivity. Qed.

(** *** Worked classifications and extractions *)

(** C6. [classifyIntent("eos r6 akumulator")] is a MODEL intent whose brand
    [canon] is inferred (no brand word is in the text), with
    [wantsAccessories = true], [isBodyQuery = false] although the body
    pattern of the brand matches, the accessory category [Akumulatory]
    mapped from [akumulator], and the model query [eos r6]. *)
Theorem classifyIntent_eos_r6_akumulator :
  let q := lit "eos r6 akumulator" in
  let r := classifyIntent q in
  type r = MODEL
  /\ brand r = Some (lit "canon")
  /\ exec BRAND_PATTERN q = None
  /\ wantsAccessories r = Some true
  /\ isBodyQuery r = Some false
  /\ inferBrandFromModel q = Some (lit "canon", true)
  /\ accessoryCategory r = Some (Some (lit "Akumulatory"))
  /\ map_get ACCESSORY_TO_CATEGORY (lit "akumulator")
     = Some (Some (lit "Akumulatory"))
  /\ modelQuery r = Some (lit "eos r6").
Proof. vm_compute. repeat split. Qed.

(** C7. On ["70-200mm f/2.8 24MP"] the extractors recognise the aperture,
    the focal lengths and the megapixels, and [stripParams] leaves the
    megapixels token [24MP] in the residual: none of its patterns deletes
    it. *)
Theorem stripParams_leaves_megapixels :
  let q := lit "70-200mm f/2.8 24MP" in
  stripParams q = lit "24MP"
  /\ get_field (extractParams q) (lit "params.megapixels") = Some (VNum 24)
  /\ get_field (extractParams q) (lit "params.aperture")
     = Some (VStr (lit "f/2.8"))
  /\ forallb (fun r => negb (test r (lit "24MP"))) STRIP_PATTERNS = true.
Proof. vm_compute. repeat split. Qed.

(** C9. The schema of [GET /search] lists five values of [sort], without
    [trending]: a request with [sort=trending] is refused, although
    [buildSortClause] has a clause for it, by the GA4 trending score,
    descending. *)
Theorem search_schema_refuses_trending :
  SearchRoute.SORT_ENUM
  = [ lit "relevance"; lit "price_asc"; lit "price_desc"; lit "newest";
      lit "popular" ]
  /\ SearchRoute.sort_clause_of
       {| SearchRoute.qs_q := Some (lit "canon");
          SearchRoute.qs_page := None; SearchRoute.qs_per_page := None;
          SearchRoute.qs_sort := Some (lit "trending");
          SearchRoute.qs_brand := None; SearchRoute.qs_category := None;
          SearchRoute.qs_availability := None;
          SearchRoute.qs_price_min := None; SearchRoute.qs_price_max := None;
          SearchRoute.qs_mount := None |} = None
  /\ buildSortClause (lit "trending")
     = [by_script trending_sort_key (lit "desc"); by_score]
  /\ buildSortClause (lit "price_asc")
     = [by_field (lit "price") (lit "asc"); by_score]
  /\ buildSortClause (lit "price_desc")
     = [by_field (lit "price") (lit "desc"); by_score]
  /\ buildSortClause (lit "newest")
     = [by_field (lit "created_at") (lit "desc"); by_score]
  /\ buildSortClause (lit "popular")
     = [by_script popular_sort_key (lit "desc"); by_score].
Proof. vm_compute. repeat split. Qed.

(** *** Condition weights *)

(** The envelope has two functions on the condition, with the weights
    chosen for the preference that it reads from the intent. *)
Lemma condition_functions_wrap (baseQuery : Query) (intent : option Intent) :
  RankingSpec.condition_functions
    (RankingSpec.functions_of (wrapWithFunctionScore baseQuery intent))
  = RankingSpec.condition_pair
      (fst (condition_weights (conditionPref_of intent)))
      (snd (condition_weights (conditionPref_of intent))).
Proof.
  unfold wrapWithFunctionScore. cbv zeta. cbn [RankingSpec.functions_of].
  unfold RankingSpec.condition_functions. rewrite !filter_app.
  repeat match goal with
         | |- context [if ?c then _ else _] => destruct c
         end; reflexivity.
Qed.

(** C4. For every intent, the functions of the envelope that weigh the
    condition of a product are a weight for [condition: new] followed by a
    weight for [condition: used], and no other: 0.55 and 1.8 when the
    [conditionPref] of the intent is [used], 1.5 and 0.4 when it is [new],
    and 1.3 and 0.55 otherwise, as without an intent. So the new weight is
    below the used weight under the preference [used], and the used weight
    below the new weight under the preference [new]. *)
Theorem condition_weights_invert (baseQuery : Query) (i : Intent) :
  let weights intent :=
    RankingSpec.condition_functions
      (RankingSpec.functions_of (wrapWithFunctionScore baseQuery intent)) in
  (conditionPref i = Some (Some used) ->
     weights (Some i) = RankingSpec.condition_pair 0.55 1.8)
  /\ (conditionPref i = Some (Some new) ->
        weights (Some i) = RankingSpec.condition_pair 1.5 0.4)
  /\ (conditionPref i <> Some (Some used) ->
      conditionPref i <> Some (Some new) ->
        weights (Some i) = RankingSpec.condition_pair 1.3 0.55)
  /\ weights None = RankingSpec.condition_pair 1.3 0.55
  /\ (forall newWeight usedWeight,
        weights (Some i) = RankingSpec.condition_pair newWeight usedWeight ->
        (conditionPref i = Some (Some used) -> (newWeight < usedWeight)%Q)
        /\ (conditionPref i = Some (Some new) -> (usedWeight < newWeight)%Q)).
Proof.
  intros weights. subst weights. cbv beta.
  rewrite !condition_functions_wrap. unfold conditionPref_of.
  split; [intros ->; reflexivity|].
  split; [intros ->; reflexivity|].
  split; [intros H1 H2;
          destruct (conditionPref i) as [[[|]|]|]; try reflexivity; congruence|].
  split; [reflexivity|].
  intros newWeight usedWeight H.
  split; intros Hpref; rewrite Hpref in H; cbn in H;
    injection H as <- <-; reflexivity.
Qed.

(** The intent of [sony a7 iv używany] prefers used products, and that of
    [nowy canon eos r6] new ones. *)
Lemma condition_weights_invert_witness :
  conditionPref (classifyIntent (lit "sony a7 iv używany")) = Some (Some used)
  /\ RankingSpec.condition_functions
       (RankingSpec.functions_of
          (wrapWithFunctionScore match_all
             (Some (classifyIntent (lit "sony a7 iv używany")))))
     = RankingSpec.condition_pair 0.55 1.8
  /\ conditionPref (classifyIntent (lit "nowy canon eos r6")) = Some (Some new)
  /\ RankingSpec.condition_functions
       (RankingSpec.functions_of
          (wrapWithFunctionScore match_all
             (Some (classifyIntent (lit "nowy canon eos r6")))))
     = RankingSpec.condition_pair 1.5 0.4.
Proof.
  assert (Hu : conditionPref (classifyIntent (lit "sony a7 iv używany"))
               = Some (Some used)) by (vm_compute; reflexivity).
  assert (Hn : conditionPref (classifyIntent (lit "nowy canon eos r6"))
               = Some (Some new)) by (vm_compute; reflexivity).
  split; [exact Hu|]. split.
  - apply (condition_weights_invert match_all
             (classifyIntent (lit "sony a7 iv używany"))). exact Hu.
  - split; [exact Hn|].
    apply (condition_weights_invert match_all
             (classifyIntent (lit "nowy canon eos r6"))). exact Hn.
Defined.

(** *** The recovery cascade *)

Import ZeroResults CascadeSpec.

Section CascadeFacts.

Variables Hit Aggs S : Type.
Variable search : S -> body -> result (Response Hit Aggs) * S.

Lemma general_request_ok (q : jsstring) (o : Options) :
  general_request q o = Ok (general_body q o).
Proof. reflexivity. Qed.

(** What one call does to the state. *)
Lemma es_search_run (b : body) (w : World Hit Aggs S) :
  es_search search b w
  = (fst (search (index w) b),
     {| index := snd (search (index w) b);
        log := log w ++ [(b, fst (search (index w) b))] |}).
Proof. unfold es_search. destruct (search (index w) b); reflexivity. Qed.

(** The spell check makes one call, never throws, and returns the
    suggestion accepted from the answer. *)
Lemma trySpellCorrection_run (q : jsstring) (w : World Hit Aggs S) :
  exists score,
    trySpellCorrection search q w
    = (Ok (option_map (fun t => (t, score t))
                      (accepted_suggestion q (fst (search (index w)
                                                     (buildSpellCheckQuery q))))),
       {| index := snd (search (index w) (buildSpellCheckQuery q));
          log := log w ++ [(buildSpellCheckQuery q,
                            fst (search (index w) (buildSpellCheckQuery q)))] |}).
Proof.
  unfold trySpellCorrection, try_catch, bind.
  rewrite es_search_run.
  destruct (search (index w) (buildSpellCheckQuery q)) as [[resp|e] s'];
    cbn [fst snd accepted_suggestion].
  - destruct (suggest_spell_check resp) as [[|entry entries]|];
      try (exists (fun _ => 0%Q); reflexivity).
    destruct (options entry) as [|best rest];
      try (exists (fun _ => 0%Q); reflexivity).
    exists (fun _ => ZeroResults.score best).
    destruct (Qlt_bool 0.5 (ZeroResults.score best)
              && negb (JsString.eqb (text best) q)); reflexivity.
  - exists (fun _ => 0%Q); reflexivity.
Qed.

(** The bestsellers state makes one call and always returns an outcome:
    [bestsellers] with the hits of the answer, or [error] with no product
    when the call fails. *)
Lemma getBestsellers_run (w : World Hit Aggs S) :
  getBestsellers search w
  = (Ok match fst (search (index w) bestsellers_body) with
        | Ok result =>
            {| products := hits_hits result;
               total := hits_total_value result;
               out_aggregations := None; didYouMean := None;
               fallbackType := bestsellers;
               relaxedQuery := None; fallbackCategory := None |}
        | Throw _ =>
            {| products := []; total := 0%Z;
               out_aggregations := None; didYouMean := None;
               fallbackType := error;
               relaxedQuery := None; fallbackCategory := None |}
        end,
     {| index := snd (search (index w) bestsellers_body);
        log := log w ++ [(bestsellers_body,
                          fst (search (index w) bestsellers_body))] |}).
Proof.
  unfold getBestsellers, try_catch, bind. rewrite es_search_run.
  destruct (search (index w) bestsellers_body) as [[resp|e] s']; reflexivity.
Qed.

Lemma getBestsellers_cascade (w : World Hit Aggs S) rest :
  exists outcome w' c,
    getBestsellers search w = (Ok outcome, w')
    /\ log w' = log w ++ [c]
    /\ Cascade ((bestsellers, bestsellers_body) :: rest) [c]
               (Ok (fallbackType outcome)).
Proof.
  rewrite getBestsellers_run.
  destruct (fst (search (index w) bestsellers_body)) as [resp|e] eqn:E;
    eexists; eexists; eexists; (split; [reflexivity|]);
    cbn [log fallbackType]; (split; [reflexivity|]).
  - apply cascade_bestsellers.
  - apply cascade_error.
Qed.

Lemma tryCategoryFallback_cascade (cat : jsstring) (w : World Hit Aggs S) :
  exists res w' calls,
    tryCategoryFallback search cat w = (res, w')
    /\ log w' = log w ++ calls
    /\ hands_over category_fallback (category_body cat) res calls.
Proof.
  unfold tryCategoryFallback, try_catch, bind. rewrite es_search_run.
  destruct (search (index w) (category_body cat)) as [[resp|e] s'] eqn:E;
    cbn [fst snd].
  - destruct (0 <? hits_total_value resp)%Z eqn:Hhit;
      eexists; eexists; eexists; (split; [reflexivity|]);
      (split; [reflexivity|]); cbn.
    + split; [reflexivity|]. intros rest.
      apply cascade_hit; [discriminate|exact Hhit].
    + intros rest calls' fin HC.
      apply cascade_next; try discriminate; assumption.
  - eexists; eexists; eexists; (split; [reflexivity|]);
      (split; [reflexivity|]); cbn.
    intros rest calls' fin HC.
    apply cascade_next; try discriminate; try reflexivity; assumption.
Qed.

(** The loop calls the index for its texts in order, stops at the first
    hit, and hands over when there is none. *)
Lemma relaxation_loop_cascade (words : list jsstring) (o : Options)
  (drops : list nat) :
  forall w : World Hit Aggs S,
  exists res w' calls,
    relaxation_loop search words o drops w = (res, w')
    /\ log w' = log w ++ calls
    /\ match res with
       | Ok (Some outcome) =>
           fallbackType outcome = query_relaxation
           /\ forall rest,
                Cascade (relaxation_entries o (relaxed_texts words drops)
                         ++ rest) calls (Ok query_relaxation)
       | Ok None =>
           forall rest calls' fin,
             Cascade rest calls' fin ->
             Cascade (relaxation_entries o (relaxed_texts words drops)
                      ++ rest) (calls ++ calls') fin
       | Throw _ => False
       end.
Proof.
  induction drops as [|drop drops IH]; intros w.
  - exists (Ok None), w, []. cbn. rewrite app_nil_r.
    repeat split; auto.
  - cbn [relaxation_loop]. unfold relaxed_texts. cbn [map filter].
    fold (relaxed_texts words drops).
    set (relaxed := join (lit " ") (firstn (length words - drop) words)).
    destruct (truthy relaxed) eqn:Ht; cbn [negb].
    + unfold bind at 1. unfold lift. rewrite general_request_ok.
      unfold bind at 1. unfold try_catch, bind at 1.
      rewrite es_search_run.
      destruct (search (index w) (general_body relaxed o))
        as [[resp|e] s'] eqn:E; cbn [fst snd].
      * destruct (0 <? hits_total_value resp)%Z eqn:Hhit.
        -- eexists; eexists; eexists. split; [reflexivity|].
           split; [reflexivity|]. cbn. split; [reflexivity|].
           intros rest. apply cascade_hit; [discriminate|exact Hhit].
        -- cbn [ret].
           destruct (IH {| index := s';
                           log := log w ++ [(general_body relaxed o, Ok resp)] |})
             as (res & w' & calls & Hrun & Hlog & Hres).
           exists res, w', ((general_body relaxed o, Ok resp) :: calls).
           split; [exact Hrun|]. cbn [log] in Hlog.
           split; [rewrite Hlog, <- app_assoc; reflexivity|].
           destruct res as [[outcome|]|e]; cbn [relaxation_entries map app].
           ++ destruct Hres as [Hty Hres]. split; [exact Hty|]. intros rest.
              apply cascade_next;
                [discriminate|exact Hhit|discriminate|apply Hres].
           ++ intros rest calls' fin HC.
              apply cascade_next;
                [discriminate|exact Hhit|discriminate|apply Hres; assumption].
           ++ contradiction.
      * cbn [ret].
        destruct (IH {| index := s';
                        log := log w ++ [(general_body relaxed o, Throw e)] |})
          as (res & w' & calls & Hrun & Hlog & Hres).
        exists res, w', ((general_body relaxed o, Throw e) :: calls).
        split; [exact Hrun|]. cbn [log] in Hlog.
        split; [rewrite Hlog, <- app_assoc; reflexivity|].
        destruct res as [[outcome|]|e']; cbn [relaxation_entries map app].
        -- destruct Hres as [Hty Hres]. split; [exact Hty|]. intros rest.
           apply cascade_next;
             [discriminate|reflexivity|discriminate|apply Hres].
        -- intros rest calls' fin HC.
           apply cascade_next;
             [discriminate|reflexivity|discriminate|apply Hres; assumption].
        -- contradiction.
    + apply IH.
Qed.

End CascadeFacts.

Section CascadeOrder.

Variables Hit Aggs S : Type.
Variable search : S -> body -> result (Response Hit Aggs) * S.

Lemma tryQueryRelaxation_loop (q : jsstring) (o : Options) :
  tryQueryRelaxation search q o
  = relaxation_loop search (split SPACES q) o
      (seq 1 (length (split SPACES q) - 1)).
Proof.
  unfold tryQueryRelaxation.
  destruct (length (split SPACES q) <=? 1) eqn:E; [|reflexivity].
  apply Nat.leb_le in E.
  replace (length (split SPACES q) - 1) with 0 by lia. reflexivity.
Qed.

(** States 2 to 4 never throw, and go through the rest of the plan. *)
Lemma after_spell_correction_cascade (q : jsstring) (intent : Intent)
  (o : Options) (w : World Hit Aggs S) :
  exists outcome w' calls,
    after_spell_correction search q intent o w = (Ok outcome, w')
    /\ log w' = log w ++ calls
    /\ Cascade (plan q intent o None) calls (Ok (fallbackType outcome)).
Proof.
  unfold after_spell_correction, plan. cbn [app].
  rewrite tryQueryRelaxation_loop.
  destruct (relaxation_loop_cascade search (split SPACES q) o
              (seq 1 (length (split SPACES q) - 1)) w)
    as (res & w1 & calls1 & Hrun & Hlog & Hres).
  unfold bind at 1. rewrite Hrun.
  fold (relaxations q) in Hres. fold (relaxation_entries o (relaxations q)).
  destruct res as [[outcome|]|e]; [| |contradiction].
  - destruct Hres as [Hty Hres].
    exists outcome, w1, calls1. repeat split; auto.
    rewrite Hty. apply Hres.
  - destruct (type intent) eqn:Ety;
      try (destruct (getBestsellers_cascade search w1 []) as
              (outcome & w2 & c & Hb & Hlog2 & HC);
           exists outcome, w2, (calls1 ++ [c]);
           split; [destruct (truthy_opt (category intent)); exact Hb|];
           split; [rewrite Hlog2, Hlog, <- app_assoc; reflexivity|];
           apply Hres; exact HC).
    destruct (truthy_opt (category intent)) as [cat|].
    + destruct (tryCategoryFallback_cascade search cat w1)
        as (res & w2 & calls2 & Hc & Hlog2 & Hover).
      unfold bind. rewrite Hc.
      destruct res as [[outcome|]|e]; cbn [hands_over] in Hover;
        [| |contradiction].
      * destruct Hover as [Hty Hover].
        exists outcome, w2, (calls1 ++ calls2).
        split; [reflexivity|].
        split; [rewrite Hlog2, Hlog, <- app_assoc; reflexivity|].
        apply Hres. rewrite Hty. apply Hover.
      * destruct (getBestsellers_cascade search w2 []) as
            (outcome & w3 & c & Hb & Hlog3 & HC).
        exists outcome, w3, (calls1 ++ calls2 ++ [c]).
        split; [exact Hb|].
        split; [rewrite Hlog3, Hlog2, Hlog, <- !app_assoc; reflexivity|].
        apply Hres. apply Hover. exact HC.
    + destruct (getBestsellers_cascade search w1 []) as
          (outcome & w2 & c & Hb & Hlog2 & HC).
      exists outcome, w2, (calls1 ++ [c]).
      split; [exact Hb|].
      split; [rewrite Hlog2, Hlog, <- app_assoc; reflexivity|].
      apply Hres; exact HC.
Qed.

(** When every call succeeds and the GENERAL pipeline finds nothing, the
    relaxation loop returns nothing. *)
Lemma relaxation_loop_no_hit (words : list jsstring) (o : Options) :
  (forall s b, exists resp s', search s b = (Ok resp, s')) ->
  (forall s text resp s',
      search s (general_body text o) = (Ok resp, s') ->
      (hits_total_value resp <= 0)%Z) ->
  forall drops (w : World Hit Aggs S),
  exists w', relaxation_loop search words o drops w = (Ok None, w').
Proof.
  intros Hok Hnone. induction drops as [|drop drops IH]; intros w.
  - exists w; reflexivity.
  - cbn [relaxation_loop].
    set (relaxed := join (lit " ") (firstn (length words - drop) words)).
    destruct (truthy relaxed); cbn [negb]; [|apply IH].
    unfold bind at 1. unfold lift. rewrite general_request_ok.
    unfold bind at 1. unfold try_catch, bind at 1. rewrite es_search_run.
    destruct (Hok (index w) (general_body relaxed o)) as (resp & s' & E).
    rewrite E. cbn [fst snd].
    apply Hnone in E. apply Z.ltb_ge in E. rewrite E. cbn [ret].
    apply IH.
Qed.

(** The whole cascade: the spell check, then the plan. *)
Lemma recoverZeroResults_cascade (q : jsstring) (intent : Intent)
  (o : Options) (w : World Hit Aggs S) :
  exists res w' r0 calls,
    recoverZeroResults search q intent o w = (res, w')
    /\ log w' = log w ++ (buildSpellCheckQuery q, r0) :: calls
    /\ Cascade (plan q intent o (accepted_suggestion q r0)) calls
               (final_of res).
Proof.
  unfold recoverZeroResults.
  destruct (trySpellCorrection_run search q w) as (sc & Hspell).
  unfold bind at 1. rewrite Hspell.
  set (r0 := fst (search (index w) (buildSpellCheckQuery q))).
  set (w1 := {| index := snd (search (index w) (buildSpellCheckQuery q));
                log := log w ++ [(buildSpellCheckQuery q, r0)] |}).
  destruct (accepted_suggestion q r0) as [corrected|] eqn:Hacc;
    cbn [option_map].
  - unfold bind at 1. unfold lift. rewrite general_request_ok.
    unfold bind at 1. rewrite es_search_run.
    destruct (search (index w1) (general_body corrected o))
      as [[resp|e] s2] eqn:E; cbn [fst snd].
    + destruct (0 <? hits_total_value resp)%Z eqn:Hhit.
      * eexists; eexists; exists r0, [(general_body corrected o, Ok resp)].
        split; [reflexivity|]. rewrite Hacc.
        cbn [log final_of fallbackType].
        split; [unfold w1; cbn [log]; rewrite <- app_assoc; reflexivity|].
        unfold plan. cbn [app].
        apply cascade_hit; [discriminate|exact Hhit].
      * destruct (after_spell_correction_cascade q intent o
                    {| index := s2;
                       log := log w1
                              ++ [(general_body corrected o, Ok resp)] |})
          as (outcome & w3 & calls & Hrun & Hlog & HC).
        exists (Ok outcome), w3, r0,
          ((general_body corrected o, Ok resp) :: calls).
        split; [exact Hrun|]. rewrite Hacc. split.
        -- rewrite Hlog. unfold w1. cbn [log]. rewrite <- !app_assoc.
           reflexivity.
        -- unfold plan at 1. cbn [app final_of].
           apply cascade_next;
             [discriminate|exact Hhit|intros _; eexists; reflexivity|].
           exact HC.
    + eexists; eexists; exists r0, [(general_body corrected o, Throw e)].
      split; [reflexivity|]. rewrite Hacc. cbn [log final_of].
      split; [unfold w1; cbn [log]; rewrite <- app_assoc; reflexivity|].
      unfold plan. cbn [app]. apply cascade_spell_failure.
  - destruct (after_spell_correction_cascade q intent o w1)
      as (outcome & w3 & calls & Hrun & Hlog & HC).
    exists (Ok outcome), w3, r0, calls.
    split; [exact Hrun|]. rewrite Hacc. split; [|exact HC].
    rewrite Hlog. unfold w1. cbn [log]. rewrite <- app_assoc. reflexivity.
Qed.

(** Without a hit of the GENERAL pipeline and without a failing call, an
    intent that is not CATEGORY ends in the bestsellers. *)
Lemma recoverZeroResults_bestsellers (q : jsstring) (intent : Intent)
  (o : Options) (w : World Hit Aggs S) :
  (forall s b, exists resp s', search s b = (Ok resp, s')) ->
  (forall s text resp s',
      search s (general_body text o) = (Ok resp, s') ->
      (hits_total_value resp <= 0)%Z) ->
  type intent <> CATEGORY ->
  exists outcome,
    fst (recoverZeroResults search q intent o w) = Ok outcome
    /\ fallbackType outcome = bestsellers.
Proof.
  intros Hok Hnone Hty. unfold recoverZeroResults.
  destruct (trySpellCorrection_run search q w) as (sc & Hspell).
  unfold bind at 1. rewrite Hspell.
  set (r0 := fst (search (index w) (buildSpellCheckQuery q))).
  set (w1 := {| index := snd (search (index w) (buildSpellCheckQuery q));
                log := log w ++ [(buildSpellCheckQuery q, r0)] |}).
  assert (Hafter : forall w2 : World Hit Aggs S,
             exists outcome,
               fst (after_spell_correction search q intent o w2) = Ok outcome
               /\ fallbackType outcome = bestsellers).
  { intros w2. unfold after_spell_correction.
    rewrite tryQueryRelaxation_loop.
    destruct (relaxation_loop_no_hit (split SPACES q) Hok Hnone
                (seq 1 (length (split SPACES q) - 1)) w2) as (w3 & Hloop).
    unfold bind. rewrite Hloop.
    assert (Hb : exists outcome,
               fst (getBestsellers search w3) = Ok outcome
               /\ fallbackType outcome = bestsellers).
    { rewrite getBestsellers_run.
      destruct (Hok (index w3) bestsellers_body) as (resp & s' & E).
      rewrite E. cbn [fst]. eexists; split; reflexivity. }
    destruct (type intent); try exact Hb; congruence. }
  destruct (accepted_suggestion q r0) as [corrected|]; cbn [option_map].
  - unfold bind at 1. unfold lift. rewrite general_request_ok.
    unfold bind at 1. rewrite es_search_run.
    destruct (Hok (index w1) (general_body corrected o)) as (resp & s' & E).
    rewrite E. cbn [fst snd]. apply Hnone in E. apply Z.ltb_ge in E.
    rewrite E. apply Hafter.
  - apply Hafter.
Qed.

End CascadeOrder.

(** C1. With an index that suggests [canon] for [cannon] and then fails,
    the failure of the search for the suggestion leaves
    [recoverZeroResults] as it is thrown, after two calls: that call is not
    in a [try]. The states after it catch their failures: they always end
    with an outcome, and the bestsellers state ends with [bestsellers] or,
    when its call fails, with [error] and no product. *)
Theorem spell_correction_search_failure_propagates :
  (let run :=
     recoverZeroResults suggest_then_fail (lit "cannon")
       (classifyIntent (lit "cannon")) no_options
       {| index := 0; log := [] |} in
   fst run = Throw IndexError
   /\ map fst (log (snd run))
      = [buildSpellCheckQuery (lit "cannon");
         general_body (lit "canon") no_options])
  /\ (forall (Hit Aggs S : Type)
        (es : S -> body -> result (Response Hit Aggs) * S)
        q i o (w : World Hit Aggs S),
         exists outcome w',
           after_spell_correction es q i o w = (Ok outcome, w'))
  /\ (forall (Hit Aggs S : Type)
        (es : S -> body -> result (Response Hit Aggs) * S)
        (w : World Hit Aggs S),
         exists outcome w',
           getBestsellers es w = (Ok outcome, w')
           /\ (fallbackType outcome = bestsellers
               \/ fallbackType outcome = error /\ products outcome = [])).
Proof.
  split; [|split].
  - vm_compute. split; reflexivity.
  - intros Hit Aggs S es q i o w.
    destruct (after_spell_correction_cascade es q i o w)
      as (outcome & w' & _ & H & _). eauto.
  - intros Hit Aggs S es w. rewrite getBestsellers_run.
    eexists; eexists; split; [reflexivity|].
    destruct (fst (es (index w) bestsellers_body)); cbn; auto.
Qed.

(** *** The query builder on an empty residual *)

(** The PRICE branch returns [match_all] on an empty residual: for
    ["do 500 zł"] the text left after the price phrase is empty, and the
    query built for the classified intent is [match_all]. *)
Lemma price_branch_returns_match_all :
  let q := lit "do 500 zł" in
  type (classifyIntent q) = PRICE
  /\ trim (replace PATTERNS_PRICE [] q) = []
  /\ buildIntentQuery q (classifyIntent q) = Ok match_all.
Proof. vm_compute. repeat split. Qed.

(** C10, amended. The GENERAL branch always builds the fuzzy multi-field
    match on the stripped text or, when that is empty, on the original
    text; so with parameters and an empty residual it matches on the
    original text, it never returns [match_all], and its text is empty only
    when the query text is. The PARAMETRIC branch returns [match_all] on an
    empty residual, and so does the PRICE branch when its residual is
    empty, missing or the whole query; no other branch returns
    [match_all]. *)
Theorem general_branch_falls_back_to_query (q : jsstring) (intent : Intent) :
  let fuzzy text :=
    multi_match text NAME_FIELDS (lit "best_fields")
                (Some (VStr (lit "AUTO"))) (Some 1%Z) None in
  (type intent = GENERAL ->
     buildIntentQuery q intent
     = Ok (fuzzy (or_else (if has_params intent then stripParams q else q) q))
     /\ (has_params intent = true -> stripParams q = [] ->
         buildIntentQuery q intent = Ok (fuzzy q))
     /\ buildIntentQuery q intent <> Ok match_all
     /\ (q <> [] -> buildIntentQuery q intent <> Ok (fuzzy [])))
  /\ (type intent = PARAMETRIC -> stripParams q = [] ->
      buildIntentQuery q intent = Ok match_all)
  /\ (type intent = PRICE ->
      truthy_opt (query intent) = None \/ query intent = Some q ->
      buildIntentQuery q intent = Ok match_all)
  /\ (buildIntentQuery q intent = Ok match_all ->
      type intent = PARAMETRIC /\ stripParams q = []
      \/ type intent = PRICE
         /\ (truthy_opt (query intent) = None \/ query intent = Some q)).
Proof.
  intros fuzzy. unfold buildIntentQuery.
  destruct (type intent) eqn:Ety.
  all: split; [intros H; try discriminate H
              |split; [intros H; try discriminate H
                      |split; [intros H; try discriminate H|]]].
  all: try (intros H; discriminate H).
  - (* MODEL *)
    destruct (_ && _); intros H; discriminate H.
  - (* BRAND *)
    destruct (brand intent); intros H; discriminate H.
  - (* PARAMETRIC: empty residual *)
    intros Hs. rewrite Hs. reflexivity.
  - (* PARAMETRIC: match_all only on an empty residual *)
    destruct (stripParams q) eqn:Hs; cbn [truthy negb].
    + intros _. left. split; reflexivity.
    + intros H; discriminate H.
  - (* PRICE: an empty, missing or whole residual *)
    intros [Hq|Hq].
    + rewrite Hq. reflexivity.
    + rewrite Hq. cbn [truthy_opt]. destruct (truthy q); [|reflexivity].
      rewrite eqb_refl. reflexivity.
  - (* PRICE *)
    destruct (truthy_opt (query intent)) as [textPart|] eqn:Hq.
    + destruct (eqb_spec textPart q) as [->|Hne].
      * intros _. right. split; [reflexivity|]. right.
        unfold truthy_opt in Hq.
        destruct (query intent) as [s|]; [|discriminate].
        destruct (truthy s); congruence.
      * intros H; discriminate H.
    + intros _. right. split; [reflexivity|]. left; reflexivity.
  - (* GENERAL *)
    split; [reflexivity|]. split; [|split].
    + intros Hp Hs. rewrite Hp, Hs. reflexivity.
    + discriminate.
    + intros Hq Heq. injection Heq as Heq.
      unfold or_else in Heq.
      destruct (truthy _) eqn:Ht.
      * rewrite Heq in Ht. discriminate Ht.
      * contradiction.
Qed.

(** *** The matcher finds what the regex matches *)

Import RegexSpec SkuShape.

Lemma word_boundary_caps (p : position) (caps : list (nat * jsstring)) :
  at_word_boundary (at_position p caps) = at_word_boundary (at_position p []).
Proof. reflexivity. Qed.

(** Repetition, given that the matcher is complete for the repeated
    regex. *)
Lemma star_loop_complete (r : regex) :
  (forall p1 p2, Matches r p1 p2 ->
     forall k caps, succeeds_at k p2 -> run r k (at_position p1 caps) <> None) ->
  forall p1 p2, Matches (Star r) p1 p2 ->
    forall fuel k caps,
      length (snd p1) < fuel -> succeeds_at k p2 ->
      star_loop (run r) k fuel (at_position p1 caps) <> None.
Proof.
  intros IHr p1 p2 H. remember (Star r) as sr eqn:Hsr.
  induction H; inversion Hsr; subst; intros fuel k caps Hfuel Hk.
  - destruct fuel as [|f]; [lia|]. cbn [star_loop].
    destruct (run r _ _); [discriminate|apply Hk].
  - destruct fuel as [|f]; [lia|]. cbn [star_loop].
    match goal with
    | |- match ?t with _ => _ end <> None =>
        destruct t eqn:E; [discriminate|]
    end.
    exfalso. revert E. apply (IHr _ _ H).
    intros caps'. unfold remaining, at_position. cbn [after].
    apply Nat.ltb_lt in H0 as H0'. rewrite H0'.
    apply IHMatches2; [reflexivity| |exact Hk].
    cbn [snd] in Hfuel. lia.
Qed.

(** If the regex matches from a position to a position where the
    continuation succeeds, the backtracking matcher succeeds. *)
Lemma run_complete (r : regex) :
  forall p1 p2, Matches r p1 p2 ->
    forall k caps, succeeds_at k p2 -> run r k (at_position p1 caps) <> None.
Proof.
  induction r as [|f|r1 IH1 r2 IH2|r1 IH1 r2 IH2|r IH|n r IH| | |];
    intros p1 p2 H k caps Hk.
  - inversion H; subst. apply Hk.
  - inversion H as [|f' x bef aft Hf| | | | | | | | |]; subst.
    cbn. rewrite Hf. apply (Hk caps).
  - inversion H as [| |ra rb pa pb pc Ha Hb| | | | | | | |]; subst.
    cbn [run]. apply (IH1 _ _ Ha). intros caps'. apply (IH2 _ _ Hb). exact Hk.
  - cbn [run]. destruct (run r1 k (at_position p1 caps)) eqn:E;
      [discriminate|].
    inversion H as [| | |ra rb pa pb Ha|ra rb pa pb Hb| | | | | |]; subst.
    + exfalso. revert E. apply (IH1 _ _ Ha). exact Hk.
    + apply (IH2 _ _ Hb). exact Hk.
  - cbn [run]. apply (star_loop_complete IH H); [|exact Hk].
    unfold remaining, at_position. cbn [after]. lia.
  - inversion H as [| | | | | | |n' r' pa pb Ha| | |]; subst. cbn [run].
    apply (IH _ _ Ha). intros caps'. unfold set_cap, at_position.
    cbn [before after Regex.caps]. apply Hk.
  - inversion H; subst. cbn. apply Hk.
  - inversion H; subst. cbn. apply Hk.
  - inversion H as [| | | | | | | | | |p Hb]; subst. cbn [run].
    rewrite word_boundary_caps, Hb. apply Hk.
Qed.

Lemma test_of_match_at (r : regex) (s : jsstring) :
  match_at r [] s <> None -> test r s = true.
Proof.
  unfold test, exec. intros H.
  destruct s; cbn [search]; destruct (match_at r [] _); congruence.
Qed.

(** A regex that matches from the start of a string passes [test]. *)
Lemma test_of_Matches (r : regex) (s : jsstring) (p : position) :
  Matches r ([], s) p -> test r s = true.
Proof.
  intros H. apply test_of_match_at. unfold match_at.
  apply (@run_complete r _ _ H (fun c => Some c) []).
  intros caps. discriminate.
Qed.

Lemma Matches_star_chars (f : N -> bool) (xs : list N) :
  forall bef aft,
    forallb f xs = true ->
    Matches (Star (Char f)) (bef, xs ++ aft) (rev xs ++ bef, aft).
Proof.
  induction xs as [|x xs IH]; intros bef aft H.
  - apply M_StarNil.
  - cbn in H. apply andb_true_iff in H. destruct H as [Hx Hxs].
    cbn [rev app]. rewrite <- app_assoc. cbn [app].
    eapply M_StarCons; [apply M_Char; exact Hx| |apply IH; exact Hxs].
    cbn [snd length]. lia.
Qed.

Lemma Matches_star_chars_end (f : N -> bool) (xs bef : list N) :
  forallb f xs = true ->
  Matches (Star (Char f)) (bef, xs) (rev xs ++ bef, []).
Proof.
  intros H. rewrite <- (app_nil_r xs) at 1. apply Matches_star_chars; exact H.
Qed.

(** *** Code units *)

(** A property of code units below a bound, checked one by one. *)
Lemma below_check (P : N -> bool) (bound : nat) :
  forallb P (map N.of_nat (seq 0 bound)) = true ->
  forall x, (x < N.of_nat bound)%N -> P x = true.
Proof.
  intros H x Hx. rewrite forallb_forall in H. apply H.
  rewrite <- (N2Nat.id x). apply in_map. apply in_seq. lia.
Qed.

Lemma ascii_classes (x : N) : ascii_class_check x = true.
Proof.
  destruct (N.ltb_spec x 128) as [Hlt|Hge].
  - revert x Hlt. apply (below_check ascii_class_check 128).
    vm_compute. reflexivity.
  - unfold ascii_class_check, is_alnum, is_letter_ascii, is_upper_ascii,
      is_lower_ascii, is_digit, in_range.
    replace (x <=? 90)%N with false by (symmetry; apply N.leb_gt; lia).
    replace (x <=? 122)%N with false by (symmetry; apply N.leb_gt; lia).
    replace (x <=? 57)%N with false by (symmetry; apply N.leb_gt; lia).
    rewrite !andb_false_r. reflexivity.
Qed.

Lemma letter_facts (x : N) :
  is_letter_ascii x = true ->
  is_upper_ascii (canonicalize x) = true /\ is_digit x = false
  /\ is_space x = false.
Proof.
  intros H. pose proof (ascii_classes x) as C. unfold ascii_class_check in C.
  rewrite H in C. cbn [implb] in C.
  apply andb_true_iff in C. destruct C as [C _].
  apply andb_true_iff in C. destruct C as [C _].
  apply andb_true_iff in C. destruct C as [C C3].
  apply andb_true_iff in C. destruct C as [C1 C2].
  apply negb_true_iff in C2, C3. auto.
Qed.

Lemma digit_not_space (x : N) : is_digit x = true -> is_space x = false.
Proof.
  intros H. pose proof (ascii_classes x) as C. unfold ascii_class_check in C.
  rewrite H in C. apply andb_true_iff in C. destruct C as [C _].
  apply andb_true_iff in C. destruct C as [_ C].
  cbn [implb] in C. apply negb_true_iff in C. exact C.
Qed.

Lemma alnum_not_space (x : N) : is_alnum x = true -> is_space x = false.
Proof.
  unfold is_alnum. intros H. apply orb_true_iff in H. destruct H as [H|H].
  - apply letter_facts in H. tauto.
  - apply digit_not_space; exact H.
Qed.

(** *** Trimming *)

Lemma trimStart_spaces (s : jsstring) :
  forallb is_space s = true -> trimStart s = [].
Proof.
  induction s as [|c s IH]; [reflexivity|]. cbn. intros H.
  apply andb_true_iff in H. destruct H as [Hc Hs]. rewrite Hc. auto.
Qed.

Lemma trim_spaces (s : jsstring) : forallb is_space s = true -> trim s = [].
Proof.
  intros H. unfold trim, trimEnd. rewrite (trimStart_spaces s H). reflexivity.
Qed.

(** A string that neither starts nor ends with white space is its own
    trimmed form. *)
Lemma trim_id (c : N) (s : jsstring) (z : N) (t : jsstring) :
  is_space c = false -> rev (c :: s) = z :: t -> is_space z = false ->
  trim (c :: s) = c :: s.
Proof.
  intros Hc Hrev Hz. unfold trim, trimEnd. cbn [trimStart]. rewrite Hc.
  rewrite Hrev. cbn [trimStart]. rewrite Hz. rewrite <- Hrev.
  apply rev_involutive.
Qed.

(** *** The SKU rule *)

(** An alphanumeric text with a digit splits at its first digit. *)
Lemma split_first_digit (suffix : jsstring) :
  forallb is_alnum suffix = true -> existsb is_digit suffix = true ->
  exists pre d post,
    suffix = pre ++ d :: post
    /\ forallb is_letter_ascii pre = true
    /\ is_digit d = true
    /\ forallb is_alnum post = true.
Proof.
  induction suffix as [|x suffix IH]; [discriminate|].
  cbn [forallb existsb]. intros Ha He.
  apply andb_true_iff in Ha. destruct Ha as [Hx Ha].
  destruct (is_digit x) eqn:Hd.
  - exists [], x, suffix. auto.
  - cbn [orb] in He. destruct (IH Ha He) as (pre & d & post & -> & Hp & Hdd & Hq).
    exists (x :: pre), d, post. repeat split; auto.
    cbn [forallb]. rewrite Hp.
    unfold is_alnum in Hx. rewrite Hd, orb_false_r in Hx. rewrite Hx.
    reflexivity.
Qed.

Lemma letter_i_char (x : N) (bef aft : list N) :
  is_letter_ascii x = true ->
  Matches letter_i (bef, x :: aft) (x :: bef, aft).
Proof.
  intros H. apply M_Char. apply letter_facts in H. tauto.
Qed.

Lemma alnum_i_ok (x : N) :
  is_alnum x = true -> is_upper_ascii (canonicalize x) || is_digit x = true.
Proof.
  unfold is_alnum. intros H. apply orb_true_iff in H. destruct H as [H|H].
  - apply letter_facts in H. destruct H as [H _]. rewrite H. reflexivity.
  - rewrite H. apply orb_true_r.
Qed.

Lemma forallb_impl {A : Type} (f g : A -> bool) (l : list A) :
  (forall x, f x = true -> g x = true) ->
  forallb f l = true -> forallb g l = true.
Proof.
  intros Hfg. rewrite !forallb_forall. auto.
Qed.

(** Two to four letters, greedily. *)
Lemma Matches_letters (letters : jsstring) (bef aft : list N) :
  2 <= length letters <= 4 -> forallb is_letter_ascii letters = true ->
  Matches (rep_range 2 4 letter_i) (bef, letters ++ aft)
          (rev letters ++ bef, aft).
Proof.
  intros Hlen Hall.
  destruct letters as [|a [|b [|c [|d [|e t]]]]]; cbn [length] in Hlen;
    try lia; cbn [forallb] in Hall;
    repeat match type of Hall with
           | _ && _ = true =>
               let H := fresh "Hl" in
               apply andb_true_iff in Hall; destruct Hall as [H Hall]
           end;
    unfold rep_range; cbn [rep upto opt Nat.sub rev app].
  - eapply M_Seq.
    + eapply M_Seq; [apply letter_i_char; eassumption|].
      eapply M_Seq; [apply letter_i_char; eassumption|apply M_Empty].
    + apply M_AltR. apply M_Empty.
  - eapply M_Seq.
    + eapply M_Seq; [apply letter_i_char; eassumption|].
      eapply M_Seq; [apply letter_i_char; eassumption|apply M_Empty].
    + apply M_AltL.
      eapply M_Seq; [apply letter_i_char; eassumption|].
      apply M_AltR. apply M_Empty.
  - eapply M_Seq.
    + eapply M_Seq; [apply letter_i_char; eassumption|].
      eapply M_Seq; [apply letter_i_char; eassumption|apply M_Empty].
    + apply M_AltL.
      eapply M_Seq; [apply letter_i_char; eassumption|].
      apply M_AltL.
      eapply M_Seq; [apply letter_i_char; eassumption|apply M_Empty].
Qed.

(** A text of the manufacturer-code shape is matched by the SKU pattern. *)
Lemma sku_pattern_matches_shape (letters : jsstring) (sep : N)
  (suffix : jsstring) :
  sku_shape letters sep suffix = true ->
  test PATTERNS_SKU (letters ++ sep :: suffix) = true.
Proof.
  unfold sku_shape. intros H.
  repeat (apply andb_true_iff in H; destruct H as [H ?]).
  apply Nat.leb_le in H. 
  match goal with Hx : (length letters <=? 4) = true |- _ =>
    apply Nat.leb_le in Hx end.
  destruct (split_first_digit suffix) as (pre & d & post & -> & Hp & Hd & Hq);
    try assumption.
  eapply test_of_Matches.
  unfold PATTERNS_SKU. cbn [seqs].
  eapply M_Seq; [apply M_Bol|].
  eapply M_Seq; [apply Matches_letters; [lia|assumption]|].
  eapply M_Seq.
  { apply M_Char. unfold is_separator in *.
    match goal with Hs : (_ =? _)%N || (_ =? _)%N = true |- _ =>
      apply orb_true_iff in Hs; destruct Hs as [Hs|Hs];
      apply N.eqb_eq in Hs; subst sep; reflexivity end. }
  eapply M_Seq; [apply Matches_star_chars|].
  { eapply forallb_impl; [|exact Hp]. intros x Hx.
    apply letter_facts in Hx. tauto. }
  eapply M_Seq; [apply M_Char; exact Hd|].
  apply Matches_star_chars_end.
  eapply forallb_impl; [|exact Hq]. apply alnum_i_ok.
Qed.

(** The EAN pattern is anchored at the start of the string. *)
Lemma ean_search_not_at_start (aft : list N) :
  forall x bef, search PATTERNS_EAN (x :: bef) aft = None.
Proof.
  induction aft as [|y aft IH]; intros x bef; cbn [search];
    unfold match_at, PATTERNS_EAN; cbn; auto.
Qed.

Lemma ean_rejects_non_digit (x : N) (s : jsstring) :
  is_digit x = false -> test PATTERNS_EAN (x :: s) = false.
Proof.
  intros Hx. unfold test, exec. cbn [search].
  replace (match_at PATTERNS_EAN [] (x :: s)) with (@None cursor).
  - rewrite ean_search_not_at_start. reflexivity.
  - unfold match_at, PATTERNS_EAN. cbn. rewrite Hx. reflexivity.
Qed.

(** A text of the manufacturer-code shape is its own trimmed form. *)
Lemma sku_shape_trim (letters : jsstring) (sep : N) (suffix : jsstring) :
  sku_shape letters sep suffix = true ->
  exists a rest,
    letters ++ sep :: suffix = a :: rest
    /\ is_digit a = false
    /\ trim (a :: rest) = a :: rest.
Proof.
  unfold sku_shape. intros H.
  repeat (apply andb_true_iff in H; destruct H as [H ?]).
  apply Nat.leb_le in H.
  destruct letters as [|a letters]; [cbn in H; lia|].
  match goal with Hl : forallb is_letter_ascii (a :: letters) = true |- _ =>
    cbn [forallb] in Hl; apply andb_true_iff in Hl; destruct Hl as [Ha Hl] end.
  apply letter_facts in Ha. destruct Ha as (_ & Hnd & Hns).
  exists a, (letters ++ sep :: suffix). split; [reflexivity|].
  split; [exact Hnd|].
  destruct (rev suffix) as [|z t] eqn:Hrev.
  - apply (f_equal (@rev N)) in Hrev. rewrite rev_involutive in Hrev.
    subst suffix. discriminate.
  - apply (@trim_id a _ z (t ++ sep :: rev (a :: letters))); auto.
    + change (a :: letters ++ sep :: suffix)
        with ((a :: letters) ++ sep :: suffix).
      rewrite rev_app_distr. cbn [rev]. rewrite Hrev.
      rewrite <- !app_assoc. reflexivity.
    + apply alnum_not_space.
      match goal with Hs : forallb is_alnum suffix = true |- _ =>
        rewrite forallb_forall in Hs; apply Hs end.
      apply in_rev. rewrite Hrev. left; reflexivity.
Qed.

(** C5. Every text of the manufacturer-code shape (two to four letters, a
    separator [-] or [_], an alphanumeric suffix with at least one digit,
    in either case) is classified as SKU, whatever brand, category,
    parameter or price it contains: the EAN rule, the only one before the
    SKU rule, does not match it, and no later rule is looked at. *)
Theorem classifyIntent_sku_shape (letters : jsstring) (sep : N)
  (suffix : jsstring) :
  sku_shape letters sep suffix = true ->
  let q := letters ++ sep :: suffix in
  type (classifyIntent q) = SKU
  /\ query (classifyIntent q) = Some q
  /\ test PATTERNS_EAN q = false.
Proof.
  intros Hshape q.
  pose proof (sku_pattern_matches_shape letters sep suffix Hshape) as Hsku.
  destruct (sku_shape_trim letters sep suffix Hshape)
    as (a & rest & Hq & Hnd & Htrim).
  pose proof (@ean_rejects_non_digit a rest Hnd) as Hean.
  subst q. rewrite Hq in *.
  unfold classifyIntent. cbv zeta.
  rewrite or_else_empty, Htrim, Hean, Hsku.
  repeat split; reflexivity.
Qed.

(** The text [sony-a7] has the shape and contains a brand name: it is
    classified as SKU. *)
Lemma classifyIntent_sku_shape_witness :
  sku_shape (lit "sony") 45 (lit "a7") = true
  /\ test BRAND_PATTERN (lit "sony-a7") = true
  /\ type (classifyIntent (lit "sony-a7")) = SKU.
Proof.
  split; [reflexivity|]. split; [vm_compute; reflexivity|].
  apply (classifyIntent_sku_shape (lit "sony") 45 (lit "a7")).
  reflexivity.
Defined.

(** *** Classification is total *)

Ltac case_rules :=
  repeat match goal with
         | |- context [match ?x with _ => _ end] => destruct x
         end.

(** C8. [classifyIntent] is a function of the text and the static tables:
    for every text it returns an intent of one of the eight types of the
    cascade, with [conditionPref] and [wantsAccessories] set to what the
    two detectors find in the trimmed text; a text that no rule matches,
    and in particular an empty or blank text, is classified as GENERAL. *)
Theorem classifyIntent_total (query : jsstring) :
  let q := trim query in
  let r := classifyIntent query in
  In (type r) [EAN; SKU; MODEL; BRAND; PARAMETRIC; CATEGORY; PRICE; GENERAL]
  /\ conditionPref r = Some (detectConditionPreference q)
  /\ wantsAccessories r = Some (detectAccessoryPreference q)
  /\ (test PATTERNS_EAN q = false ->
      test PATTERNS_SKU q = false ->
      exec BRAND_PATTERN q = None ->
      inferBrandFromModel q = None ->
      test PATTERNS_PARAMETRIC_APERTURE q = false ->
      test PATTERNS_PARAMETRIC_FOCAL q = false ->
      test PATTERNS_PARAMETRIC_RES q = false ->
      test PATTERNS_PARAMETRIC_FPS q = false ->
      test PATTERNS_PARAMETRIC_SENSOR q = false ->
      test PATTERNS_PARAMETRIC_MOUNT q = false ->
      map_get CATEGORY_NAMES (toLowerCase q) = None ->
      exec PATTERNS_PRICE q = None ->
      r = intent GENERAL q (detectConditionPreference q)
                 (detectAccessoryPreference q))
  /\ (forallb is_space query = true -> r = intent GENERAL [] None false).
Proof.
  intros q r. subst r. unfold classifyIntent. cbv zeta.
  rewrite or_else_empty. fold q.
  split; [|split; [|split; [|split]]].
  - case_rules; cbn; auto 10.
  - case_rules; reflexivity.
  - case_rules; reflexivity.
  - intros H1 H2 H3 H4 H5 H6 H7 H8 H9 H10 H11 H12.
    rewrite H1, H2, H3, H4, H5, H6, H7, H8, H9, H10, H11, H12.
    reflexivity.
  - intros Hblank. assert (Hq : q = []) by (apply trim_spaces; exact Hblank).
    rewrite Hq. vm_compute. reflexivity.
Qed.

(** The text [blah] is matched by no rule. *)
Lemma classifyIntent_total_witness :
  classifyIntent (lit "blah") = intent GENERAL (lit "blah") None false.
Proof.
  apply (classifyIntent_total (lit "blah")); vm_compute; reflexivity.
Defined.

(** *** The sales signal *)

Import RankingSpec.

Open Scope R_scope.

Lemma ln_1p_pos (x : R) : 0 < x -> 0 < ln (1 + x).
Proof.
  intros H. rewrite <- ln_1. apply ln_increasing; lra.
Qed.

Lemma Q2R_nonneg (w : Q) : (0 <= w)%Q -> 0 <= Q2R w.
Proof.
  intros H. apply Qreals.Qle_Rle in H.
  replace (Q2R 0) with 0 in H; [exact H|]. unfold Q2R. cbn. lra.
Qed.

(** The filters of the envelope do not read [sales_30d]. *)
Lemma filter_matches_with_sales (flt : Query) (d : Doc) (s : R) :
  filter_matches flt (with_sales_30d d s) = filter_matches flt d.
Proof. destruct flt; reflexivity. Qed.

Lemma weight_fn_between (now : R) (flt : Query) (w : Q) (d : Doc) (s : R) :
  (0 <= w)%Q -> between now d (with_sales_30d d s) (weight_fn flt w).
Proof.
  intros Hw. unfold between, apply_function.
  rewrite filter_matches_with_sales.
  apply Q2R_nonneg in Hw. destruct (filter_matches flt d); lra.
Qed.

(** The sales signal does not decrease with [sales_30d]. *)
Lemma sales_30d_boost_between (now : R) (d : Doc) (s : R) :
  doc_sales_30d d < s ->
  between now d (with_sales_30d d s) (script_score sales_30d_boost []).
Proof.
  intros Hs. unfold between, apply_function, eval_script.
  cbn [doc_sales_30d with_sales_30d].
  destruct (Rlt_dec 0 (doc_sales_30d d)) as [H1|H1];
    destruct (Rlt_dec 0 s) as [H2|H2]; try lra.
  - pose proof (ln_1p_pos H1).
    assert (ln (1 + doc_sales_30d d) < ln (1 + s))
      by (apply ln_increasing; lra).
    lra.
  - pose proof (ln_1p_pos H2). lra.
Qed.

Lemma positive_boost_ge_1 (x : option R) (k : R) :
  0 <= k -> 1 <= positive_boost x k.
Proof.
  intros Hk. unfold positive_boost. destruct x as [v|]; [|lra].
  destruct (Rlt_dec 0 v); [|lra].
  assert (0 <= v * k) by (apply Rmult_le_pos; lra). lra.
Qed.

(** The other scripts of the envelope do not read [sales_30d]; they are
    at least 1, but for the margin and the rating. *)
Lemma other_script_between (now : R) (sc : Script) (d : Doc) (s : R) :
  In sc [sales_365d_boost; revenue_boost; ga4_popularity_boost;
         ga4_conversion_boost; ga4_trending_boost; margin_boost;
         rating_boost; sku_specificity_boost] ->
  0 <= eval_script margin_boost [] d ->
  0 <= eval_script rating_boost [] d ->
  between now d (with_sales_30d d s) (script_score sc []).
Proof.
  intros Hin Hm Hr. unfold between, apply_function.
  assert (Heq : eval_script sc [] (with_sales_30d d s) = eval_script sc [] d).
  { cbn in Hin.
    repeat (destruct Hin as [<-|Hin]; [reflexivity|]). contradiction. }
  rewrite Heq. split; [|lra].
  cbn in Hin.
  destruct Hin as [<-|[<-|[<-|[<-|[<-|[<-|[<-|[<-|[]]]]]]]]];
    try exact Hm; try exact Hr; unfold eval_script.
  - destruct (doc_sales_365d d) as [v|]; [|lra].
    destruct (Rlt_dec 0 v) as [H|H]; [|lra].
    pose proof (ln_1p_pos H). lra.
  - match goal with
    | |- 0 <= (if Rlt_dec 0 ?rev then _ else _) =>
        destruct (Rlt_dec 0 rev) as [H|H]; [|lra];
        pose proof (ln_1p_pos H); lra
    end.
  - pose proof (@positive_boost_ge_1 (doc_ga4_popularity_score d) 0.008).
    lra.
  - pose proof (@positive_boost_ge_1 (doc_ga4_conversion_score d) 0.004).
    lra.
  - pose proof (@positive_boost_ge_1 (doc_ga4_trending_score d) 0.003).
    lra.
  - repeat match goal with
           | |- context [if ?c then _ else _] => destruct c
           end; lra.
Qed.

Lemma gauss_between (now : R) (field origin scale : jsstring) (decay : Q)
  (d : Doc) (s : R) :
  between now d (with_sales_30d d s) (gauss field origin scale decay).
Proof.
  unfold between, apply_function, gauss_decay.
  cbn [doc_created_at with_sales_30d].
  split; [left; apply exp_pos|lra].
Qed.

(** A product of factors that are non-negative and do not decrease, does
    not decrease. *)
Lemma functions_value_between (now : R) (fs : list score_function)
  (d1 d2 : Doc) :
  Forall (between now d1 d2) fs ->
  0 <= functions_value now fs d1 <= functions_value now fs d2.
Proof.
  induction 1 as [|f fs Hf _ IH]; cbn [functions_value fold_right].
  - lra.
  - fold (functions_value now fs d1). fold (functions_value now fs d2).
    unfold between in Hf. split.
    + apply Rmult_le_pos; tauto.
    + apply Rmult_le_compat; tauto.
Qed.

Close Scope R_scope.

Ltac solve_between :=
  first
    [ apply weight_fn_between; apply Qle_bool_imp_le; reflexivity
    | apply sales_30d_boost_between; assumption
    | apply gauss_between
    | apply other_script_between; [cbn; tauto|assumption|assumption] ].

Open Scope R_scope.

(** The index accepts a list of functions when none is negative. *)
Lemma accepts_iff (now : R) (fs : list score_function) (d : Doc) :
  accepts now fs d = true <-> Forall (fun f => 0 <= apply_function now f d) fs.
Proof.
  unfold accepts. rewrite forallb_forall, Forall_forall.
  split; intros H f Hf; specialize (H f Hf); unfold accepts_value in *;
    destruct (Rle_dec 0 (apply_function now f d)); auto; discriminate.
Qed.

Lemma between_accepts (now : R) (fs : list score_function) (d1 d2 : Doc) :
  Forall (between now d1 d2) fs ->
  accepts now fs d1 = true /\ accepts now fs d2 = true.
Proof.
  intros H. rewrite !accepts_iff. split; eapply Forall_impl; try exact H;
    unfold between; intros f Hf; cbv beta in *; lra.
Qed.


Lemma accepts_nonneg (now : R) (fs : list score_function) (d : Doc) :
  accepts now fs d = true -> 0 <= functions_value now fs d.
Proof.
  intros H. apply accepts_iff in H.
  apply (@functions_value_between now fs d d).
  eapply Forall_impl; [|exact H]. unfold between. intros f Hf. lra.
Qed.

(** The margin and the rating scripts are functions of every envelope. *)
Lemma envelope_has_margin_rating (baseQuery : Query) (intent : option Intent) :
  In (script_score margin_boost [])
     (functions_of (wrapWithFunctionScore baseQuery intent))
  /\ In (script_score rating_boost [])
        (functions_of (wrapWithFunctionScore baseQuery intent)).
Proof.
  unfold wrapWithFunctionScore. cbv zeta. cbn [functions_of].
  split; apply in_or_app; left; cbn [In]; tauto.
Qed.

Lemma accepts_margin_rating (now : R) (baseQuery : Query)
  (intent : option Intent) (d : Doc) :
  accepts now (functions_of (wrapWithFunctionScore baseQuery intent)) d = true ->
  0 <= eval_script margin_boost [] d /\ 0 <= eval_script rating_boost [] d.
Proof.
  intros H. apply accepts_iff in H. rewrite Forall_forall in H.
  destruct (envelope_has_margin_rating baseQuery intent) as [Hm Hr].
  split; [apply (H _ Hm)|apply (H _ Hr)].
Qed.

Close Scope R_scope.

(** The functions of the envelope on two documents that differ in
    [sales_30d]. *)
Lemma envelope_between_sales (now : R) (baseQuery : Query)
  (intent : option Intent) (d : Doc) (s : R) :
  (0 <= eval_script margin_boost [] d)%R ->
  (0 <= eval_script rating_boost [] d)%R ->
  (doc_sales_30d d < s)%R ->
  Forall (between now d (with_sales_30d d s))
         (functions_of (wrapWithFunctionScore baseQuery intent)).
Proof.
  intros Hmargin Hrating Hs.
  unfold wrapWithFunctionScore, when_term. cbv zeta. cbn [functions_of].
  destruct (conditionPref_of intent) as [[|]|];
    cbn [condition_weights fst snd];
    (apply Forall_app; split;
     [repeat (apply Forall_cons; [solve_between|]); apply Forall_nil|]);
    (apply Forall_app; split;
     repeat match goal with
            | |- context [if ?c then _ else _] => destruct c
            end;
     repeat (apply Forall_cons; [solve_between|]); apply Forall_nil).
Qed.

(** All functions of the envelope but the sales signal have the same
    value on two documents that differ in [sales_30d]. *)
Lemma envelope_same_but_sales (now : R) (baseQuery : Query)
  (intent : option Intent) (d : Doc) (s : R) :
  Forall (fun f => f = script_score sales_30d_boost []
                   \/ apply_function now f (with_sales_30d d s)
                      = apply_function now f d)
         (functions_of (wrapWithFunctionScore baseQuery intent)).
Proof.
  unfold wrapWithFunctionScore, when_term. cbv zeta. cbn [functions_of].
  destruct (conditionPref_of intent) as [[|]|];
    cbn [condition_weights fst snd];
    repeat match goal with
           | |- context [if ?c then _ else _] => destruct c
           end;
    cbn [app];
    repeat (apply Forall_cons;
            [first [left; reflexivity|right; reflexivity]|]);
    apply Forall_nil.
Qed.

(** The score of the index under an envelope of [wrapWithFunctionScore]. *)
Lemma index_score_envelope (now base : R) (baseQuery : Query)
  (intent : option Intent) (d : Doc) :
  index_score now (wrapWithFunctionScore baseQuery intent) d base
  = if accepts now (functions_of (wrapWithFunctionScore baseQuery intent)) d
    then Some (base * functions_value now
                        (functions_of (wrapWithFunctionScore baseQuery intent)) d)%R
    else None.
Proof. reflexivity. Qed.

(** C3. Of two documents that differ only in [sales_30d], the sales signal
    of the one with the greater [sales_30d] is not lower and every other
    function of the envelope has the same value on both; the index scores
    both or refuses both (a negative margin or rating factor, the same in
    both, fails the request); and when it scores them, the total score of
    the one with the greater [sales_30d] is not lower. The text relevance
    of the index is not negative. *)
Theorem sales_30d_monotone (now base : R) (baseQuery : Query)
  (intent : option Intent) (d : Doc) (s : R) :
  (0 <= base)%R ->
  (doc_sales_30d d < s)%R ->
  let envelope := wrapWithFunctionScore baseQuery intent in
  let d' := with_sales_30d d s in
  (eval_script sales_30d_boost [] d <= eval_script sales_30d_boost [] d')%R
  /\ Forall (fun f => f = script_score sales_30d_boost []
                      \/ apply_function now f d' = apply_function now f d)
            (functions_of envelope)
  /\ (index_score now envelope d base = None
      <-> index_score now envelope d' base = None)
  /\ (forall x x',
        index_score now envelope d base = Some x ->
        index_score now envelope d' base = Some x' ->
        (x <= x')%R).
Proof.
  intros Hbase Hs envelope d'. subst envelope.
  split; [apply (sales_30d_boost_between now d Hs)|].
  split; [apply envelope_same_but_sales|].
  rewrite !index_score_envelope.
  set (fs := functions_of (wrapWithFunctionScore baseQuery intent)).
  assert (Hsame : eval_script margin_boost [] d' = eval_script margin_boost [] d
                  /\ eval_script rating_boost [] d'
                     = eval_script rating_boost [] d) by (split; reflexivity).
  assert (Hboth : accepts now fs d = true \/ accepts now fs d' = true ->
                  Forall (between now d d') fs).
  { intros [H|H]; apply accepts_margin_rating in H; destruct H as [Hm Hr].
    - apply envelope_between_sales; assumption.
    - destruct Hsame as [Em Er]. rewrite Em in Hm. rewrite Er in Hr.
      apply envelope_between_sales; assumption. }
  split.
  - destruct (accepts now fs d) eqn:E1; destruct (accepts now fs d') eqn:E2;
      try (split; intros; congruence);
      [destruct (between_accepts (Hboth (or_introl eq_refl))); congruence
      |destruct (between_accepts (Hboth (or_intror eq_refl))); congruence].
  - intros x x' H1 H2.
    destruct (accepts now fs d) eqn:E1; [|discriminate].
    destruct (accepts now fs d'); [|discriminate].
    assert (Hx : x = (base * functions_value now fs d)%R) by congruence.
    assert (Hx' : x' = (base * functions_value now fs d')%R) by congruence.
    rewrite Hx, Hx'. apply Rmult_le_compat_l; [exact Hbase|].
    apply functions_value_between. apply Hboth. left; reflexivity.
Qed.

(** A product at a margin of 10 per cent: both documents are scored, and
    five sales in place of none do not lower the score. *)
Lemma sales_30d_monotone_witness :
  exists x x',
    index_score 0 (wrapWithFunctionScore match_all None) (sample_doc 10) 1
    = Some x
    /\ index_score 0 (wrapWithFunctionScore match_all None)
         (with_sales_30d (sample_doc 10) 5) 1 = Some x'
    /\ (x <= x')%R.
Proof.
  assert (Hb : Forall (between 0 (sample_doc 10)
                         (with_sales_30d (sample_doc 10) 5))
                 (functions_of (wrapWithFunctionScore match_all None))).
  { apply envelope_between_sales.
    - cbn [eval_script sample_doc doc_margin_pct]. lra.
    - cbn [eval_script sample_doc doc_review_count doc_avg_rating].
      destruct (Rge_dec 0 3); lra.
    - cbn [sample_doc doc_sales_30d]. lra. }
  destruct (between_accepts Hb) as [H1 H2].
  eexists. eexists.
  rewrite !index_score_envelope, H1, H2.
  split; [reflexivity|]. split; [reflexivity|].
  apply (@sales_30d_monotone 0 1 match_all None (sample_doc 10) 5).
  - lra.
  - cbn [sample_doc doc_sales_30d]. lra.
  - rewrite index_score_envelope, H1. reflexivity.
  - rewrite index_score_envelope, H2. reflexivity.
Defined.

(** *** The matcher finds only matches *)

Lemma star_loop_sound (r : regex) :
  (forall k c e, run r k c = Some e ->
     exists p2 caps',
       Matches r (before c, after c) p2 /\ k (at_position p2 caps') = Some e) ->
  forall fuel k c e, star_loop (run r) k fuel c = Some e ->
    exists p2 caps',
      Matches (Star r) (before c, after c) p2
      /\ k (at_position p2 caps') = Some e.
Proof.
  intros IHr. induction fuel as [|f IHf]; intros k c e H.
  - cbn in H. exists (before c, after c), (caps c).
    split; [apply M_StarNil|]. destruct c; exact H.
  - cbn [star_loop] in H.
    match type of H with
    | match ?t with _ => _ end = _ => destruct t as [e'|] eqn:E
    end.
    + injection H as <-. apply IHr in E.
      destruct E as (p2 & caps' & Hm & Hk).
      destruct (remaining (at_position p2 caps') <? remaining c) eqn:Hlt;
        [|discriminate].
      apply IHf in Hk. destruct Hk as (p3 & caps'' & Hs & Hk).
      exists p3, caps''. split; [|exact Hk].
      destruct p2 as [b2 a2].
      eapply M_StarCons; [exact Hm| |exact Hs].
      apply Nat.ltb_lt in Hlt. exact Hlt.
    + exists (before c, after c), (caps c).
      split; [apply M_StarNil|]. destruct c; exact H.
Qed.

(** Whatever the backtracking matcher returns went through a match of the
    regex, after which the continuation returned it. *)
Lemma run_sound (r : regex) :
  forall k c e, run r k c = Some e ->
    exists p2 caps',
      Matches r (before c, after c) p2 /\ k (at_position p2 caps') = Some e.
Proof.
  induction r as [|f|r1 IH1 r2 IH2|r1 IH1 r2 IH2|r IH|n r IH| | |];
    intros k c e H; cbn [run] in H.
  - exists (before c, after c), (caps c). split; [apply M_Empty|].
    destruct c; exact H.
  - destruct c as [bef [|x t] cs]; cbn [after before Regex.caps] in *;
      [discriminate|].
    destruct (f x) eqn:Hf; [|discriminate].
    exists (x :: bef, t), cs. split; [apply M_Char; exact Hf|exact H].
  - apply IH1 in H. destruct H as (p2 & caps2 & H1 & H).
    apply IH2 in H. destruct H as (p3 & caps3 & H2 & H).
    exists p3, caps3. split; [|exact H].
    eapply M_Seq; [exact H1|]. destruct p2; exact H2.
  - destruct (run r1 k c) eqn:E.
    + injection H as <-. apply IH1 in E. destruct E as (p2 & caps2 & H1 & H).
      exists p2, caps2. split; [apply M_AltL; exact H1|exact H].
    + apply IH2 in H. destruct H as (p2 & caps2 & H2 & H).
      exists p2, caps2. split; [apply M_AltR; exact H2|exact H].
  - apply (star_loop_sound IH) in H. exact H.
  - apply IH in H. destruct H as (p2 & caps2 & H1 & H).
    exists p2. eexists. split; [apply M_Group; exact H1|].
    unfold set_cap, at_position in H. cbn [before after Regex.caps] in H.
    unfold at_position. exact H.
  - destruct c as [[|y bef] aft cs]; cbn in H; [|discriminate].
    exists ([], aft), cs. split; [apply M_Bol|exact H].
  - destruct c as [bef [|y aft] cs]; cbn in H; [|discriminate].
    exists (bef, []), cs. split; [apply M_Eol|exact H].
  - destruct (at_word_boundary c) eqn:Hb; [|discriminate].
    exists (before c, after c), (caps c).
    split; [apply M_WordB; destruct c; exact Hb|destruct c; exact H].
Qed.

Lemma match_at_sound (r : regex) (bef aft : list N) (e : cursor) :
  match_at r bef aft = Some e -> Matches r (bef, aft) (before e, after e).
Proof.
  unfold match_at. intros H. apply run_sound in H.
  destruct H as (p2 & caps' & Hm & Hk). injection Hk as <-.
  destruct p2; exact Hm.
Qed.

(** A match consumes a piece of the text after its start. *)
Lemma Matches_consumes (r : regex) (p1 p2 : position) :
  Matches r p1 p2 ->
  exists m, snd p1 = m ++ snd p2 /\ fst p2 = rev m ++ fst p1.
Proof.
  induction 1 as [p|f x bef aft Hf|r1 r2 p1 p2 p3 _ IH1 _ IH2
                  |r1 r2 p1 p2 _ IH|r1 r2 p1 p2 _ IH|r p
                  |r p1 p2 p3 _ IH1 _ _ IH2|n r p1 p2 _ IH|aft|bef|p Hb];
    try (exists []; split; reflexivity); try exact IH.
  - exists [x]. split; reflexivity.
  - destruct IH1 as (m1 & Ha1 & Hb1). destruct IH2 as (m2 & Ha2 & Hb2).
    exists (m1 ++ m2). rewrite Ha1, Ha2, Hb2, Hb1, rev_app_distr, !app_assoc.
    split; reflexivity.
  - destruct IH1 as (m1 & Ha1 & Hb1). destruct IH2 as (m2 & Ha2 & Hb2).
    exists (m1 ++ m2). rewrite Ha1, Ha2, Hb2, Hb1, rev_app_distr, !app_assoc.
    split; reflexivity.
Qed.

(** The leftmost search returns a match of the regex that starts inside
    the text. *)
Lemma search_sound (r : regex) :
  forall aft bef c0 c1, search r bef aft = Some (c0, c1) ->
    exists pre post,
      aft = pre ++ post /\ c0 = Cursor (rev pre ++ bef) post []
      /\ Matches r (rev pre ++ bef, post) (before c1, after c1).
Proof.
  induction aft as [|x t IH]; intros bef c0 c1 H; cbn [search] in H.
  - destruct (match_at r bef []) eqn:E; [|discriminate].
    injection H as <- <-. exists [], []. repeat split.
    apply match_at_sound; exact E.
  - destruct (match_at r bef (x :: t)) eqn:E.
    + injection H as <- <-. exists [], (x :: t). repeat split.
      apply match_at_sound; exact E.
    + apply IH in H. destruct H as (pre & post & -> & -> & Hm).
      exists (x :: pre), post. cbn [rev app]. rewrite <- app_assoc.
      repeat split. exact Hm.
Qed.

Lemma match_at_complete (r : regex) (bef aft : list N) (p : position) :
  Matches r (bef, aft) p -> match_at r bef aft <> None.
Proof.
  intros H. unfold match_at.
  apply (@run_complete r _ _ H (fun c => Some c) []).
  intros caps'. discriminate.
Qed.

(** The search finds a match whenever the regex matches somewhere in the
    text. *)
Lemma search_complete (r : regex) :
  forall pre post bef p,
    Matches r (rev pre ++ bef, post) p -> search r bef (pre ++ post) <> None.
Proof.
  induction pre as [|x pre IH]; intros post bef p H.
  - cbn [rev app] in *. apply match_at_complete in H.
    destruct post; cbn [search]; destruct (match_at r bef _);
      congruence.
  - cbn [app search]. destruct (match_at r bef (x :: pre ++ post));
      [discriminate|].
    apply (IH post (x :: bef) p). cbn [rev] in H. rewrite <- app_assoc in H.
    exact H.
Qed.

(** [re.test(s)] says whether the regex matches somewhere in [s]. *)
Lemma test_iff (r : regex) (s : jsstring) :
  test r s = true <->
  exists pre post p, s = pre ++ post /\ Matches r (rev pre, post) p.
Proof.
  unfold test, exec. split.
  - destruct (search r [] s) as [[c0 c1]|] eqn:E; [|discriminate].
    intros _. apply search_sound in E.
    destruct E as (pre & post & -> & _ & Hm).
    rewrite app_nil_r in Hm. eauto.
  - intros (pre & post & p & -> & Hm).
    pose proof (@search_complete r pre post [] p) as Hc.
    rewrite app_nil_r in Hc. specialize (Hc Hm).
    destruct (search r [] (pre ++ post)); congruence.
Qed.

(** *** The EAN and SKU rules, exactly *)

Import CodePrefix.

Ltac inv_seq H Ha Hb :=
  let pm := fresh "pm" in
  inversion H as [| |? ? ? pm ? Ha Hb| | | | | | | |]; subst; clear H;
  try (destruct pm as [? ?]).

Lemma Matches_rep_chars (f : N -> bool) (n : nat) :
  forall bef aft p,
    Matches (rep n (Char f)) (bef, aft) p ->
    exists xs,
      length xs = n /\ forallb f xs = true
      /\ aft = xs ++ snd p /\ fst p = rev xs ++ bef.
Proof.
  induction n as [|n IH]; intros bef aft p H; cbn [rep] in H.
  - inversion H; subst. exists []. repeat split.
  - inv_seq H Ha Hb.
    inversion Ha as [|f' x bef' aft' Hf| | | | | | | | |]; subst.
    apply IH in Hb. destruct Hb as (xs & Hlen & Hall & -> & Hfst).
    exists (x :: xs). cbn [length forallb rev app]. rewrite Hf, Hall, Hlen, Hfst.
    rewrite <- app_assoc. repeat split.
Qed.

Lemma Matches_rep_chars_intro (f : N -> bool) (xs : list N) :
  forall bef aft,
    forallb f xs = true ->
    Matches (rep (length xs) (Char f)) (bef, xs ++ aft) (rev xs ++ bef, aft).
Proof.
  induction xs as [|x xs IH]; intros bef aft H; cbn [length rep].
  - apply M_Empty.
  - cbn in H. apply andb_true_iff in H. destruct H as [Hx Hxs].
    cbn [rev app]. rewrite <- app_assoc. cbn [app].
    eapply M_Seq; [apply M_Char; exact Hx|apply IH; exact Hxs].
Qed.

Lemma Matches_upto_chars (f : N -> bool) (n : nat) :
  forall bef aft p,
    Matches (upto n (Char f)) (bef, aft) p ->
    exists xs,
      length xs <= n /\ forallb f xs = true
      /\ aft = xs ++ snd p /\ fst p = rev xs ++ bef.
Proof.
  induction n as [|n IH]; intros bef aft p H; cbn [upto] in H.
  - inversion H; subst. exists []. repeat split. reflexivity.
  - unfold opt in H.
    inversion H as [| | |ra rb pa pb Hl|ra rb pa pb Hr| | | | | |]; subst.
    + inv_seq Hl Ha Hb.
      inversion Ha as [|f' x bef' aft' Hf| | | | | | | | |]; subst.
      apply IH in Hb. destruct Hb as (xs & Hlen & Hall & -> & Hfst).
      exists (x :: xs). cbn [length forallb rev app].
      rewrite Hf, Hall, Hfst, <- app_assoc. repeat split. lia.
    + inversion Hr; subst. exists []. repeat split. cbn. lia.
Qed.

Lemma Matches_star_chars_inv (f : N -> bool) (p1 p2 : position) :
  Matches (Star (Char f)) p1 p2 ->
  exists xs,
    forallb f xs = true /\ snd p1 = xs ++ snd p2 /\ fst p2 = rev xs ++ fst p1.
Proof.
  intros H. remember (Star (Char f)) as sr eqn:Hsr.
  induction H as [| | | | | |r p1 p2 p3 H1 _ Hlt _ IH2| | | |];
    inversion Hsr; subst.
  - exists []. repeat split.
  - inversion H1 as [|f' x bef aft Hf| | | | | | | | |]; subst.
    destruct (IH2 eq_refl) as (xs & Hall & Hsnd & Hfst).
    cbn [fst snd] in *.
    exists (x :: xs). cbn [forallb rev app]. rewrite Hf, Hall, Hsnd, Hfst.
    rewrite <- app_assoc. repeat split.
Qed.

(** The EAN pattern passes exactly the texts of 8 or 13 digits. *)
Lemma ean_test_iff (q : jsstring) :
  test PATTERNS_EAN q = true <->
  forallb is_digit q = true /\ (length q = 8 \/ length q = 13).
Proof.
  split.
  - intros H. apply test_iff in H. destruct H as (pre & post & p & -> & Hm).
    unfold PATTERNS_EAN in Hm. cbn [seqs] in Hm.
    assert (Hone : forall n,
               Matches (Seq Bol (Seq (rep n digit) Eol)) (rev pre, post) p ->
               forallb is_digit (pre ++ post) = true
               /\ length (pre ++ post) = n).
    { intros n Hn. inv_seq Hn Ha Hb.
      inversion Ha as [| | | | | | | |aft Hbol| |]; subst.
      assert (pre = []) as ->.
      { destruct pre as [|x pre]; [reflexivity|].
        cbn [rev] in *. destruct (rev pre); discriminate. }
      inv_seq Hb Hr He. unfold digit in Hr.
      apply (@Matches_rep_chars is_digit n) in Hr.
      destruct Hr as (xs & Hlen & Hall & Haft & Hfst).
      inversion He as [| | | | | | | | |bef Heol|]; subst.
      cbn [snd app] in *. rewrite app_nil_r. split; [exact Hall|reflexivity]. }
    inversion Hm as [| | |ra rb pa pb Hl|ra rb pa pb Hr| | | | | |]; subst.
    + apply (Hone 8) in Hl. destruct Hl as [Hd Hl]. auto.
    + apply (Hone 13) in Hr. destruct Hr as [Hd Hr]. auto.
  - intros [Hd Hlen]. apply (@test_of_Matches _ _ (rev q, [])).
    unfold PATTERNS_EAN. cbn [seqs].
    assert (Hone : Matches (Seq Bol (Seq (rep (length q) digit) Eol))
                           ([], q) (rev q, [])).
    { eapply M_Seq; [apply M_Bol|].
      eapply M_Seq; [|apply M_Eol].
      pose proof (@Matches_rep_chars_intro is_digit q [] [] Hd) as Hr.
      rewrite !app_nil_r in Hr. exact Hr. }
    destruct Hlen as [Hlen|Hlen]; rewrite Hlen in Hone;
      [apply M_AltL|apply M_AltR]; exact Hone.
Qed.

Lemma letter_i_letter (x : N) :
  is_upper_ascii (canonicalize x) = true -> is_letter_ascii x = true.
Proof.
  assert (H : letter_i_check x = true).
  { destruct (N.ltb_spec x 128) as [Hlt|Hge].
    - revert x Hlt. apply (below_check letter_i_check 128).
      vm_compute. reflexivity.
    - unfold letter_i_check, canonicalize.
      replace (128 <=? x)%N with true by (symmetry; apply N.leb_le; lia).
      cbn [andb].
      destruct (N.ltb_spec (upper_unit x) 128) as [Hu|Hu];
        unfold is_upper_ascii, in_range.
      + replace (x <=? 90)%N with false by (symmetry; apply N.leb_gt; lia).
        rewrite andb_false_r. reflexivity.
      + replace (upper_unit x <=? 90)%N with false
          by (symmetry; apply N.leb_gt; lia).
        rewrite andb_false_r. reflexivity. }
  unfold letter_i_check in H. intros Hc. rewrite Hc in H. exact H.
Qed.

(** The SKU pattern passes exactly the texts that start with two to four
    letters, a separator, letters and a digit. *)
Lemma sku_test_iff (q : jsstring) :
  test PATTERNS_SKU q = true <->
  exists letters sep pre d rest,
    q = letters ++ sep :: pre ++ d :: rest
    /\ code_prefix letters sep pre d = true.
Proof.
  split.
  - intros H. apply test_iff in H. destruct H as (pre0 & post & p & -> & Hm).
    unfold PATTERNS_SKU in Hm. cbn [seqs] in Hm.
    inv_seq Hm Hbol Hm1.
    inversion Hbol as [| | | | | | | |aft Hbol'| |]; subst.
    assert (pre0 = []) as ->.
    { destruct pre0 as [|x pre0]; [reflexivity|].
      cbn [rev] in *. destruct (rev pre0); discriminate. }
    cbn [app]. clear Hbol.
    inv_seq Hm1 Hrange Hm2. unfold rep_range in Hrange.
    inv_seq Hrange Hrep Hupto.
    unfold letter_i in *.
    apply (@Matches_rep_chars
             (fun x : N => is_upper_ascii (canonicalize x)) 2) in Hrep.
    destruct Hrep as (ls1 & Hlen1 & Hall1 & -> & Hfst1). cbn [fst snd] in *.
    subst.
    apply (@Matches_upto_chars
             (fun x : N => is_upper_ascii (canonicalize x)) 2) in Hupto.
    destruct Hupto as (ls2 & Hlen2 & Hall2 & -> & Hfst2). cbn [fst snd] in *.
    subst.
    inv_seq Hm2 Hsepm Hm3. unfold oneof in Hsepm.
    inversion Hsepm as [|f' sep bef' aft' Hsep| | | | | | | | |]; subst.
    inv_seq Hm3 Hstar Hm4.
    apply Matches_star_chars_inv in Hstar.
    destruct Hstar as (pre & Hallp & Hsnd & Hfst). cbn [fst snd] in *.
    subst. inv_seq Hm4 Hdig Hm5. unfold digit in Hdig.
    inversion Hdig as [|f'' d bef'' aft'' Hd| | | | | | | | |]; subst.
    exists (ls1 ++ ls2), sep, pre, d. eexists.
    rewrite <- app_assoc. split; [reflexivity|].
    unfold code_prefix. rewrite length_app, forallb_app, Hd.
    assert (Hl : forall l, forallb (fun x => is_upper_ascii (canonicalize x)) l
                           = true -> forallb is_letter_ascii l = true).
    { intros l. apply forallb_impl. apply letter_i_letter. }
    rewrite (Hl _ Hall1), (Hl _ Hall2), (Hl _ Hallp).
    rewrite orb_false_r in Hsep. unfold is_separator. rewrite Hsep.
    rewrite Hlen1. cbn [Nat.sub] in Hlen2.
    replace (2 <=? 2 + length ls2) with true by (symmetry; apply Nat.leb_le; lia).
    replace (2 + length ls2 <=? 4) with true by (symmetry; apply Nat.leb_le; lia).
    reflexivity.
  - intros (letters & sep & pre & d & rest & -> & H).
    unfold code_prefix in H.
    repeat (apply andb_true_iff in H; destruct H as [H ?]).
    apply Nat.leb_le in H.
    match goal with Hx : (length letters <=? 4) = true |- _ =>
      apply Nat.leb_le in Hx end.
    eapply test_of_Matches.
    unfold PATTERNS_SKU. cbn [seqs].
    eapply M_Seq; [apply M_Bol|].
    eapply M_Seq; [apply Matches_letters; [lia|assumption]|].
    eapply M_Seq.
    { apply M_Char. unfold is_separator in *.
      match goal with Hs : (_ =? _)%N || (_ =? _)%N = true |- _ =>
        apply orb_true_iff in Hs; destruct Hs as [Hs|Hs];
        apply N.eqb_eq in Hs; subst sep; reflexivity end. }
    eapply M_Seq; [apply Matches_star_chars|].
    { match goal with Hp : forallb is_letter_ascii pre = true |- _ =>
        eapply forallb_impl; [|exact Hp] end.
      intros x Hx. apply letter_facts in Hx. tauto. }
    eapply M_Seq; [apply M_Char; assumption|].
    apply M_StarNil.
Qed.

(** *** Trimming, again *)

Lemma trimStart_decomp (s : jsstring) :
  exists ws, s = ws ++ trimStart s /\ forallb is_space ws = true.
Proof.
  induction s as [|c s IH].
  - exists []. split; reflexivity.
  - cbn [trimStart]. destruct (is_space c) eqn:Hc.
    + destruct IH as (ws & Hs & Hws). exists (c :: ws).
      cbn [app forallb]. rewrite Hc, Hws, <- Hs. split; reflexivity.
    + exists []. split; reflexivity.
Qed.

Lemma forallb_rev {A : Type} (f : A -> bool) (l : list A) :
  forallb f (rev l) = forallb f l.
Proof.
  induction l as [|x l IH]; [reflexivity|].
  cbn [rev forallb]. rewrite forallb_app, IH. cbn [forallb].
  rewrite andb_true_r. apply andb_comm.
Qed.

Lemma trimEnd_decomp (s : jsstring) :
  exists ws, s = trimEnd s ++ ws /\ forallb is_space ws = true.
Proof.
  unfold trimEnd. destruct (trimStart_decomp (rev s)) as (ws & Hs & Hws).
  exists (rev ws). rewrite forallb_rev. split; [|exact Hws].
  rewrite <- rev_app_distr, <- Hs. symmetry. apply rev_involutive.
Qed.

Lemma trimStart_app_spaces (ws s : jsstring) :
  forallb is_space ws = true -> trimStart (ws ++ s) = trimStart s.
Proof.
  induction ws as [|c ws IH]; [reflexivity|]. cbn [forallb app trimStart].
  intros H. apply andb_true_iff in H. destruct H as [Hc Hws].
  rewrite Hc. auto.
Qed.

Lemma trimEnd_app_spaces (s ws : jsstring) :
  forallb is_space ws = true -> trimEnd (s ++ ws) = trimEnd s.
Proof.
  intros H. unfold trimEnd. rewrite rev_app_distr.
  rewrite trimStart_app_spaces; [reflexivity|]. rewrite forallb_rev. exact H.
Qed.

(** White space around a text does not change its trimmed form. *)
Lemma trim_padded (ws1 s ws2 : jsstring) :
  forallb is_space ws1 = true -> forallb is_space ws2 = true ->
  trim (ws1 ++ s ++ ws2) = trim s.
Proof.
  intros H1 H2. unfold trim. rewrite trimStart_app_spaces by exact H1.
  induction s as [|c s IH].
  - cbn [app]. rewrite trimStart_spaces by exact H2. reflexivity.
  - cbn [app trimStart]. destruct (is_space c); [exact IH|].
    apply (@trimEnd_app_spaces (c :: s) ws2 H2).
Qed.

Lemma trim_decomp (s : jsstring) :
  exists ws1 ws2,
    s = ws1 ++ trim s ++ ws2
    /\ forallb is_space ws1 = true /\ forallb is_space ws2 = true.
Proof.
  destruct (trimStart_decomp s) as (ws1 & Hs & H1).
  destruct (trimEnd_decomp (trimStart s)) as (ws2 & Hs2 & H2).
  exists ws1, ws2. unfold trim. rewrite <- Hs2. auto.
Qed.

Lemma trim_idempotent (s : jsstring) : trim (trim s) = trim s.
Proof.
  destruct (trim_decomp s) as (ws1 & ws2 & Hs & H1 & H2).
  rewrite Hs at 2. symmetry. apply trim_padded; assumption.
Qed.

(** *** The rules of the classifier *)

Lemma classifyIntent_type_EAN (query : jsstring) :
  type (classifyIntent query) = EAN <-> test PATTERNS_EAN (trim query) = true.
Proof.
  unfold classifyIntent. cbv zeta. rewrite or_else_empty.
  destruct (test PATTERNS_EAN (trim query)).
  - split; reflexivity.
  - split; [|discriminate]. case_rules; cbn; discriminate.
Qed.

Lemma classifyIntent_type_SKU (query : jsstring) :
  type (classifyIntent query) = SKU <->
  test PATTERNS_EAN (trim query) = false
  /\ test PATTERNS_SKU (trim query) = true.
Proof.
  unfold classifyIntent. cbv zeta. rewrite or_else_empty.
  destruct (test PATTERNS_EAN (trim query)).
  - split; [discriminate|intros [H _]; discriminate].
  - destruct (test PATTERNS_SKU (trim query)).
    + split; auto.
    + split; [|intros [_ H]; discriminate]. case_rules; cbn; discriminate.
Qed.

(** X1. A text is classified as EAN exactly when, once trimmed, it consists
    of 8 or of 13 decimal digits. *)
Theorem classifyIntent_ean_iff (query : jsstring) :
  type (classifyIntent query) = EAN <->
  forallb is_digit (trim query) = true
  /\ (length (trim query) = 8 \/ length (trim query) = 13).
Proof.
  rewrite classifyIntent_type_EAN. apply ean_test_iff.
Qed.

(** X2. A text is classified as SKU exactly when, once trimmed, it starts
    with two to four ASCII letters, a separator [-] or [_], any number of
    ASCII letters and a digit; what follows the digit does not matter. *)
Theorem classifyIntent_sku_iff (query : jsstring) :
  type (classifyIntent query) = SKU <->
  exists letters sep pre d rest,
    trim query = letters ++ sep :: pre ++ d :: rest
    /\ code_prefix letters sep pre d = true.
Proof.
  rewrite classifyIntent_type_SKU, sku_test_iff. split.
  - intros [_ H]. exact H.
  - intros H. split; [|exact H].
    destruct H as (letters & sep & pre & d & rest & -> & H).
    unfold code_prefix in H.
    repeat (apply andb_true_iff in H; destruct H as [H ?]).
    apply Nat.leb_le in H.
    destruct letters as [|a letters]; [cbn in H; lia|].
    match goal with Hl : forallb is_letter_ascii (a :: letters) = true |- _ =>
      cbn [forallb] in Hl; apply andb_true_iff in Hl; destruct Hl as [Ha Hl] end.
    apply letter_facts in Ha. destruct Ha as (_ & Hnd & _).
    apply (@ean_rejects_non_digit a _ Hnd).
Qed.

(** X3. White space before and after the text does not change the
    classification. *)
Theorem classifyIntent_ignores_padding (ws1 query ws2 : jsstring) :
  forallb is_space ws1 = true -> forallb is_space ws2 = true ->
  classifyIntent (ws1 ++ query ++ ws2) = classifyIntent query.
Proof.
  intros H1 H2. unfold classifyIntent. cbv zeta.
  rewrite !or_else_empty, (@trim_padded ws1 query ws2 H1 H2). reflexivity.
Qed.

Lemma classifyIntent_ignores_padding_witness :
  classifyIntent (lit "  " ++ lit "canon eos r6" ++ [9; 10]%N)
  = classifyIntent (lit "canon eos r6").
Proof.
  apply (@classifyIntent_ignores_padding (lit "  ") (lit "canon eos r6")
           [9; 10]%N); reflexivity.
Defined.

(** *** What the classifier puts into an intent *)

Lemma map_get_In {A : Type} (m : list (jsstring * A)) (key : jsstring) (v : A) :
  map_get m key = Some v -> In v (map snd m).
Proof.
  induction m as [|[k w] m IH]; [discriminate|]. cbn [map_get map snd].
  destruct (JsString.eqb k key).
  - intros H. injection H as <-. left; reflexivity.
  - intros H. right. auto.
Qed.

Lemma prefix_lookup_In (m : list (jsstring * option jsstring))
  (word : jsstring) (c : option jsstring) :
  prefix_lookup m word = Some c -> In c (map snd m).
Proof.
  induction m as [|[k w] m IH]; [discriminate|]. cbn [prefix_lookup map snd].
  destruct (startsWith k word && (4 <=? length word)).
  - intros H. injection H as <-. left; reflexivity.
  - intros H. right. auto.
Qed.

Lemma detectAccessoryCategory_words_In (words : list jsstring) (c : jsstring) :
  detectAccessoryCategory_words words = Some c ->
  In (Some c) (map snd ACCESSORY_TO_CATEGORY).
Proof.
  induction words as [|w words IH]; [discriminate|].
  cbn [detectAccessoryCategory_words].
  destruct (map_get ACCESSORY_TO_CATEGORY w) as [cat|] eqn:E1.
  - intros ->. apply (map_get_In _ _ E1).
  - destruct (prefix_lookup ACCESSORY_TO_CATEGORY w) as [cat|] eqn:E2.
    + intros ->. apply (prefix_lookup_In _ _ E2).
    + exact IH.
Qed.

Lemma parseDigits_nonneg (s : jsstring) : (0 <= parseDigits s)%Z.
Proof.
  unfold parseDigits.
  assert (H : forall acc, (0 <= acc)%Z ->
            (0 <= fold_left (fun a c => a * 10 + Z.of_N (c - 48)) s acc)%Z).
  { induction s as [|c s IH]; intros acc Hacc; cbn [fold_left]; [exact Hacc|].
    apply IH. lia. }
  apply H. lia.
Qed.

Lemma parse_maxPrice_pos (m : cursor * cursor) (n : Z) :
  parse_maxPrice m = Some n -> (0 < n)%Z.
Proof.
  unfold parse_maxPrice.
  destruct (match group m 1 with
            | Some s => if truthy s then Some s else group m 2
            | None => group m 2
            end) as [s|]; [|discriminate].
  cbv zeta. destruct (Z.eqb_spec (parseDigits s) 0); [discriminate|].
  intros H. injection H as <-. pose proof (parseDigits_nonneg s). lia.
Qed.

Ltac classifier_rules q :=
  unfold classifyIntent; cbv zeta; rewrite or_else_empty;
  set (q := trim _);
  destruct (test PATTERNS_EAN q);
  [|destruct (test PATTERNS_SKU q);
    [|destruct (exec BRAND_PATTERN q) as [?bm|];
      [destruct (test alnum_i (trim (after (snd bm))))
      |destruct (inferBrandFromModel q) as [[?ib ?ibody]|];
       [|match goal with
         | |- context [if ?c then intent PARAMETRIC _ _ _ else _] =>
             destruct c
         end;
         [|destruct (map_get CATEGORY_NAMES (toLowerCase q)) as [?c|] eqn:?Ec;
           [|destruct (exec PATTERNS_PRICE q) as [?pm|]]]]]]];
  cbn [type query modelQuery brand isBodyQuery conditionPref wantsAccessories
       accessoryCategory category maxPrice params intent intent_MODEL
       intent_BRAND intent_CATEGORY intent_PRICE].

Lemma classifyIntent_brand (query : jsstring) :
  type (classifyIntent query) = BRAND ->
  exists b, brand (classifyIntent query) = Some b.
Proof. classifier_rules q; intros H; try discriminate; eauto. Qed.

Lemma classifyIntent_maxPrice (query : jsstring) (n : Z) :
  maxPrice (classifyIntent query) = Some (Some n) ->
  type (classifyIntent query) = PRICE /\ (0 < n)%Z.
Proof.
  classifier_rules q; intros H; try discriminate.
  injection H as H. apply parse_maxPrice_pos in H. auto.
Qed.

Lemma price_query_empty (q : jsstring) :
  or_else (trim (replace PATTERNS_PRICE [] q)) q = [] <-> q = [].
Proof.
  split.
  - unfold or_else. destruct (trim (replace PATTERNS_PRICE [] q));
      [auto|discriminate].
  - intros ->. vm_compute. reflexivity.
Qed.

(** X4. The optional properties of an intent follow its type: a MODEL
    intent carries a brand, a model text and the body flag, a BRAND intent
    a brand, a CATEGORY intent one of the catalogue's categories, and
    only a PRICE intent a price limit, which is positive when it is not
    [null]. Every intent carries a [query], which is empty only for a
    blank text. *)
Theorem classifyIntent_fields (raw : jsstring) :
  let i := classifyIntent raw in
  (type i = MODEL ->
     exists b m f, brand i = Some b /\ modelQuery i = Some m
                   /\ isBodyQuery i = Some f)
  /\ (type i = BRAND -> exists b, brand i = Some b)
  /\ (type i = CATEGORY ->
        exists c, category i = Some c /\ In c (map snd CATEGORY_NAMES))
  /\ (forall n, maxPrice i = Some (Some n) -> type i = PRICE /\ (0 < n)%Z)
  /\ (type i = PRICE -> exists p, maxPrice i = Some p)
  /\ (exists x, query i = Some x /\ (x = [] <-> trim raw = [])).
Proof.
  cbv zeta.
  split; [|split; [apply classifyIntent_brand|split; [|split; [|split]]]].
  - classifier_rules q; intros H; try discriminate; eauto 10.
  - classifier_rules q; intros H; try discriminate.
    eexists. split; [reflexivity|]. eapply map_get_In. eassumption.
  - intros n. apply classifyIntent_maxPrice.
  - classifier_rules q; intros H; try discriminate; eauto.
  - classifier_rules q; eexists; (split; [reflexivity|]);
      first [apply price_query_empty|tauto].
Qed.

(** X5. The accessory properties of an intent are consistent: an intent
    for accessories is never a body query, and an accessory category is
    only set on an intent for accessories and is one of the categories of
    the accessory table. *)
Theorem classifyIntent_accessories (query : jsstring) :
  let i := classifyIntent query in
  (wantsAccessories i = Some true -> isBodyQuery i <> Some true)
  /\ (forall c, accessoryCategory i = Some (Some c) ->
        wantsAccessories i = Some true
        /\ In (Some c) (map snd ACCESSORY_TO_CATEGORY)).
Proof.
  cbv zeta. unfold classifyIntent. cbv zeta. rewrite or_else_empty.
  set (q := trim query).
  assert (Hcat : forall c,
             (if detectAccessoryPreference q then detectAccessoryCategory q
              else None) = Some c ->
             detectAccessoryPreference q = true
             /\ In (Some c) (map snd ACCESSORY_TO_CATEGORY)).
  { intros c. destruct (detectAccessoryPreference q); [|discriminate].
    intros H. split; [reflexivity|].
    apply (detectAccessoryCategory_words_In _ H). }
  destruct (test PATTERNS_EAN q);
    [cbn; split; intros; discriminate|].
  destruct (test PATTERNS_SKU q);
    [cbn; split; intros; discriminate|].
  destruct (exec BRAND_PATTERN q) as [bm|].
  { destruct (test alnum_i (trim (after (snd bm)))); cbn; split.
    - intros H. injection H as ->. discriminate.
    - intros c H. injection H as H. apply Hcat in H.
      destruct H as [-> H]. auto.
    - discriminate.
    - intros c H. injection H as H. apply Hcat in H.
      destruct H as [-> H]. auto. }
  destruct (inferBrandFromModel q) as [[ib ibody]|].
  { cbn; split.
    - intros H. injection H as ->. discriminate.
    - intros c H. injection H as H. apply Hcat in H.
      destruct H as [-> H]. auto. }
  case_rules; cbn; split; intros; discriminate.
Qed.

(** *** The classifier and the query builder together *)

Lemma buildIntentQuery_classified (raw query : jsstring) :
  exists bq, buildIntentQuery raw (classifyIntent query) = Ok bq.
Proof.
  pose proof (classifyIntent_brand query) as Hb.
  unfold buildIntentQuery.
  destruct (type (classifyIntent query)); eauto.
  - destruct (_ && _); eauto.
  - destruct (Hb eq_refl) as (b & ->). eauto.
  - destruct (negb _); eauto.
  - destruct (truthy_opt _); eauto. destruct (JsString.eqb _ _); eauto.
Qed.

(** X6. The query builder does not throw on an intent that comes from the
    classifier, whatever the text it is asked to search for: the only
    branch that can throw, BRAND without a brand, is never reached. *)
Theorem buildSearchQuery_classified_ok (raw query : jsstring) (o : Options) :
  (exists bq, buildIntentQuery raw (classifyIntent query) = Ok bq)
  /\ (exists b, buildSearchQuery raw (classifyIntent query) o = Ok b).
Proof.
  destruct (buildIntentQuery_classified raw query) as (bq & H).
  split; [exists bq; exact H|].
  unfold buildSearchQuery. rewrite H. eauto.
Qed.

(** *** The search handler *)

Import SearchRoute SearchHandler.

Lemma search_request_run (qs : Querystring) :
  let q := q_of qs in
  let i := classifyIntent q in
  exists base,
    buildIntentQuery q i = Ok base
    /\ search_request qs =
       Ok {| from := Some ((page_of qs - 1) * per_page_of qs)%Z;
             size := Some (per_page_of qs);
             body_query :=
               Some (wrapWithFunctionScore
                       (bool_ [base] []
                          (buildFilterClauses
                             (with_intent_price (request_filters qs) i)
                           ++ buildParamFilters
                                (match type i with
                                 | COMPOUND => []
                                 | PARAMETRIC =>
                                     match params i with
                                     | Some p => p
                                     | None => extractParams q
                                     end
                                 | _ => match params i with
                                        | Some p => p
                                        | None => []
                                        end
                                 end))
                          None)
                       (Some i));
             aggs := SEARCH_AGGS;
             _source := SEARCH_SOURCE;
             sort := if negb (JsString.eqb (sort_of qs) (lit "relevance"))
                     then Some (buildSortClause (sort_of qs)) else None;
             body_suggest := None |}.
Proof.
  intros q i.
  destruct (buildIntentQuery_classified q q) as (base & Hbase).
  exists base. split; [exact Hbase|].
  unfold search_request. fold q. fold i. unfold buildSearchQuery.
  cbn [filters page perPage o_sort]. fold i in Hbase. rewrite Hbase.
  reflexivity.
Qed.

(** X7. For every query string that the schema accepts, the handler sends
    a well-formed request: building it does not throw, [from] is
    [(page - 1) * per_page] and is not negative, [size] is between 1 and
    100, the query is the query of the classified text, alone in the
    [must] of a [bool] with the filter clauses, inside the ranking
    envelope of the intent, and there is a [sort] clause exactly when the
    sort order is not [relevance]. *)
Theorem search_request_accepted (qs : Querystring) :
  schema_accepts qs = true ->
  exists b base flt fs,
    search_request qs = Ok b
    /\ from b = Some ((page_of qs - 1) * per_page_of qs)%Z
    /\ (0 <= (page_of qs - 1) * per_page_of qs)%Z
    /\ size b = Some (per_page_of qs)
    /\ (1 <= per_page_of qs <= 100)%Z
    /\ buildIntentQuery (q_of qs) (classifyIntent (q_of qs)) = Ok base
    /\ body_query b
       = Some (function_score (bool_ [base] [] flt None) fs
                 (lit "multiply") (lit "multiply"))
    /\ fs = functions_of
              (wrapWithFunctionScore base (Some (classifyIntent (q_of qs))))
    /\ (sort b = None <-> sort_of qs = lit "relevance").
Proof.
  intros Hacc. destruct (search_request_run qs) as (base & Hbase & Hrun).
  unfold schema_accepts in Hacc.
  repeat (apply andb_true_iff in Hacc; destruct Hacc as [Hacc ?]).
  assert (Hpage : (1 <= page_of qs)%Z).
  { unfold page_of. destruct (qs_page qs) as [p|]; [|lia].
    match goal with Hp : opt_ok _ (Some p) = true |- _ =>
      cbn in Hp; apply Z.leb_le in Hp; exact Hp end. }
  assert (Hper : (1 <= per_page_of qs <= 100)%Z).
  { unfold per_page_of. destruct (qs_per_page qs) as [p|]; [|lia].
    match goal with Hp : opt_ok _ (Some p) = true |- _ =>
      cbn in Hp; apply andb_true_iff in Hp; destruct Hp as [Hlo Hhi];
      apply Z.leb_le in Hlo, Hhi; lia end. }
  eexists. exists base. eexists. eexists.
  split; [exact Hrun|]. cbn [from size body_query sort].
  split; [reflexivity|]. split; [nia|]. split; [reflexivity|].
  split; [exact Hper|]. split; [exact Hbase|]. split; [reflexivity|].
  split; [reflexivity|].
  destruct (eqb_spec (sort_of qs) (lit "relevance")) as [He|Hne]; cbn [negb].
  - split; auto.
  - split; [discriminate|]. intros He. contradiction.
Qed.

Lemma search_request_accepted_witness :
  exists b base flt fs,
    search_request
      {| qs_q := Some (lit "canon eos r6"); qs_page := Some 3%Z;
         qs_per_page := None; qs_sort := Some (lit "price_asc");
         qs_brand := None; qs_category := None; qs_availability := None;
         qs_price_min := None; qs_price_max := None; qs_mount := None |}
    = Ok b
    /\ from b = Some 40%Z
    /\ body_query b
       = Some (function_score (bool_ [base] [] flt None) fs
                 (lit "multiply") (lit "multiply")).
Proof.
  destruct (@search_request_accepted
              {| qs_q := Some (lit "canon eos r6"); qs_page := Some 3%Z;
                 qs_per_page := None; qs_sort := Some (lit "price_asc");
                 qs_brand := None; qs_category := None;
                 qs_availability := None; qs_price_min := None;
                 qs_price_max := None; qs_mount := None |} eq_refl)
    as (b & base & flt & fs & H1 & H2 & _ & _ & _ & _ & H3 & _).
  exists b, base, flt, fs. split; [exact H1|]. split; [exact H2|exact H3].
Defined.

(** X8. A price limit found in the text becomes the upper bound of the
    price filter of the request, in place of the [price_max] parameter of
    the query string; the lower bound stays the [price_min] parameter. *)
Theorem search_request_price_limit (qs : Querystring) (n : Z) :
  maxPrice (classifyIntent (q_of qs)) = Some (Some n) ->
  exists b base flt fs,
    search_request qs = Ok b
    /\ body_query b
       = Some (function_score (bool_ [base] [] flt None) fs
                 (lit "multiply") (lit "multiply"))
    /\ In (range (lit "price") (option_map VNum (qs_price_min qs))
                 (Some (VNum (inject_Z n)))) flt.
Proof.
  intros Hmax. destruct (search_request_run qs) as (base & _ & Hrun).
  cbv zeta in Hrun.
  set (i := classifyIntent _) in *.
  destruct (classifyIntent_maxPrice _ Hmax) as [Hty Hpos]. fold i in Hty.
  eexists. exists base. eexists. eexists.
  split; [exact Hrun|]. cbn [body_query]. split; [reflexivity|].
  apply in_or_app. left. unfold with_intent_price. rewrite Hty, Hmax.
  replace (n =? 0)%Z with false by (symmetry; apply Z.eqb_neq; lia).
  unfold buildFilterClauses. cbn [price_min price_max request_filters].
  repeat (apply in_or_app; right).
  destruct (qs_price_min qs); left; reflexivity.
Qed.

Lemma search_request_price_limit_witness :
  exists b base flt fs,
    search_request
      {| qs_q := Some (lit "statyw do 300 zł"); qs_page := None;
         qs_per_page := None; qs_sort := None;
         qs_brand := None; qs_category := None; qs_availability := None;
         qs_price_min := None; qs_price_max := Some 1000%Q;
         qs_mount := None |}
    = Ok b
    /\ body_query b
       = Some (function_score (bool_ [base] [] flt None) fs
                 (lit "multiply") (lit "multiply"))
    /\ In (range (lit "price") None (Some (VNum 300%Q))) flt.
Proof.
  apply (@search_request_price_limit
           {| qs_q := Some (lit "statyw do 300 zł"); qs_page := None;
              qs_per_page := None; qs_sort := None;
              qs_brand := None; qs_category := None; qs_availability := None;
              qs_price_min := None; qs_price_max := Some 1000%Q;
              qs_mount := None |} 300%Z).
  vm_compute. reflexivity.
Defined.

(** *** Collapsing white space *)

Import Spacing.

Lemma run_Char_cons (f : N -> bool) (k : K) (bef : list N) (x : N)
  (t : list N) (cs : list (nat * jsstring)) :
  run (Char f) k (Cursor bef (x :: t) cs)
  = if f x then k (Cursor (x :: bef) t cs) else None.
Proof. reflexivity. Qed.

Lemma run_Char_nil (f : N -> bool) (k : K) (bef : list N)
  (cs : list (nat * jsstring)) :
  run (Char f) k (Cursor bef [] cs) = None.
Proof. reflexivity. Qed.

Lemma star_loop_chars (f : N -> bool) (xs : list N) :
  forall rest bef cs fuel,
    forallb f xs = true ->
    match rest with [] => true | y :: _ => negb (f y) end = true ->
    length (xs ++ rest) < fuel ->
    star_loop (run (Char f)) (fun c => Some c) fuel (Cursor bef (xs ++ rest) cs)
    = Some (Cursor (rev xs ++ bef) rest cs).
Proof.
  induction xs as [|x xs IH]; intros rest bef cs fuel Hall Hrest Hfuel;
    (destruct fuel as [|fuel]; [lia|]); cbn [star_loop app rev].
  - destruct rest as [|y rest];
      [rewrite run_Char_nil; reflexivity|rewrite run_Char_cons].
    apply negb_true_iff in Hrest. rewrite Hrest. reflexivity.
  - cbn [forallb] in Hall. apply andb_true_iff in Hall.
    destruct Hall as [Hx Hxs].
    rewrite run_Char_cons, Hx.
    unfold remaining. cbn [after].
    replace (length (xs ++ rest) <? length (x :: xs ++ rest)) with true
      by (symmetry; apply Nat.ltb_lt; cbn [length]; lia).
    rewrite (IH rest (x :: bef) cs fuel Hxs Hrest)
      by (cbn [app length] in Hfuel; lia).
    rewrite <- app_assoc. reflexivity.
Qed.

Lemma match_at_spaces (sp rest bef : list N) :
  forallb is_space sp = true -> sp <> [] -> no_lead_space rest = true ->
  match_at SPACES bef (sp ++ rest)
  = Some (Cursor (rev sp ++ bef) rest []).
Proof.
  intros Hsp Hne Hrest. destruct sp as [|x sp]; [contradiction|].
  cbn [forallb] in Hsp. apply andb_true_iff in Hsp. destruct Hsp as [Hx Hsp].
  unfold match_at, SPACES, plus, space. cbn [app].
  change (run (Seq (Char is_space) (Star (Char is_space))) (fun c => Some c)
            (Cursor bef (x :: sp ++ rest) []))
    with (run (Char is_space) (run (Star (Char is_space)) (fun c => Some c))
            (Cursor bef (x :: sp ++ rest) [])).
  rewrite run_Char_cons, Hx.
  change (run (Star (Char is_space)) (fun c => Some c)
            (Cursor (x :: bef) (sp ++ rest) []))
    with (star_loop (run (Char is_space)) (fun c => Some c)
            (S (length (sp ++ rest))) (Cursor (x :: bef) (sp ++ rest) [])).
  rewrite (@star_loop_chars is_space sp rest (x :: bef) []
             (S (length (sp ++ rest))) Hsp Hrest) by lia.
  cbn [rev]. rewrite <- app_assoc. reflexivity.
Qed.

Lemma match_at_spaces_none (bef aft : list N) :
  no_lead_space aft = true -> match_at SPACES bef aft = None.
Proof.
  intros H. unfold match_at, SPACES, plus, space. cbn [run after].
  destruct aft as [|y aft]; [reflexivity|]. cbn in H.
  apply negb_true_iff in H. rewrite H. reflexivity.
Qed.

Lemma search_spaces_none (s : jsstring) :
  forall bef, forallb (fun c => negb (is_space c)) s = true ->
    search SPACES bef s = None.
Proof.
  induction s as [|c s IH]; intros bef H; cbn [search].
  - rewrite match_at_spaces_none; reflexivity.
  - cbn [forallb] in H. apply andb_true_iff in H. destruct H as [Hc Hs].
    rewrite match_at_spaces_none by exact Hc. apply IH; exact Hs.
Qed.

Lemma search_spaces_hit (ns sp rest : list N) :
  forall bef,
    forallb (fun c => negb (is_space c)) ns = true ->
    forallb is_space sp = true -> sp <> [] -> no_lead_space rest = true ->
    search SPACES bef (ns ++ sp ++ rest)
    = Some (Cursor (rev ns ++ bef) (sp ++ rest) [],
            Cursor (rev sp ++ rev ns ++ bef) rest []).
Proof.
  induction ns as [|c ns IH]; intros bef Hns Hsp Hne Hrest.
  - cbn [app rev].
    assert (Hm := @match_at_spaces sp rest bef Hsp Hne Hrest).
    destruct (sp ++ rest); cbn [search]; rewrite Hm; reflexivity.
  - cbn [forallb] in Hns. apply andb_true_iff in Hns.
    destruct Hns as [Hc Hns]. cbn [app search].
    rewrite match_at_spaces_none by exact Hc.
    rewrite (IH (c :: bef) Hns Hsp Hne Hrest). cbn [rev].
    rewrite <- !app_assoc. reflexivity.
Qed.

Lemma no_lead_trimStart (s : jsstring) : no_lead_space (trimStart s) = true.
Proof.
  induction s as [|c s IH]; [reflexivity|]. cbn [trimStart].
  destruct (is_space c) eqn:Hc; [exact IH|]. cbn. rewrite Hc. reflexivity.
Qed.

(** A text has no white space, or splits at its first run of white
    space. *)
Lemma first_spaces (s : jsstring) :
  forallb (fun c => negb (is_space c)) s = true
  \/ exists ns sp rest,
       s = ns ++ sp ++ rest
       /\ forallb (fun c => negb (is_space c)) ns = true
       /\ forallb is_space sp = true /\ sp <> []
       /\ no_lead_space rest = true.
Proof.
  induction s as [|c s IH]; [left; reflexivity|].
  destruct (is_space c) eqn:Hc.
  - right. destruct (trimStart_decomp s) as (ws & Hs & Hws).
    exists [], (c :: ws), (trimStart s). cbn [app forallb].
    rewrite Hc, Hws, <- Hs. repeat split; [discriminate|].
    apply no_lead_trimStart.
  - destruct IH as [IH|(ns & sp & rest & -> & Hns & Hsp & Hne & Hrest)].
    + left. cbn [forallb]. rewrite Hc, IH. reflexivity.
    + right. exists (c :: ns), sp, rest. cbn [app forallb].
      rewrite Hc, Hns. repeat split; assumption.
Qed.

Lemma collapse_words (ns s : jsstring) (b : bool) :
  forallb (fun c => negb (is_space c)) ns = true -> ns <> [] \/ b = false ->
  collapse_from b (ns ++ s) = ns ++ collapse_from false s.
Proof.
  revert b. induction ns as [|c ns IH]; intros b Hns Hb.
  - destruct Hb as [Hb|Hb]; [contradiction|]. subst b. reflexivity.
  - cbn [forallb] in Hns. apply andb_true_iff in Hns.
    destruct Hns as [Hc Hns]. apply negb_true_iff in Hc.
    cbn [app collapse_from]. rewrite Hc. f_equal. apply IH; auto.
Qed.

Lemma collapse_all_words (s : jsstring) :
  forallb (fun c => negb (is_space c)) s = true -> collapse s = s.
Proof.
  intros H. unfold collapse.
  rewrite <- (app_nil_r s) at 1. rewrite collapse_words by auto.
  cbn [collapse_from]. apply app_nil_r.
Qed.

Lemma collapse_from_no_lead (s : jsstring) (b : bool) :
  no_lead_space s = true -> collapse_from b s = collapse_from false s.
Proof.
  destruct s as [|c s]; [reflexivity|]. cbn. intros H.
  apply negb_true_iff in H. rewrite H. reflexivity.
Qed.

Lemma collapse_spaces (sp rest : jsstring) :
  forallb is_space sp = true -> no_lead_space rest = true ->
  collapse_from true (sp ++ rest) = collapse_from false rest.
Proof.
  induction sp as [|c sp IH]; intros Hsp Hrest.
  - apply collapse_from_no_lead; exact Hrest.
  - cbn [forallb] in Hsp. apply andb_true_iff in Hsp.
    destruct Hsp as [Hc Hsp]. cbn [app collapse_from]. rewrite Hc. auto.
Qed.

Lemma collapse_run (ns sp rest : jsstring) :
  forallb (fun c => negb (is_space c)) ns = true ->
  forallb is_space sp = true -> sp <> [] -> no_lead_space rest = true ->
  collapse (ns ++ sp ++ rest) = ns ++ 32%N :: collapse rest.
Proof.
  intros Hns Hsp Hne Hrest. unfold collapse.
  rewrite collapse_words by auto. f_equal.
  destruct sp as [|c sp]; [contradiction|].
  cbn [forallb] in Hsp. apply andb_true_iff in Hsp. destruct Hsp as [Hc Hsp].
  cbn [app collapse_from]. rewrite Hc. f_equal.
  apply collapse_spaces; assumption.
Qed.

Lemma firstn_skipped (ns tl : list N) :
  firstn (length (ns ++ tl) - length tl) (ns ++ tl) = ns.
Proof.
  rewrite length_app. replace (length ns + length tl - length tl)
    with (length ns + 0) by lia.
  rewrite firstn_app_2. cbn [firstn]. apply app_nil_r.
Qed.

Lemma replace_from_spaces (fuel : nat) :
  forall aft bef, length aft < fuel ->
    replace_from SPACES (fun _ => lit " ") fuel bef aft = collapse aft.
Proof.
  induction fuel as [|fuel IH]; intros aft bef Hfuel; [lia|].
  cbn [replace_from].
  destruct (first_spaces aft)
    as [Hall|(ns & sp & rest & -> & Hns & Hsp & Hne & Hrest)].
  - rewrite search_spaces_none by exact Hall.
    symmetry. apply collapse_all_words; exact Hall.
  - rewrite (@search_spaces_hit ns sp rest bef Hns Hsp Hne Hrest).
    unfold remaining. cbn [after before].
    rewrite firstn_skipped.
    assert (Hlen : length rest < length (sp ++ rest)).
    { rewrite length_app. destruct sp; [contradiction|cbn [length]; lia]. }
    apply Nat.ltb_lt in Hlen as Hlt. rewrite Hlt.
    rewrite IH by (rewrite !length_app in Hfuel; rewrite length_app in Hlen; lia).
    rewrite collapse_run by assumption. reflexivity.
Qed.

(** [s.replace(/\s+/g, ' ')] replaces every run of white space by one
    space. *)
Lemma replaceAll_spaces (s : jsstring) :
  replaceAll SPACES (lit " ") s = collapse s.
Proof.
  unfold replaceAll, replaceAllWith. apply replace_from_spaces. lia.
Qed.

(** *** Texts in normal form *)

Lemma trimStart_snoc (l : jsstring) (c : N) :
  trimStart (l ++ [c])
  = if forallb is_space l then (if is_space c then [] else [c])
    else trimStart l ++ [c].
Proof.
  induction l as [|x l IH]; cbn [app trimStart forallb].
  - destruct (is_space c); reflexivity.
  - destruct (is_space x); [exact IH|reflexivity].
Qed.

Lemma trimEnd_cons (c : N) (t : jsstring) :
  trimEnd (c :: t)
  = if forallb is_space (c :: t) then [] else c :: trimEnd t.
Proof.
  unfold trimEnd. cbn [rev forallb]. rewrite trimStart_snoc, forallb_rev.
  destruct (forallb is_space t) eqn:Ht.
  - rewrite andb_true_r. destruct (is_space c); [reflexivity|].
    rewrite trimStart_spaces by (rewrite forallb_rev; exact Ht). reflexivity.
  - rewrite andb_false_r, rev_app_distr. reflexivity.
Qed.

Lemma trimEnd_nil_spaces (t : jsstring) :
  trimEnd t = [] -> forallb is_space t = true.
Proof.
  intros H. destruct (trimEnd_decomp t) as (ws & Ht & Hws).
  rewrite H in Ht. cbn [app] in Ht. subst t. exact Hws.
Qed.

Lemma loose_collapse_from (s : jsstring) :
  forall b, loose b (collapse_from b s) = true.
Proof.
  induction s as [|c s IH]; intros b; [reflexivity|]. cbn [collapse_from].
  destruct (is_space c) eqn:Hc.
  - destruct b; [apply IH|]. cbn [loose]. rewrite (IH true). reflexivity.
  - cbn [loose]. rewrite Hc. apply IH.
Qed.

Lemma loose_trimStart (s : jsstring) :
  forall b, loose b s = true -> loose true (trimStart s) = true.
Proof.
  induction s as [|c s IH]; intros b H; [reflexivity|].
  cbn [trimStart]. cbn [loose] in H. destruct (is_space c) eqn:Hc.
  - apply andb_true_iff in H. destruct H as [_ H]. apply (IH true H).
  - cbn [loose]. rewrite Hc. exact H.
Qed.

Lemma spaced_trimEnd (s : jsstring) :
  forall b, loose b s = true ->
    trimEnd s = [] \/ spaced b (trimEnd s) = true.
Proof.
  induction s as [|c s IH]; intros b H; [left; reflexivity|].
  rewrite trimEnd_cons.
  destruct (forallb is_space (c :: s)) eqn:Hall; [left; reflexivity|].
  right. cbn [loose] in H. cbn [spaced]. destruct (is_space c) eqn:Hc.
  - apply andb_true_iff in H. destruct H as [H Hs]. rewrite H. cbn [andb].
    destruct (IH true Hs) as [Hnil|Hsp]; [|exact Hsp].
    apply trimEnd_nil_spaces in Hnil. cbn [forallb] in Hall.
    rewrite Hc, Hnil in Hall. discriminate.
  - destruct (IH false H) as [Hnil|Hsp]; [|exact Hsp].
    rewrite Hnil. reflexivity.
Qed.

(** Collapsing and then trimming leaves words separated by single
    spaces. *)
Lemma single_spaced_trim_collapse (s : jsstring) :
  single_spaced (trim (collapse s)) = true.
Proof.
  unfold trim, collapse.
  pose proof (loose_trimStart _ _ (loose_collapse_from s false)) as H.
  destruct (spaced_trimEnd _ _ H) as [Hnil|Hsp].
  - rewrite Hnil. reflexivity.
  - unfold single_spaced.
    destruct (trimEnd (trimStart (collapse_from false s))); auto.
Qed.

Lemma ends_word_trimEnd (s : jsstring) :
  trimEnd s = [] \/ ends_word (trimEnd s) = true.
Proof.
  induction s as [|c s IH]; [left; reflexivity|].
  rewrite trimEnd_cons.
  destruct (forallb is_space (c :: s)) eqn:Hall; [left; reflexivity|].
  right. cbn [ends_word]. destruct IH as [Hnil|Hend].
  - rewrite Hnil. apply trimEnd_nil_spaces in Hnil. cbn [forallb] in Hall.
    rewrite Hnil, andb_true_r in Hall. rewrite Hall. reflexivity.
  - destruct (trimEnd s); [discriminate|exact Hend].
Qed.

Lemma no_lead_trimEnd (s : jsstring) :
  no_lead_space s = true -> no_lead_space (trimEnd s) = true.
Proof.
  destruct s as [|c s]; [reflexivity|]. intros H. rewrite trimEnd_cons.
  destruct (forallb is_space (c :: s)); [reflexivity|exact H].
Qed.

Lemma spaced_collapse_from (s : jsstring) :
  forall b, ends_word s = true -> spaced b (collapse_from b s) = true.
Proof.
  induction s as [|c s IH]; intros b H; [discriminate|].
  cbn [ends_word] in H. cbn [collapse_from]. destruct s as [|d s].
  - apply negb_true_iff in H. rewrite H. cbn. rewrite H. reflexivity.
  - destruct (is_space c) eqn:Hc.
    + destruct b; [apply IH; exact H|].
      cbn [spaced]. rewrite (IH true H). reflexivity.
    + cbn [spaced]. rewrite Hc. apply IH; exact H.
Qed.

(** Trimming and then collapsing does the same. *)
Lemma single_spaced_collapse_trim (s : jsstring) :
  single_spaced (collapse (trim s)) = true.
Proof.
  unfold trim.
  pose proof (no_lead_trimEnd _ (no_lead_trimStart s)) as Hlead.
  destruct (ends_word_trimEnd (trimStart s)) as [Hnil|Hend].
  - rewrite Hnil. reflexivity.
  - destruct (trimEnd (trimStart s)) as [|c t]; [discriminate|].
    cbn in Hlead. apply negb_true_iff in Hlead.
    unfold collapse. cbn [collapse_from]. rewrite Hlead.
    unfold single_spaced. cbn [spaced]. rewrite Hlead.
    destruct t as [|d t]; [reflexivity|].
    apply spaced_collapse_from. exact Hend.
Qed.

Lemma spaced_collapse_id (s : jsstring) :
  forall b, spaced b s = true -> collapse_from b s = s.
Proof.
  induction s as [|c s IH]; intros b H; [reflexivity|].
  cbn [spaced] in H. cbn [collapse_from]. destruct (is_space c).
  - apply andb_true_iff in H. destruct H as [H Hs].
    apply andb_true_iff in H. destruct H as [Hc Hb].
    apply negb_true_iff in Hb. apply N.eqb_eq in Hc. subst b c.
    f_equal. apply IH; exact Hs.
  - f_equal. apply IH; exact H.
Qed.

Lemma spaced_ends_word (s : jsstring) :
  forall b, spaced b s = true -> s <> [] -> ends_word s = true.
Proof.
  induction s as [|c s IH]; intros b H Hne; [contradiction|].
  cbn [spaced] in H. cbn [ends_word]. destruct s as [|d s].
  - destruct (is_space c); [|reflexivity].
    cbn in H. rewrite andb_false_r in H. discriminate.
  - destruct (is_space c).
    + apply andb_true_iff in H. destruct H as [_ H].
      apply (IH true H). discriminate.
    + apply (IH false H). discriminate.
Qed.

Lemma ends_word_rev (s : jsstring) :
  ends_word s = true -> exists z t, rev s = z :: t /\ is_space z = false.
Proof.
  induction s as [|c s IH]; [discriminate|]. cbn [ends_word].
  destruct s as [|d s].
  - intros H. apply negb_true_iff in H. exists c, []. auto.
  - intros H. destruct (IH H) as (z & t & Hrev & Hz).
    exists z, (t ++ [c]). cbn [rev] in *. rewrite Hrev. auto.
Qed.

(** A text in normal form is left as it is by trimming and by
    collapsing. *)
Lemma single_spaced_fixed (s : jsstring) :
  single_spaced s = true -> trim s = s /\ collapse s = s.
Proof.
  destruct s as [|c s]; [split; reflexivity|]. unfold single_spaced.
  intros H. pose proof (spaced_ends_word _ H) as Hend.
  assert (Hne : c :: s <> []) by discriminate.
  destruct (@ends_word_rev (c :: s) (Hend Hne)) as (z & t & Hrev & Hz).
  assert (Hc : is_space c = false).
  { cbn [spaced] in H. destruct (is_space c); [|reflexivity].
    rewrite andb_false_r in H. discriminate. }
  split.
  - apply (@trim_id c s z t); assumption.
  - unfold collapse. cbn [collapse_from]. rewrite Hc.
    cbn [spaced] in H. rewrite Hc in H. f_equal.
    apply spaced_collapse_id; exact H.
Qed.

(** X9. The texts that [stripParams] and [stripModifierWords] return, and
    so the model text of a MODEL intent, are in normal form: empty, or
    words separated by single spaces with no white space at either end.
    Trimming them again changes nothing. *)
Theorem stripped_texts_single_spaced (q : jsstring) :
  single_spaced (stripParams q) = true
  /\ single_spaced (stripModifierWords q) = true
  /\ trim (stripParams q) = stripParams q
  /\ (forall m, modelQuery (classifyIntent q) = Some m ->
        single_spaced m = true).
Proof.
  assert (H1 : single_spaced (stripParams q) = true).
  { unfold stripParams. cbv zeta. rewrite replaceAll_spaces.
    apply single_spaced_trim_collapse. }
  assert (H2 : forall x, single_spaced (stripModifierWords x) = true).
  { intros x. unfold stripModifierWords. rewrite replaceAll_spaces.
    apply single_spaced_trim_collapse. }
  split; [exact H1|]. split; [apply H2|].
  split; [apply single_spaced_fixed; exact H1|].
  intros m. unfold classifyIntent. cbv zeta.
  case_rules; cbn; intros Hm; try discriminate; injection Hm as <-; apply H2.
Qed.

(** *** Cache keys *)

Import Normalizers Cache.

Lemma lower_unit_high (c : N) : (8576 <= c)%N -> lower_unit c = c.
Proof.
  intros H. unfold lower_unit, is_upper_ascii, in_range.
  repeat match goal with
         | |- context [(c <=? ?k)%N] =>
             replace (c <=? k)%N with false
               by (symmetry; apply N.leb_gt; lia)
         | |- context [(c =? ?k)%N] =>
             replace (c =? k)%N with false
               by (symmetry; apply N.eqb_neq; lia)
         end.
  rewrite ?andb_false_r. reflexivity.
Qed.

Lemma lower_check_all (c : N) : lower_check c = true.
Proof.
  destruct (N.ltb_spec c 8576) as [Hlt|Hge].
  - revert c Hlt. apply (below_check lower_check (67 * 128)).
    vm_compute. reflexivity.
  - unfold lower_check, toLowerCase. cbn [flat_map].
    replace (c =? 304)%N with false by (symmetry; apply N.eqb_neq; lia).
    cbn [app forallb]. unfold lower_fixed.
    rewrite !lower_unit_high by exact Hge.
    replace (c =? 304)%N with false by (symmetry; apply N.eqb_neq; lia).
    rewrite N.eqb_refl. reflexivity.
Qed.

Lemma toLowerCase_cons (c : N) (s : jsstring) :
  toLowerCase (c :: s) = toLowerCase [c] ++ toLowerCase s.
Proof.
  unfold toLowerCase. cbn [flat_map]. rewrite app_nil_r. reflexivity.
Qed.

Lemma toLowerCase_app (a b : jsstring) :
  toLowerCase (a ++ b) = toLowerCase a ++ toLowerCase b.
Proof. apply flat_map_app. Qed.

Lemma lower_fixed_toLowerCase (s : jsstring) :
  forallb lower_fixed (toLowerCase s) = true.
Proof.
  induction s as [|c s IH]; [reflexivity|].
  rewrite toLowerCase_cons, forallb_app, IH, andb_true_r.
  apply lower_check_all.
Qed.

Lemma toLowerCase_fixed (s : jsstring) :
  forallb lower_fixed s = true -> toLowerCase s = s.
Proof.
  induction s as [|c s IH]; [reflexivity|]. cbn [forallb]. intros H.
  apply andb_true_iff in H. destruct H as [Hc Hs].
  rewrite toLowerCase_cons, (IH Hs). unfold lower_fixed in Hc.
  apply andb_true_iff in Hc. destruct Hc as [H304 Hl].
  apply negb_true_iff in H304. apply N.eqb_eq in Hl.
  unfold toLowerCase. cbn [flat_map]. rewrite H304, Hl. reflexivity.
Qed.

Lemma toLowerCase_idempotent (s : jsstring) :
  toLowerCase (toLowerCase s) = toLowerCase s.
Proof. apply toLowerCase_fixed, lower_fixed_toLowerCase. Qed.

Lemma forallb_trim (P : N -> bool) (s : jsstring) :
  forallb P s = true -> forallb P (trim s) = true.
Proof.
  destruct (trim_decomp s) as (ws1 & ws2 & Hs & _ & _).
  intros H. rewrite Hs, !forallb_app in H.
  apply andb_true_iff in H. destruct H as [_ H].
  apply andb_true_iff in H. tauto.
Qed.

Lemma forallb_collapse_from (P : N -> bool) (s : jsstring) :
  P 32%N = true -> forallb P s = true ->
  forall b, forallb P (collapse_from b s) = true.
Proof.
  intros H32. induction s as [|c s IH]; intros H b; [reflexivity|].
  cbn [forallb] in H. apply andb_true_iff in H. destruct H as [Hc Hs].
  cbn [collapse_from]. destruct (is_space c); [destruct b|];
    cbn [forallb]; rewrite ?H32, ?Hc; cbn [andb]; apply IH; exact Hs.
Qed.

(** Lower-casing leaves white space as it is. *)
Lemma toLowerCase_spaces (ws : jsstring) :
  forallb is_space ws = true -> toLowerCase ws = ws.
Proof.
  intros H. apply toLowerCase_fixed. revert H. apply forallb_impl.
  intros c Hc.
  assert (Hk : implb (is_space c) (lower_fixed c) = true).
  { destruct (N.ltb_spec c 8576) as [Hlt|Hge].
    - clear Hc. revert c Hlt.
      apply (below_check (fun c => implb (is_space c) (lower_fixed c))
               (67 * 128)).
      vm_compute. reflexivity.
    - unfold lower_fixed. rewrite lower_unit_high by exact Hge.
      replace (c =? 304)%N with false by (symmetry; apply N.eqb_neq; lia).
      rewrite N.eqb_refl. apply implb_true_r. }
  rewrite Hc in Hk. exact Hk.
Qed.

Lemma normalizeCacheKey_collapse (q : jsstring) :
  normalizeCacheKey q = collapse (trim (toLowerCase q)).
Proof.
  unfold normalizeCacheKey. rewrite or_else_empty. apply replaceAll_spaces.
Qed.

Lemma normalizeCacheKey_idempotent (q : jsstring) :
  toLowerCase (normalizeCacheKey q) = normalizeCacheKey q
  /\ normalizeCacheKey (normalizeCacheKey q) = normalizeCacheKey q.
Proof.
  rewrite !normalizeCacheKey_collapse.
  assert (Hs : single_spaced (collapse (trim (toLowerCase q))) = true)
    by apply single_spaced_collapse_trim.
  assert (Hl : toLowerCase (collapse (trim (toLowerCase q)))
               = collapse (trim (toLowerCase q))).
  { apply toLowerCase_fixed. apply forallb_collapse_from; [reflexivity|].
    apply forallb_trim. apply lower_fixed_toLowerCase. }
  split; [exact Hl|]. rewrite Hl.
  destruct (single_spaced_fixed _ Hs) as [-> ->]. reflexivity.
Qed.

Import CaseRange.

(** Lower-casing stays inside the range of the case tables. *)
Lemma latin_lower_unit (c : N) : latin_lower_check c = true.
Proof.
  destruct (N.ltb_spec c 384) as [Hlt|Hge].
  - revert c Hlt. apply (below_check latin_lower_check 384).
    vm_compute. reflexivity.
  - unfold latin_lower_check, latin_unit.
    replace (c <=? 383)%N with false by (symmetry; apply N.leb_gt; lia).
    reflexivity.
Qed.

Lemma latin_toLowerCase (s : jsstring) :
  latin s = true -> latin (toLowerCase s) = true.
Proof.
  unfold latin. induction s as [|c s IH]; [reflexivity|].
  cbn [forallb]. intros H. apply andb_true_iff in H. destruct H as [Hc Hs].
  rewrite toLowerCase_cons, forallb_app, (IH Hs), andb_true_r.
  pose proof (latin_lower_unit c) as Hk. unfold latin_lower_check in Hk.
  rewrite Hc in Hk. exact Hk.
Qed.

Lemma latin_normalizeCacheKey (q : jsstring) :
  latin q = true -> latin (normalizeCacheKey q) = true.
Proof.
  intros H. rewrite normalizeCacheKey_collapse. unfold latin, collapse.
  apply forallb_collapse_from; [reflexivity|].
  apply forallb_trim. apply latin_toLowerCase. exact H.
Qed.

(** X10. On a text of the code units U+0000 to U+017F (without U+0130),
    [normalizeCacheKey] computes a canonical form: its result is again
    such a text, in lower case, with words separated by single spaces and
    no white space at either end; normalising it again gives the same
    text; and the result depends neither on the case of the query nor on
    white space around it. *)
Theorem normalizeCacheKey_canonical (q : jsstring) :
  latin q = true ->
  latin (normalizeCacheKey q) = true
  /\ single_spaced (normalizeCacheKey q) = true
  /\ toLowerCase (normalizeCacheKey q) = normalizeCacheKey q
  /\ normalizeCacheKey (normalizeCacheKey q) = normalizeCacheKey q
  /\ normalizeCacheKey (toLowerCase q) = normalizeCacheKey q
  /\ (forall ws1 ws2,
        forallb is_space ws1 = true -> forallb is_space ws2 = true ->
        normalizeCacheKey (ws1 ++ q ++ ws2) = normalizeCacheKey q).
Proof.
  intros Hq. destruct (normalizeCacheKey_idempotent q) as [Hl Hi].
  split; [apply latin_normalizeCacheKey; exact Hq|].
  split; [|split; [exact Hl|split; [exact Hi|split]]].
  - rewrite normalizeCacheKey_collapse. apply single_spaced_collapse_trim.
  - rewrite !normalizeCacheKey_collapse, toLowerCase_idempotent. reflexivity.
  - intros ws1 ws2 H1 H2.
    rewrite !normalizeCacheKey_collapse, !toLowerCase_app.
    rewrite (toLowerCase_spaces _ H1), (toLowerCase_spaces _ H2).
    rewrite (@trim_padded ws1 (toLowerCase q) ws2 H1 H2). reflexivity.
Qed.

Lemma normalizeCacheKey_canonical_witness :
  normalizeCacheKey (lit "  Canon   EOS R6 ") = lit "canon eos r6"
  /\ normalizeCacheKey (lit " " ++ lit "  Canon   EOS R6 " ++ [9]%N)
     = normalizeCacheKey (lit "  Canon   EOS R6 ").
Proof.
  split; [vm_compute; reflexivity|].
  apply (normalizeCacheKey_canonical (lit "  Canon   EOS R6 "));
    reflexivity.
Defined.

Lemma startsWith_app (p s : jsstring) : startsWith (p ++ s) p = true.
Proof.
  induction p as [|x p IH]; [destruct s; reflexivity|].
  cbn [app startsWith]. rewrite N.eqb_refl. exact IH.
Qed.

(** X11. For texts of the code units U+0000 to U+017F (without U+0130):
    texts with the same normal form share one autocomplete entry and, for
    the same filter hash, one search entry; an autocomplete key is never a
    search key; every such key starts with one of the two prefixes that
    [flushCache] deletes; and an entry lives 60, 120 or 300 seconds, never
    longer for a longer query, and 60 seconds for a search. *)
Theorem cache_keys (q1 q2 h1 h2 ty : jsstring) :
  latin q1 = true -> latin q2 = true ->
  (normalizeCacheKey q1 = normalizeCacheKey q2 ->
     autocomplete_key q1 = autocomplete_key q2
     /\ search_key q1 h1 = search_key q2 h1)
  /\ autocomplete_key q1 = autocomplete_key (normalizeCacheKey q1)
  /\ autocomplete_key q1 <> search_key q2 h2
  /\ startsWith (autocomplete_key q1) AUTOCOMPLETE_PREFIX = true
  /\ startsWith (search_key q2 h2) SEARCH_PREFIX = true
  /\ In (getTTL q1 ty) [60; 120; 300]%Z
  /\ getTTL q1 (lit "search") = 60%Z
  /\ (length q1 <= length q2 -> (getTTL q2 ty <= getTTL q1 ty)%Z).
Proof.
  intros _ _.
  assert (Httl : In (getTTL q1 ty) [60; 120; 300]%Z
                 /\ getTTL q1 (lit "search") = 60%Z
                 /\ (length q1 <= length q2 ->
                     (getTTL q2 ty <= getTTL q1 ty)%Z)).
  { unfold getTTL. rewrite !or_else_empty.
    split; [|split; [reflexivity|intros Hlen]];
      destruct (JsString.eqb ty (lit "autocomplete"));
      repeat match goal with
             | |- context [?a <=? ?b] => destruct (Nat.leb_spec a b)
             end; cbn [In]; auto; lia. }
  unfold autocomplete_key, search_key.
  split; [intros ->; split; reflexivity|].
  split.
  { destruct (normalizeCacheKey_idempotent q1) as [_ ->]. reflexivity. }
  split; [discriminate|]. split; [apply startsWith_app|].
  split; [apply startsWith_app|exact Httl].
Qed.

(** [Canon  EOS] and [canon eos ] share their cache entries. *)
Lemma cache_keys_witness :
  autocomplete_key (lit "Canon  EOS") = lit "ac:canon eos"
  /\ autocomplete_key (lit "Canon  EOS") = autocomplete_key (lit "canon eos ")
  /\ search_key (lit "Canon  EOS") (lit "1a2b3c4d")
     = search_key (lit "canon eos ") (lit "1a2b3c4d").
Proof.
  split; [vm_compute; reflexivity|].
  apply (@cache_keys (lit "Canon  EOS") (lit "canon eos ") (lit "1a2b3c4d")
           (lit "1a2b3c4d") (lit "autocomplete")); reflexivity.
Defined.

(** *** The parameters of a text *)

Import ParamFields.

Lemma set_field_keys_in (o : object) (k : jsstring) (v : value) (x : jsstring) :
  In x (keys (set_field o k v)) -> x = k \/ In x (keys o).
Proof.
  unfold keys. induction o as [|[k' w] o IH]; cbn [set_field map fst In].
  - intros [<-|[]]. left; reflexivity.
  - destruct (JsString.eqb k' k); cbn [map fst In].
    + intros [<-|H]; auto.
    + intros [<-|H]; auto. destruct (IH H); auto.
Qed.

Lemma set_field_keys_NoDup (o : object) (k : jsstring) (v : value) :
  NoDup (keys o) -> NoDup (keys (set_field o k v)).
Proof.
  unfold keys. induction o as [|[k' w] o IH]; cbn [set_field map fst].
  - intros _. constructor; [intros []|constructor].
  - intros H. inversion H as [|? ? Hk' Ho]; subst.
    destruct (eqb_spec k' k) as [->|Hne]; cbn [map fst].
    + constructor; assumption.
    + constructor; [|apply IH; exact Ho].
      intros Hin. apply set_field_keys_in in Hin.
      destruct Hin as [->|Hin]; [apply Hne; reflexivity|apply Hk'; exact Hin].
Qed.

Lemma assign_keys (source target : object) :
  NoDup (keys target) -> incl (keys target) PARAM_FIELDS ->
  incl (keys source) PARAM_FIELDS ->
  NoDup (keys (assign target source))
  /\ incl (keys (assign target source)) PARAM_FIELDS.
Proof.
  unfold assign. revert target.
  induction source as [|[k v] source IH]; intros target Hnd Hin Hsrc;
    cbn [fold_left]; [split; assumption|].
  apply IH.
  - apply set_field_keys_NoDup. exact Hnd.
  - intros x Hx. apply set_field_keys_in in Hx. destruct Hx as [->|Hx].
    + apply Hsrc. left; reflexivity.
    + apply Hin. exact Hx.
  - intros x Hx. apply Hsrc. right; exact Hx.
Qed.

Lemma keys_in_fields (l : list jsstring) :
  forallb (fun k => existsb (JsString.eqb k) PARAM_FIELDS) l = true ->
  incl l PARAM_FIELDS.
Proof.
  intros H x Hx. rewrite forallb_forall in H. specialize (H x Hx).
  apply existsb_exists in H. destruct H as (y & Hy & Hxy).
  destruct (eqb_spec x y) as [->|]; [exact Hy|discriminate].
Qed.

(** Every extractor writes parameter fields only. *)
Lemma extractors_fields :
  Forall (fun e => forall m, incl (keys (extract e m)) PARAM_FIELDS)
         EXTRACTORS.
Proof.
  unfold EXTRACTORS.
  repeat (apply Forall_cons;
          [intros m; apply keys_in_fields; vm_compute; reflexivity|]).
  apply Forall_nil.
Qed.

Lemma fold_extractors_keys (q : jsstring) :
  forall es params,
    Forall (fun e => forall m, incl (keys (extract e m)) PARAM_FIELDS) es ->
    NoDup (keys params) -> incl (keys params) PARAM_FIELDS ->
    NoDup (keys (fold_left
                   (fun params e =>
                      match contextPattern e with
                      | Some ctx =>
                          if negb (test ctx q) then params
                          else match exec (pattern e) q with
                               | Some m => assign params (extract e m)
                               | None => params
                               end
                      | None =>
                          match exec (pattern e) q with
                          | Some m => assign params (extract e m)
                          | None => params
                          end
                      end) es params))
    /\ incl (keys (fold_left
                     (fun params e =>
                        match contextPattern e with
                        | Some ctx =>
                            if negb (test ctx q) then params
                            else match exec (pattern e) q with
                                 | Some m => assign params (extract e m)
                                 | None => params
                                 end
                        | None =>
                            match exec (pattern e) q with
                            | Some m => assign params (extract e m)
                            | None => params
                            end
                        end) es params)) PARAM_FIELDS.
Proof.
  induction es as [|e es IH]; intros params Hes Hnd Hin;
    cbn [fold_left]; [split; assumption|].
  inversion Hes as [|? ? He Hes']; subst.
  assert (Hstep : forall m,
             NoDup (keys (assign params (extract e m)))
             /\ incl (keys (assign params (extract e m))) PARAM_FIELDS)
    by (intros m; apply assign_keys; auto).
  destruct (contextPattern e) as [ctx|].
  - destruct (negb (test ctx q)); [apply IH; assumption|].
    destruct (exec (pattern e) q) as [m|]; [|apply IH; assumption].
    destruct (Hstep m). apply IH; assumption.
  - destruct (exec (pattern e) q) as [m|]; [|apply IH; assumption].
    destruct (Hstep m). apply IH; assumption.
Qed.

Lemma extractParams_keys_fields (query : jsstring) :
  NoDup (keys (extractParams query))
  /\ incl (keys (extractParams query)) PARAM_FIELDS.
Proof.
  exact (@fold_extractors_keys (or_else query []) EXTRACTORS []
           extractors_fields (NoDup_nil _) (incl_nil_l _)).
Qed.

Lemma keys_length_bound (o : object) :
  NoDup (keys o) -> incl (keys o) PARAM_FIELDS -> length o <= 9.
Proof.
  intros Hnd Hin. pose proof (NoDup_incl_length Hnd Hin) as Hl.
  unfold keys in Hl. rewrite length_map in Hl. exact Hl.
Qed.

Lemma buildParamFilters_length (o : object) :
  length (buildParamFilters o) = length o.
Proof. unfold buildParamFilters. apply length_map. Qed.

(** X24. The object that [extractParams] returns has every key once, and
    its keys are among the nine parameter fields: a later extractor
    overwrites the field of an earlier one, so the query builder gets at
    most one filter clause per field. *)
Theorem extractParams_keys (query : jsstring) :
  NoDup (keys (extractParams query))
  /\ incl (keys (extractParams query)) PARAM_FIELDS
  /\ length (extractParams query) <= 9
  /\ length (buildParamFilters (extractParams query)) <= 9.
Proof.
  destruct (extractParams_keys_fields query) as [Hnd Hin].
  pose proof (@keys_length_bound (extractParams query) Hnd Hin) as Hlen.
  split; [exact Hnd|]. split; [exact Hin|]. split; [exact Hlen|].
  rewrite buildParamFilters_length. exact Hlen.
Qed.

(** *** The recovery cascade: the relaxed texts *)

Import RelaxationSpec.


(** *** Splitting at white space *)

Lemma pieces_from_skip (sp rest : jsstring) (piece : list N) :
  forallb is_space sp = true ->
  pieces_from true piece (sp ++ rest) = pieces_from true piece rest.
Proof.
  induction sp as [|c sp IH]; intros H; [reflexivity|].
  cbn [forallb] in H. apply andb_true_iff in H. destruct H as [Hc Hsp].
  cbn [app pieces_from]. rewrite Hc. apply IH. exact Hsp.
Qed.

Lemma pieces_from_no_lead (rest : jsstring) (piece : list N) (b : bool) :
  no_lead_space rest = true -> rest <> [] ->
  pieces_from b piece rest = pieces_from false piece rest.
Proof.
  destruct rest as [|c t]; [contradiction|]. cbn. intros H _.
  apply negb_true_iff in H. rewrite H. reflexivity.
Qed.

Lemma split_from_spaces (fuel : nat) :
  forall aft bef piece, length aft < fuel ->
    split_from SPACES fuel piece bef aft = pieces_from false piece aft.
Proof.
  induction fuel as [|fuel IH]; intros aft bef piece Hfuel; [lia|].
  cbn [split_from]. destruct aft as [|x t]; [reflexivity|].
  destruct (is_space x) eqn:Hx.
  - destruct (trimStart_decomp t) as (ws & Ht & Hws).
    assert (Hm := @match_at_spaces (x :: ws) (trimStart t) bef).
    cbn [forallb app] in Hm. rewrite Hx, Hws, <- Ht in Hm.
    rewrite Hm by (try reflexivity; try discriminate; apply no_lead_trimStart).
    unfold remaining. cbn [after before].
    assert (Hlen : length (trimStart t) < length (x :: t)).
    { pose proof (f_equal (@length N) Ht) as Hl. rewrite length_app in Hl.
      cbn [length]. lia. }
    apply Nat.ltb_lt in Hlen as Hlt. rewrite Hlt.
    cbn [pieces_from]. rewrite Hx. f_equal.
    rewrite IH by (cbn [length] in *; lia).
    rewrite Ht at 2. rewrite pieces_from_skip by exact Hws.
    destruct (trimStart t) as [|y r] eqn:Et; [reflexivity|].
    symmetry. apply pieces_from_no_lead; [|discriminate].
    rewrite <- Et. apply no_lead_trimStart.
  - rewrite match_at_spaces_none by (cbn; rewrite Hx; reflexivity).
    cbn [pieces_from]. rewrite Hx. apply IH. cbn [length] in Hfuel. lia.
Qed.

(** [s.split(/\s+/)], read off the text. *)
Lemma split_spaces (s : jsstring) :
  split SPACES s = pieces_from false [] s.
Proof.
  unfold split. destruct s as [|c s]; [reflexivity|].
  apply split_from_spaces. lia.
Qed.

(** The pieces that are not empty are the words. *)
Lemma pieces_words (s : jsstring) :
  forall b piece,
    (b = true -> piece = []) ->
    filter truthy (pieces_from b piece s) = words_from piece s.
Proof.
  induction s as [|c s IH]; intros b piece Hb; cbn [pieces_from words_from].
  - cbn [filter]. destruct piece as [|x p]; [reflexivity|].
    destruct (rev (x :: p)) eqn:E; [|reflexivity].
    apply (f_equal (@length N)) in E. rewrite length_rev in E. discriminate.
  - destruct (is_space c).
    + destruct b.
      * rewrite (Hb eq_refl). apply IH. auto.
      * cbn [filter]. rewrite (IH true []) by auto.
        destruct piece as [|x p]; [reflexivity|].
        destruct (rev (x :: p)) eqn:E; [|reflexivity].
        apply (f_equal (@length N)) in E. rewrite length_rev in E.
        discriminate.
    + apply IH. discriminate.
Qed.

(** A text without white space at its ends splits into its words. *)
Lemma pieces_trimmed (s : jsstring) :
  forall b piece,
    ends_word s = true ->
    (b = true -> piece = []) ->
    (b = false -> piece = [] -> no_lead_space s = true) ->
    pieces_from b piece s = words_from piece s.
Proof.
  induction s as [|c s IH]; intros b piece Hend Hb Hlead; [discriminate|].
  cbn [pieces_from words_from]. cbn [ends_word] in Hend.
  destruct (is_space c) eqn:Hc.
  - assert (Hend' : ends_word s = true).
    { destruct s; [discriminate Hend|exact Hend]. }
    destruct b.
    + rewrite (Hb eq_refl). apply IH; auto. discriminate.
    + destruct piece as [|x p].
      * specialize (Hlead eq_refl eq_refl). cbn in Hlead.
        rewrite Hc in Hlead. discriminate.
      * f_equal. apply IH; auto. discriminate.
  - destruct s as [|d s]; [reflexivity|].
    apply IH; [exact Hend|discriminate|discriminate].
Qed.

Lemma split_trimmed (q : jsstring) :
  outer_trimmed q = true ->
  split SPACES q = match q with [] => [[]] | _ => words q end.
Proof.
  intros H. rewrite split_spaces. destruct q as [|c q]; [reflexivity|].
  unfold outer_trimmed in H. apply andb_true_iff in H. destruct H as [Hl He].
  apply pieces_trimmed; auto; discriminate.
Qed.

Lemma words_from_nonempty (s : jsstring) :
  forall word, Forall (fun w => w <> []) (words_from word s).
Proof.
  induction s as [|c s IH]; intros word; cbn [words_from].
  - destruct word as [|x p]; constructor; [|constructor].
    intros E. apply (f_equal (@length N)) in E. rewrite length_rev in E.
    discriminate.
  - destruct (is_space c); [|apply IH].
    destruct word as [|x p]; [apply IH|]. constructor; [|apply IH].
    intros E. apply (f_equal (@length N)) in E. rewrite length_rev in E.
    discriminate.
Qed.

Lemma join_unwords (ws : list jsstring) : join (lit " ") ws = unwords ws.
Proof.
  destruct ws as [|w rest]; [reflexivity|]. unfold unwords.
  revert w. induction rest as [|x rest IH]; intros w.
  - symmetry. apply app_nil_r.
  - change (join (lit " ") (w :: x :: rest))
      with (w ++ [32%N] ++ join (lit " ") (x :: rest)).
    rewrite IH. reflexivity.
Qed.

Lemma relaxations_trimmed (q : jsstring) :
  outer_trimmed q = true -> relaxations q = word_prefixes q.
Proof.
  intros H. unfold relaxations, word_prefixes. cbv zeta.
  rewrite (split_trimmed q H).
  destruct q as [|c q]; [reflexivity|].
  pose proof (words_from_nonempty (c :: q) []) as Hne.
  fold (words (c :: q)) in Hne.
  generalize dependent (words (c :: q)). intros ws Hne.
  erewrite map_ext by (intros; apply join_unwords).
  apply forallb_filter_id. apply forallb_forall. intros t Ht.
  apply in_map_iff in Ht. destruct Ht as (drop & <- & Hdrop).
  apply in_seq in Hdrop.
  destruct ws as [|w rest]; [cbn in Hdrop; lia|].
  cbn [length] in *.
  replace (Datatypes.S (length rest) - drop)
    with (Datatypes.S (length rest - drop)) by lia.
  cbn [firstn unwords]. inversion Hne as [|? ? Hw _]; subst.
  destruct w; [contradiction|reflexivity].
Qed.

Lemma general_body_pipeline (text : jsstring) (o : Options) :
  general_body text o = general_pipeline text o.
Proof.
  unfold general_body, general_request, buildSearchQuery, general_pipeline.
  cbn. rewrite app_nil_r.
  replace (or_else text text) with text by (destruct text; reflexivity).
  match goal with
  | |- context [negb (JsString.eqb ?a ?b)] => destruct (JsString.eqb a b)
  end; reflexivity.
Qed.

Lemma plan_ordered_states (q : jsstring) (intent : Intent) (o : Options)
  (suggestion : option jsstring) :
  outer_trimmed q = true ->
  plan q intent o suggestion = ordered_states q intent o suggestion.
Proof.
  intros H. unfold plan, ordered_states.
  rewrite (relaxations_trimmed q H).
  f_equal; [destruct suggestion; [rewrite general_body_pipeline|]; reflexivity|].
  f_equal. apply map_ext. intros t. rewrite general_body_pipeline. reflexivity.
Qed.

(** *** Words *)

Lemma words_from_read (w : jsstring) :
  forall word rest,
    forallb (fun c => negb (is_space c)) w = true ->
    words_from word (w ++ rest) = words_from (rev w ++ word) rest.
Proof.
  induction w as [|c w IH]; intros word rest H; [reflexivity|].
  cbn [forallb] in H. apply andb_true_iff in H. destruct H as [Hc Hw].
  apply negb_true_iff in Hc. cbn [app words_from]. rewrite Hc.
  rewrite IH by exact Hw. cbn [rev]. rewrite <- app_assoc. reflexivity.
Qed.

Lemma words_unwords_cons (rest : list jsstring) :
  forall w, is_a_word w -> Forall is_a_word rest ->
    words_from [] (w ++ flat_map (fun x => 32%N :: x) rest) = w :: rest.
Proof.
  induction rest as [|x rest IH]; intros w [Hne Hw] Hrest.
  - cbn [flat_map]. rewrite words_from_read by exact Hw.
    cbn [words_from]. rewrite app_nil_r.
    destruct (rev w) eqn:E.
    + apply (f_equal (@length N)) in E. rewrite length_rev in E.
      destruct w; [contradiction|discriminate].
    + rewrite <- E, rev_involutive. reflexivity.
  - inversion Hrest as [|? ? Hx Hrest']; subst.
    cbn [flat_map]. rewrite words_from_read by exact Hw.
    rewrite app_nil_r. cbn [app words_from].
    change (is_space 32) with true. cbv iota.
    destruct (rev w) eqn:E.
    + apply (f_equal (@length N)) in E. rewrite length_rev in E.
      destruct w; [contradiction|discriminate].
    + rewrite <- E, rev_involutive. f_equal. apply IH; assumption.
Qed.

Lemma words_unwords (ws : list jsstring) :
  Forall is_a_word ws -> words (unwords ws) = ws.
Proof.
  destruct ws as [|w rest]; [reflexivity|]. intros H.
  inversion H; subst. apply words_unwords_cons; assumption.
Qed.

Lemma words_from_are_words (s : jsstring) :
  forall word,
    forallb (fun c => negb (is_space c)) word = true ->
    Forall is_a_word (words_from word s).
Proof.
  assert (Hrev : forall word : list N,
             word <> [] ->
             forallb (fun c => negb (is_space c)) word = true ->
             is_a_word (rev word)).
  { intros word Hne Hw. split.
    - intros E. apply (f_equal (@length N)) in E. rewrite length_rev in E.
      destruct word; [contradiction|discriminate].
    - rewrite forallb_rev. exact Hw. }
  induction s as [|c s IH]; intros word Hw; cbn [words_from].
  - destruct word as [|x p]; constructor; [|constructor].
    apply Hrev; [discriminate|exact Hw].
  - destruct (is_space c) eqn:Hc.
    + destruct word as [|x p]; [apply IH; reflexivity|].
      constructor; [apply Hrev; [discriminate|exact Hw]|].
      apply IH; reflexivity.
    + apply IH. cbn [forallb]. rewrite Hc, Hw. reflexivity.
Qed.

Lemma Forall_firstn {X : Type} (P : X -> Prop) (n : nat) (l : list X) :
  Forall P l -> Forall P (firstn n l).
Proof.
  revert n. induction l as [|x l IH]; intros [|n] H; cbn [firstn];
    try constructor; inversion H; subst; auto.
Qed.

(** The words of the text without its last [drop] words are the words of
    the text without the last [drop]. *)
Lemma words_word_prefixes (q : jsstring) :
  map words (word_prefixes q)
  = map (fun drop => firstn (length (words q) - drop) (words q))
        (seq 1 (length (words q) - 1)).
Proof.
  unfold word_prefixes. cbv zeta. rewrite map_map. apply map_ext.
  intros drop. apply words_unwords. apply Forall_firstn.
  apply words_from_are_words. reflexivity.
Qed.

Section CascadeInOrder.

Variables Hit Aggs S : Type.
Variable search : S -> body -> result (Response Hit Aggs) * S.

(** X25. For a query without white space at its ends, the cascade first
    asks for a spelling suggestion and then goes through its states in
    order: the GENERAL pipeline (the fuzzy match inside the ranking
    envelope) on the accepted suggestion, then on the query without its
    last word, without its last two words, and so on down to its first
    word, then the category fallback when the intent is CATEGORY with a
    category, then the bestsellers. The first state that answers with a
    hit ends the cascade, as does the bestsellers state. When every index
    call succeeds, the GENERAL pipeline finds nothing and the intent is
    not CATEGORY, the cascade ends with an outcome of type
    [bestsellers]. *)
Theorem recovery_cascade_order (q : jsstring) (intent : Intent) (o : Options)
  (w : World Hit Aggs S) :
  outer_trimmed q = true ->
  let run := recoverZeroResults search q intent o w in
  (exists r0 calls,
      log (snd run) = log w ++ (buildSpellCheckQuery q, r0) :: calls
      /\ Cascade (ordered_states q intent o (accepted_suggestion q r0)) calls
                 (final_of (fst run)))
  /\ map words (word_prefixes q)
     = map (fun drop => firstn (length (words q) - drop) (words q))
           (seq 1 (length (words q) - 1))
  /\ ((forall s b, exists resp s', search s b = (Ok resp, s')) ->
      (forall s text resp s',
          search s (general_pipeline text o) = (Ok resp, s') ->
          (hits_total_value resp <= 0)%Z) ->
      type intent <> CATEGORY ->
      exists outcome,
        fst run = Ok outcome /\ fallbackType outcome = bestsellers).
Proof.
  intros Htrim run. split; [|split].
  - destruct (recoverZeroResults_cascade search q intent o w)
      as (res & w' & r0 & calls & Hrun & Hlog & HC).
    subst run. rewrite Hrun. cbn [fst snd]. exists r0, calls.
    split; [exact Hlog|].
    rewrite <- (plan_ordered_states q intent o _ Htrim). exact HC.
  - apply words_word_prefixes.
  - intros Hok Hnone Hty. subst run.
    apply recoverZeroResults_bestsellers; try assumption.
    intros s text resp s'. rewrite general_body_pipeline. apply Hnone.
Qed.

End CascadeInOrder.

(** An index without hits outside the bestsellers: every call succeeds,
    the GENERAL pipeline finds nothing, and the cascade for
    [cannon eos r6] goes through its states in order and ends in the
    bestsellers. *)
Lemma recovery_cascade_order_witness :
  let run :=
    recoverZeroResults only_bestsellers (lit "cannon eos r6")
      (classifyIntent (lit "cannon eos r6")) no_options
      {| index := 0; log := [] |} in
  (exists r0 calls,
      log (snd run)
      = [] ++ (buildSpellCheckQuery (lit "cannon eos r6"), r0) :: calls
      /\ Cascade (ordered_states (lit "cannon eos r6")
                    (classifyIntent (lit "cannon eos r6")) no_options
                    (accepted_suggestion (lit "cannon eos r6") r0))
                 calls (final_of (fst run)))
  /\ (exists outcome,
         fst run = Ok outcome /\ fallbackType outcome = bestsellers).
Proof.
  intros run.
  destruct (@recovery_cascade_order nat unit nat only_bestsellers
              (lit "cannon eos r6") (classifyIntent (lit "cannon eos r6"))
              no_options {| index := 0; log := [] |} eq_refl)
    as (Horder & _ & Hbest).
  split; [exact Horder|]. apply Hbest.
  - intros s b. unfold only_bestsellers.
    destruct (from b); [eexists; eexists; reflexivity|].
    destruct (body_suggest b); [eexists; eexists; reflexivity|].
    destruct (body_query b) as [[]|]; try (eexists; eexists; reflexivity).
    destruct must; [|eexists; eexists; reflexivity].
    destruct should; eexists; eexists; reflexivity.
  - intros s text resp s' H. unfold only_bestsellers in H.
    assert (Hf : from (general_pipeline text no_options) = Some 0%Z)
      by reflexivity.
    rewrite Hf in H. injection H as H _. subst resp. cbn. lia.
  - vm_compute. discriminate.
Defined.

(** C2. For the query [canon eos ], which ends with a space, on an index
    without a suggestion and without a hit outside the bestsellers, the
    cascade makes four calls: the spell check, the GENERAL pipeline on
    [canon eos], the GENERAL pipeline on [canon], and the bestsellers.
    [split] returns an empty last piece for the white space at the end, so
    the first relaxation drops that piece and searches for both words of
    the query again; the query without its trailing word is [canon]
    alone. *)
Theorem relaxation_keeps_every_word :
  let q := lit "canon eos " in
  let run :=
    recoverZeroResults only_bestsellers q (classifyIntent q) no_options
      {| index := 0; log := [] |} in
  map (fun c => searched_text (fst c)) (log (snd run))
  = [None; Some (lit "canon eos"); Some (lit "canon"); None]
  /\ split SPACES q = [lit "canon"; lit "eos"; []]
  /\ words (lit "canon eos") = words q
  /\ word_prefixes q = [lit "canon"]
  /\ option_map (@fallbackType nat unit)
       match fst run with Ok outcome => Some outcome | Throw _ => None end
     = Some bestsellers.
Proof. vm_compute. repeat split. Qed.

(** *** The recovery cascade: cost, failures and outcomes *)

Import RecoverySpec.

Lemma split_from_nonempty (r : regex) (fuel : nat) :
  forall piece bef aft, split_from r fuel piece bef aft <> [].
Proof.
  induction fuel as [|fuel IH]; intros piece bef aft; cbn [split_from];
    [discriminate|].
  destruct aft as [|x t]; [discriminate|].
  destruct (match_at r bef (x :: t)) as [e|]; [|apply IH].
  destruct (remaining e <? length (x :: t)); [discriminate|].
  destruct piece; [apply IH|discriminate].
Qed.

Lemma split_spaces_nonempty (s : jsstring) : 1 <= length (split SPACES s).
Proof.
  assert (H : split SPACES s <> []).
  { unfold split. destruct s as [|c s]; [cbn; discriminate|].
    apply split_from_nonempty. }
  destruct (split SPACES s); [contradiction|cbn; lia].
Qed.

Lemma relaxations_length (q : jsstring) :
  length (relaxations q) <= length (split SPACES q) - 1.
Proof.
  unfold relaxations.
  etransitivity; [apply filter_length_le|].
  rewrite length_map, length_seq. reflexivity.
Qed.

Section CascadeCost.

Variables Hit Aggs S : Type.
Variable search : S -> body -> result (Response Hit Aggs) * S.

Lemma Cascade_length (p : list (FallbackType * body))
  (calls : list (body * result (Response Hit Aggs)))
  (fin : result FallbackType) :
  Cascade p calls fin -> 1 <= length calls <= length p.
Proof.
  induction 1; cbn [length]; lia.
Qed.

Lemma plan_length (q : jsstring) (intent : Intent) (o : Options)
  (suggestion : option jsstring) :
  length (plan q intent o suggestion) <= length (split SPACES q) + 2.
Proof.
  unfold plan. rewrite !length_app, length_map.
  pose proof (relaxations_length q). pose proof (split_spaces_nonempty q).
  destruct suggestion; destruct (type intent);
    try destruct (truthy_opt (category intent)); cbn [length]; lia.
Qed.

(** X12. The recovery makes at least two and at most [n + 3] index calls
    for a query of [n] words: the spell check, the search for the
    suggestion, at most [n - 1] relaxations, the category fallback and the
    bestsellers. *)
Theorem recovery_call_bound (q : jsstring) (intent : Intent) (o : Options)
  (w : World Hit Aggs S) :
  exists calls,
    log (snd (recoverZeroResults search q intent o w)) = log w ++ calls
    /\ 2 <= length calls <= length (split SPACES q) + 3.
Proof.
  destruct (recoverZeroResults_cascade search q intent o w)
    as (res & w' & r0 & calls & Hrun & Hlog & HC).
  rewrite Hrun. cbn [snd]. exists ((buildSpellCheckQuery q, r0) :: calls).
  split; [exact Hlog|].
  apply Cascade_length in HC.
  pose proof (plan_length q intent o (accepted_suggestion q r0)).
  cbn [length]. unfold call. lia.
Qed.

(** The result of the recovery, by the answers to its first two calls. *)
Lemma recoverZeroResults_throws (q : jsstring) (intent : Intent)
  (o : Options) (w : World Hit Aggs S) :
  let first := search (index w) (buildSpellCheckQuery q) in
  exists res w',
    recoverZeroResults search q intent o w = (res, w')
    /\ match accepted_suggestion q (fst first) with
       | Some corrected =>
           match fst (search (snd first) (general_body corrected o)) with
           | Throw e =>
               res = Throw e
               /\ log w' = log w ++ [(buildSpellCheckQuery q, fst first);
                                     (general_body corrected o, Throw e)]
           | Ok _ => exists out, res = Ok out
           end
       | None => exists out, res = Ok out
       end.
Proof.
  intros first. unfold recoverZeroResults.
  destruct (trySpellCorrection_run search q w) as (sc & Hspell).
  unfold bind at 1. rewrite Hspell. fold first.
  set (w1 := {| index := snd first;
                log := log w ++ [(buildSpellCheckQuery q, fst first)] |}).
  destruct (accepted_suggestion q (fst first)) as [corrected|];
    cbn [option_map].
  - unfold bind at 1. unfold lift. rewrite general_request_ok.
    unfold bind at 1. rewrite es_search_run.
    change (index w1) with (snd first).
    destruct (search (snd first) (general_body corrected o))
      as [[resp|e'] s2]; cbn [fst snd].
    + destruct (0 <? hits_total_value resp)%Z.
      * eexists; eexists. split; [reflexivity|]. eexists; reflexivity.
      * destruct (after_spell_correction_cascade search q intent o
                    {| index := s2;
                       log := log w1
                              ++ [(general_body corrected o, Ok resp)] |})
          as (out & w' & calls & Hrun & _).
        exists (Ok out), w'. split; [exact Hrun|]. exists out; reflexivity.
    + eexists; eexists. split; [reflexivity|]. split; [reflexivity|].
      unfold w1. cbn [log]. rewrite <- app_assoc. reflexivity.
  - destruct (after_spell_correction_cascade search q intent o w1)
      as (out & w' & calls & Hrun & _).
    exists (Ok out), w'. split; [exact Hrun|]. exists out; reflexivity.
Qed.

(** X13. The recovery throws exactly when the spell check returned a
    suggestion that was accepted and the search for that suggestion
    failed: it then throws the error of that search, its second and last
    call. Without an accepted suggestion it returns an outcome. *)
Theorem recovery_throws_only_on_suggestion (q : jsstring) (intent : Intent)
  (o : Options) (w : World Hit Aggs S) (e : exn) :
  let first := search (index w) (buildSpellCheckQuery q) in
  let run := recoverZeroResults search q intent o w in
  (fst run = Throw e
   <-> exists corrected,
         accepted_suggestion q (fst first) = Some corrected
         /\ fst (search (snd first) (general_body corrected o)) = Throw e)
  /\ (fst run = Throw e ->
      exists corrected,
        log (snd run)
        = log w ++ [(buildSpellCheckQuery q, fst first);
                    (general_body corrected o, Throw e)])
  /\ (accepted_suggestion q (fst first) = None -> exists out, fst run = Ok out).
Proof.
  intros first run. subst run.
  destruct (recoverZeroResults_throws q intent o w)
    as (res & w' & -> & Hres). fold first in Hres. cbn [fst snd].
  destruct (accepted_suggestion q (fst first)) as [corrected|].
  - destruct (fst (search (snd first) (general_body corrected o)))
      as [resp|e'] eqn:E.
    + destruct Hres as (out & ->).
      split; [split|split]; try discriminate.
      intros (c & Hc & Hthrow). injection Hc as <-.
      rewrite E in Hthrow. discriminate.
    + destruct Hres as (-> & Hlog).
      split; [split|split]; try discriminate.
      * intros He. injection He as <-. exists corrected.
        split; [reflexivity|exact E].
      * intros (c & Hc & Hthrow). injection Hc as <-.
        rewrite E in Hthrow. injection Hthrow as ->. reflexivity.
      * intros He. injection He as <-. exists corrected. exact Hlog.
  - destruct Hres as (out & ->).
    split; [split|split]; try discriminate.
    + intros (c & Hc & _). discriminate.
    + intros _. exists out. reflexivity.
Qed.

Lemma relaxation_loop_built (words : list jsstring) (o : Options)
  (drops : list nat) :
  forall w : World Hit Aggs S,
  exists res w' calls,
    relaxation_loop search words o drops w = (Ok res, w')
    /\ log w' = log w ++ calls
    /\ forall out, res = Some out ->
         exists mid resp relaxed,
           calls = mid ++ [(general_body relaxed o, Ok resp)]
           /\ In relaxed (relaxed_texts words drops)
           /\ (0 < hits_total_value resp)%Z
           /\ out = outcome_of query_relaxation resp true
                      None (Some relaxed) None.
Proof.
  induction drops as [|drop drops IH]; intros w.
  - exists None, w, []. cbn. rewrite app_nil_r.
    repeat split; auto. discriminate.
  - cbn [relaxation_loop]. unfold relaxed_texts. cbn [map filter].
    fold (relaxed_texts words drops).
    set (relaxed := join (lit " ") (firstn (length words - drop) words)).
    destruct (truthy relaxed) eqn:Ht; cbn [negb]; [|apply IH].
    unfold bind at 1. unfold lift. rewrite general_request_ok.
    unfold bind at 1. unfold try_catch, bind at 1.
    rewrite es_search_run.
    assert (Hnext : forall r s',
               exists res w' calls,
                 relaxation_loop search words o drops
                   {| index := s';
                      log := log w ++ [(general_body relaxed o, r)] |}
                 = (Ok res, w')
                 /\ log w' = log w ++ calls
                 /\ forall out, res = Some out ->
                      exists mid resp relaxed0,
                        calls = mid ++ [(general_body relaxed0 o, Ok resp)]
                        /\ In relaxed0 (relaxed :: relaxed_texts words drops)
                        /\ (0 < hits_total_value resp)%Z
                        /\ out = outcome_of query_relaxation resp true
                                   None (Some relaxed0) None).
    { intros r s'.
      destruct (IH {| index := s';
                      log := log w ++ [(general_body relaxed o, r)] |})
        as (res & w' & calls & Hrun & Hlog & Hres).
      exists res, w', ((general_body relaxed o, r) :: calls).
      split; [exact Hrun|]. cbn [log] in Hlog.
      split; [rewrite Hlog, <- app_assoc; reflexivity|].
      intros out Hout.
      destruct (Hres out Hout) as (mid & resp & relaxed0 & -> & Hin & Hhit & ->).
      exists ((general_body relaxed o, r) :: mid), resp, relaxed0.
      repeat split; auto. right; exact Hin. }
    destruct (search (index w) (general_body relaxed o))
      as [[resp|e] s'] eqn:E; cbn [fst snd].
    + destruct (0 <? hits_total_value resp)%Z eqn:Hhit.
      * eexists; eexists; eexists. split; [reflexivity|].
        split; [reflexivity|]. intros out Hout. injection Hout as <-.
        exists [], resp, relaxed. repeat split.
        -- left; reflexivity.
        -- apply Z.ltb_lt; exact Hhit.
      * cbn [ret]. apply Hnext.
    + cbn [ret]. apply Hnext.
Qed.

Lemma getBestsellers_built (q : jsstring) (intent : Intent) (o : Options)
  (suggestion : option jsstring) (w : World Hit Aggs S) :
  exists out w' last,
    getBestsellers search w = (Ok out, w')
    /\ log w' = log w ++ [last]
    /\ built_from q intent o suggestion last out.
Proof.
  rewrite getBestsellers_run.
  destruct (fst (search (index w) bestsellers_body)) as [resp|e] eqn:E;
    eexists; eexists; eexists; (split; [reflexivity|]);
    cbn [log]; (split; [reflexivity|]); unfold built_from; cbn [fst snd].
  - right. right. right. split; reflexivity.
  - split; reflexivity.
Qed.

Lemma after_spell_correction_built (q : jsstring) (intent : Intent)
  (o : Options) (suggestion : option jsstring) (w : World Hit Aggs S) :
  exists out w' mid last,
    after_spell_correction search q intent o w = (Ok out, w')
    /\ log w' = log w ++ mid ++ [last]
    /\ built_from q intent o suggestion last out.
Proof.
  unfold after_spell_correction. rewrite tryQueryRelaxation_loop.
  destruct (relaxation_loop_built (split SPACES q) o
              (seq 1 (length (split SPACES q) - 1)) w)
    as (res & w1 & calls1 & Hrun & Hlog & Hres).
  unfold bind at 1. rewrite Hrun.
  assert (Hbest : exists out w' mid last,
             getBestsellers search w1 = (Ok out, w')
             /\ log w' = log w ++ mid ++ [last]
             /\ built_from q intent o suggestion last out).
  { destruct (getBestsellers_built q intent o suggestion w1)
      as (out & w2 & last & Hb & Hlog2 & Hbuilt).
    exists out, w2, calls1, last. split; [exact Hb|].
    split; [rewrite Hlog2, Hlog, <- app_assoc; reflexivity|exact Hbuilt]. }
  destruct res as [out|].
  - destruct (Hres out eq_refl) as (mid & resp & relaxed & -> & Hin & Hhit & ->).
    eexists; exists w1, mid; eexists. split; [reflexivity|].
    split; [exact Hlog|]. unfold built_from; cbn [fst snd].
    right. left. exists relaxed. repeat split; auto.
  - destruct (type intent) eqn:Ety;
      try (destruct (truthy_opt (category intent)); exact Hbest).
    destruct (truthy_opt (category intent)) as [cat|] eqn:Ecat;
      [|exact Hbest].
    unfold tryCategoryFallback, try_catch, bind. rewrite es_search_run.
    destruct (search (index w1) (category_body cat)) as [[resp|e] s'] eqn:E;
      cbn [fst snd].
    + destruct (0 <? hits_total_value resp)%Z eqn:Hhit; cbn [ret].
      * eexists; eexists; exists calls1; eexists. split; [reflexivity|].
        cbn [log]. split; [rewrite Hlog, <- app_assoc; reflexivity|].
        unfold built_from; cbn [fst snd].
        right. right. left. exists cat. repeat split; auto.
        apply Z.ltb_lt; exact Hhit.
      * destruct (getBestsellers_built q intent o suggestion
                    {| index := s';
                       log := log w1 ++ [(category_body cat, Ok resp)] |})
          as (out & w2 & last & Hb & Hlog2 & Hbuilt).
        exists out, w2, (calls1 ++ [(category_body cat, Ok resp)]), last.
        split; [exact Hb|].
        split; [|exact Hbuilt].
        rewrite Hlog2. cbn [log]. rewrite Hlog, <- !app_assoc. reflexivity.
    + cbn [ret].
      destruct (getBestsellers_built q intent o suggestion
                  {| index := s';
                     log := log w1 ++ [(category_body cat, Throw e)] |})
        as (out & w2 & last & Hb & Hlog2 & Hbuilt).
      exists out, w2, (calls1 ++ [(category_body cat, Throw e)]), last.
      split; [exact Hb|].
      split; [|exact Hbuilt].
      rewrite Hlog2. cbn [log]. rewrite Hlog, <- !app_assoc. reflexivity.
Qed.

Lemma recoverZeroResults_built (q : jsstring) (intent : Intent)
  (o : Options) (w : World Hit Aggs S) :
  exists res w' r0,
    recoverZeroResults search q intent o w = (res, w')
    /\ forall out, res = Ok out ->
         exists mid last,
           log w' = log w ++ (buildSpellCheckQuery q, r0) :: mid ++ [last]
           /\ built_from q intent o (accepted_suggestion q r0) last out.
Proof.
  unfold recoverZeroResults.
  destruct (trySpellCorrection_run search q w) as (sc & Hspell).
  unfold bind at 1. rewrite Hspell.
  set (r0 := fst (search (index w) (buildSpellCheckQuery q))).
  set (w1 := {| index := snd (search (index w) (buildSpellCheckQuery q));
                log := log w ++ [(buildSpellCheckQuery q, r0)] |}).
  assert (Hafter : forall w2 pre sug,
             log w2 = log w ++ (buildSpellCheckQuery q, r0) :: pre ->
             exists res w',
               after_spell_correction search q intent o w2 = (res, w')
               /\ forall out, res = Ok out ->
                    exists mid last,
                      log w'
                      = log w ++ (buildSpellCheckQuery q, r0) :: mid ++ [last]
                      /\ built_from q intent o sug last out).
  { intros w2 pre sug Hw2.
    destruct (after_spell_correction_built q intent o sug w2)
      as (out' & w3 & mid & last & Hrun & Hlog & Hbuilt).
    exists (Ok out'), w3. split; [exact Hrun|].
    intros out Hout. injection Hout as <-.
    exists (pre ++ mid), last. split; [|exact Hbuilt].
    rewrite Hlog, Hw2, <- !app_assoc. reflexivity. }
  destruct (accepted_suggestion q r0) as [corrected|] eqn:Hacc;
    cbn [option_map].
  - unfold bind at 1. unfold lift. rewrite general_request_ok.
    unfold bind at 1. rewrite es_search_run.
    destruct (search (index w1) (general_body corrected o))
      as [[resp|e] s2] eqn:E; cbn [fst snd].
    + destruct (0 <? hits_total_value resp)%Z eqn:Hhit.
      * eexists; eexists; exists r0. split; [reflexivity|].
        intros out Hout. injection Hout as <-.
        exists [], (general_body corrected o, Ok resp).
        split; [unfold w1; cbn [log app]; rewrite <- app_assoc; reflexivity|].
        unfold built_from; cbn [fst snd]. left. exists corrected.
        rewrite Hacc. repeat split. apply Z.ltb_lt; exact Hhit.
      * destruct (Hafter
                    {| index := s2;
                       log := log w1
                              ++ [(general_body corrected o, Ok resp)] |}
                    [(general_body corrected o, Ok resp)]
                    (accepted_suggestion q r0))
          as (res & w' & Hrun & Hres);
          [unfold w1; cbn [log]; rewrite <- app_assoc; reflexivity|].
        exists res, w', r0. split; [exact Hrun|exact Hres].
    + eexists; eexists; exists r0. split; [reflexivity|]. discriminate.
  - destruct (Hafter w1 [] (accepted_suggestion q r0))
      as (res & w' & Hrun & Hres); [reflexivity|].
    exists res, w', r0. split; [exact Hrun|exact Hres].
Qed.

(** X14. An outcome of the recovery is built from the answer to the last
    index call: its products and total are those of that answer; it is of
    type [spell_correction], [query_relaxation] or [category_fallback] only
    when that answer has a hit, and then carries the accepted suggestion
    as [didYouMean], one of the relaxed texts as [relaxedQuery], or the
    category of the CATEGORY intent as [fallbackCategory]; the bestsellers
    state returns whatever the index answers; and a failure of the
    bestsellers call gives the [error] outcome without products. *)
Theorem recovery_outcome_built (q : jsstring) (intent : Intent)
  (o : Options) (w : World Hit Aggs S) (out : RecoveryOutcome Hit Aggs) :
  fst (recoverZeroResults search q intent o w) = Ok out ->
  exists r0 mid last,
    log (snd (recoverZeroResults search q intent o w))
    = log w ++ (buildSpellCheckQuery q, r0) :: mid ++ [last]
    /\ built_from q intent o (accepted_suggestion q r0) last out.
Proof.
  destruct (recoverZeroResults_built q intent o w)
    as (res & w' & r0 & Hrun & Hres).
  rewrite Hrun. cbn [fst snd]. intros Hout.
  destruct (Hres out Hout) as (mid & last & Hlog & Hbuilt).
  exists r0, mid, last. split; assumption.
Qed.

End CascadeCost.

(** The index that suggests [canon] and then fails: the recovery for
    [cannon] throws the error of the search for the suggestion. *)
Lemma recovery_throws_only_on_suggestion_witness :
  fst (recoverZeroResults suggest_then_fail (lit "cannon")
         (classifyIntent (lit "cannon")) no_options
         {| index := 0; log := [] |}) = Throw IndexError.
Proof.
  apply (@recovery_throws_only_on_suggestion nat unit nat suggest_then_fail
           (lit "cannon") (classifyIntent (lit "cannon")) no_options
           {| index := 0; log := [] |} IndexError).
  exists (lit "canon"). split; vm_compute; reflexivity.
Defined.

(** The index without hits outside the bestsellers: the outcome for
    [cannon eos r6] is built from the answer to the bestsellers call. *)
Lemma recovery_outcome_built_witness :
  exists r0 mid last,
    log (snd (recoverZeroResults only_bestsellers (lit "cannon eos r6")
                (classifyIntent (lit "cannon eos r6")) no_options
                {| index := 0; log := [] |}))
    = [] ++ (buildSpellCheckQuery (lit "cannon eos r6"), r0) :: mid ++ [last]
    /\ built_from (lit "cannon eos r6")
         (classifyIntent (lit "cannon eos r6")) no_options
         (accepted_suggestion (lit "cannon eos r6") r0) last
         {| products := [7; 9]; total := 2%Z; out_aggregations := None;
            didYouMean := None; fallbackType := bestsellers;
            relaxedQuery := None; fallbackCategory := None |}.
Proof.
  apply (@recovery_outcome_built nat unit nat only_bestsellers
           (lit "cannon eos r6") (classifyIntent (lit "cannon eos r6"))
           no_options {| index := 0; log := [] |}).
  vm_compute. reflexivity.
Defined.

(** *** Merchandising *)

Import Merchandising Order MerchandisingSpec.

Lemma Subseq_refl {X : Type} (l : list X) : Subseq l l.
Proof. induction l; constructor; assumption. Qed.

Lemma Subseq_trans {X : Type} (l1 l2 l3 : list X) :
  Subseq l1 l2 -> Subseq l2 l3 -> Subseq l1 l3.
Proof.
  intros H12 H23. revert l1 H12.
  induction H23 as [|x l2 l3 H IH|x l2 l3 H IH]; intros l1 H12.
  - exact H12.
  - apply subseq_skip. apply IH. exact H12.
  - inversion H12; subst.
    + apply subseq_skip. apply IH. assumption.
    + apply subseq_keep. apply IH. assumption.
Qed.

Lemma Subseq_In {X : Type} (l1 l2 : list X) (x : X) :
  Subseq l1 l2 -> In x l1 -> In x l2.
Proof.
  induction 1 as [|y l1 l2 H IH|y l1 l2 H IH]; cbn [In]; intuition.
Qed.

Lemma Subseq_remove {X : Type} (l1 l2 : list X) (x : X) :
  Subseq (l1 ++ l2) (l1 ++ x :: l2).
Proof.
  induction l1 as [|y l1 IH]; cbn [app].
  - apply subseq_skip. apply Subseq_refl.
  - apply subseq_keep. exact IH.
Qed.

Section MerchandisingFacts.

Variable A : Type.
Variables pinnedRules blacklistedRules : Rules.

Lemma take_first_some (pid : jsstring) (l : list (Product A)) :
  forall p l', take_first pid l = Some (p, l') ->
    exists l1 l2,
      l = l1 ++ p :: l2 /\ l' = l1 ++ l2 /\ has_id pid p = true
      /\ Forall (fun x => has_id pid x = false) l1.
Proof.
  induction l as [|x l IH]; intros p l' H; cbn [take_first] in H;
    [discriminate|].
  destruct (has_id pid x) eqn:Hx.
  - injection H as <- <-. exists [], l. repeat split; auto.
  - destruct (take_first pid l) as [[y t']|]; [|discriminate].
    injection H as <- <-.
    destruct (IH y t' eq_refl) as (l1 & l2 & -> & -> & Hy & Hl1).
    exists (x :: l1), l2. repeat split; auto.
Qed.

Lemma take_first_none (pid : jsstring) (l : list (Product A)) :
  take_first pid l = None -> Forall (fun x => has_id pid x = false) l.
Proof.
  induction l as [|x l IH]; cbn [take_first]; [constructor|].
  destruct (has_id pid x) eqn:Hx; [discriminate|].
  destruct (take_first pid l) as [[y t']|]; [discriminate|].
  intros _. constructor; auto.
Qed.

(** The loop moves products from the list to the pinned ones, in the
    order of the pinned ids, and leaves the others in their order. *)
Lemma pin_loop_moves (byId : jsstring -> option (Product A))
  (pinnedIds : list jsstring) :
  not_found byId pinnedIds ->
  forall pinned filtered P F,
    pin_loop byId pinnedIds pinned filtered = (P, F) ->
    exists moved,
      P = pinned ++ map (@pin A) moved
      /\ Permutation (moved ++ F) filtered
      /\ Subseq F filtered
      /\ Subseq (map (@id A) moved) (map Some pinnedIds)
      /\ (NoDup (map (@id A) filtered) ->
          forall pid p, In pid pinnedIds -> In p F -> has_id pid p = false).
Proof.
  induction pinnedIds as [|pid pids IH]; intros Hby pinned filtered P F H;
    cbn [pin_loop] in H.
  - injection H as <- <-. exists []. cbn [map app]. rewrite app_nil_r.
    repeat split; auto using Subseq_refl; try constructor.
    intros _ pid p [].
  - rewrite (Hby pid (or_introl eq_refl)) in H.
    assert (Hby' : not_found byId pids)
      by (intros x Hx; apply Hby; right; exact Hx).
    specialize (IH Hby').
    destruct (take_first pid filtered) as [[x filtered']|] eqn:Etake.
    + destruct (take_first_some _ _ Etake) as (l1 & l2 & -> & -> & Hx & Hl1).
      destruct (IH _ _ _ _ H) as (moved & -> & Hperm & Hsub & Hids & Hnd).
      exists (x :: moved). cbn [map app]. rewrite <- app_assoc.
      split; [reflexivity|]. split; [|split; [|split]].
      * cbn [app]. apply Permutation_cons_app. exact Hperm.
      * eapply Subseq_trans; [exact Hsub|apply Subseq_remove].
      * cbn [map]. unfold has_id in Hx.
        destruct (id x) as [i|] eqn:Ei; [|discriminate].
        destruct (eqb_spec i pid) as [->|]; [|discriminate].
        apply subseq_keep. exact Hids.
      * intros Hno pid' p Hpid Hp.
        assert (Hno' : NoDup (map (@id A) (l1 ++ l2))).
        { rewrite map_app in *. cbn [map] in Hno.
          apply NoDup_remove_1 in Hno. exact Hno. }
        destruct Hpid as [<-|Hpid]; [|apply (Hnd Hno' pid' p Hpid Hp)].
        apply (Subseq_In p Hsub) in Hp.
        destruct (has_id pid p) eqn:Hpp; [|reflexivity]. exfalso.
        unfold has_id in Hx, Hpp.
        destruct (id x) as [i|] eqn:Ei; [|discriminate].
        destruct (id p) as [j|] eqn:Ej; [|discriminate].
        destruct (eqb_spec i pid) as [->|]; [|discriminate].
        destruct (eqb_spec j pid) as [->|]; [|discriminate].
        rewrite map_app in Hno. cbn [map] in Hno. rewrite Ei in Hno.
        apply NoDup_remove_2 in Hno. apply Hno.
        rewrite <- map_app, <- Ej. apply in_map. exact Hp.
    + destruct (IH _ _ _ _ H) as (moved & -> & Hperm & Hsub & Hids & Hnd).
      exists moved. repeat split; auto.
      * apply subseq_skip. exact Hids.
      * intros Hno pid' p Hpid Hp.
        destruct Hpid as [<-|Hpid]; [|apply (Hnd Hno pid' p Hpid Hp)].
        apply take_first_none in Etake. rewrite Forall_forall in Etake.
        apply Etake. apply (Subseq_In p Hsub). exact Hp.
Qed.

(** What [applyMerchandising] returns when [allProductsById] has none of
    the pinned ids. *)
Lemma applyMerchandising_moves (products : list (Product A))
  (query : jsstring) (byId : jsstring -> option (Product A)) :
  not_found byId (getPinnedProducts pinnedRules query) ->
  let filtered :=
    filter (fun p => negb (is_blacklisted
                             (getBlacklistedProducts blacklistedRules query) p))
           products in
  exists moved rest,
    applyMerchandising pinnedRules blacklistedRules products query byId
    = map (@pin A) moved ++ rest
    /\ Permutation (moved ++ rest) filtered
    /\ Subseq rest filtered
    /\ Subseq (map (@id A) moved)
              (map Some (getPinnedProducts pinnedRules query))
    /\ (NoDup (map (@id A) filtered) ->
        forall pid p, In pid (getPinnedProducts pinnedRules query) ->
                      In p rest -> has_id pid p = false).
Proof.
  intros Hby filtered. unfold applyMerchandising. cbv zeta. fold filtered.
  destruct (getPinnedProducts pinnedRules query) as [|pid pids] eqn:Epin.
  - exists [], filtered. cbn [map app].
    repeat split; auto using Subseq_refl; try constructor.
    intros _ pid p [].
  - destruct (pin_loop byId (pid :: pids) [] filtered)
      as [P F] eqn:Eloop.
    destruct (pin_loop_moves Hby _ _ Eloop)
      as (moved & -> & Hperm & Hsub & Hids & Hnd).
    exists moved, F. cbn [app]. repeat split; auto.
Qed.

Lemma is_blacklisted_pin (bl : list jsstring) (p : Product A) :
  is_blacklisted bl (pin p) = is_blacklisted bl p.
Proof. reflexivity. Qed.

(** X15. When [allProductsById] has none of the pinned ids, as with the
    default [{}] of the routes, [applyMerchandising] returns no product
    whose id is blacklisted for the query. *)
Theorem applyMerchandising_drops_blacklisted (products : list (Product A))
  (query : jsstring) (allProductsById : jsstring -> option (Product A)) :
  not_found allProductsById (getPinnedProducts pinnedRules query) ->
  Forall (fun p => is_blacklisted
                     (getBlacklistedProducts blacklistedRules query) p = false)
         (applyMerchandising pinnedRules blacklistedRules products query
                             allProductsById).
Proof.
  intros Hby.
  destruct (applyMerchandising_moves products query Hby)
    as (moved & rest & -> & Hperm & _).
  assert (Hin : forall p, In p (moved ++ rest) ->
            is_blacklisted (getBlacklistedProducts blacklistedRules query) p
            = false).
  { intros p Hp. apply (Permutation_in _ Hperm) in Hp.
    apply filter_In in Hp. destruct Hp as [_ Hp].
    apply negb_true_iff in Hp. exact Hp. }
  apply Forall_forall. intros p Hp. apply in_app_or in Hp.
  destruct Hp as [Hp|Hp].
  - apply in_map_iff in Hp. destruct Hp as (p0 & <- & Hp0).
    rewrite is_blacklisted_pin. apply Hin. apply in_or_app. left; exact Hp0.
  - apply Hin. apply in_or_app. right; exact Hp.
Qed.

Lemma unflagged_pin (l : list (Product A)) :
  map (@unflagged A) (map (@pin A) l) = map (@unflagged A) l.
Proof. rewrite map_map. reflexivity. Qed.

(** X16. When [allProductsById] has none of the pinned ids,
    [applyMerchandising] neither adds nor loses a product: apart from the
    [is_pinned] flag its result is a rearrangement of the products that
    are not blacklisted, so a pinned product that is not among the
    results is not shown. *)
Theorem applyMerchandising_rearranges (products : list (Product A))
  (query : jsstring) (allProductsById : jsstring -> option (Product A)) :
  not_found allProductsById (getPinnedProducts pinnedRules query) ->
  let filtered :=
    filter (fun p => negb (is_blacklisted
                             (getBlacklistedProducts blacklistedRules query) p))
           products in
  let out := applyMerchandising pinnedRules blacklistedRules products query
                                allProductsById in
  Permutation (map (@unflagged A) out) (map (@unflagged A) filtered)
  /\ length out = length filtered
  /\ length out <= length products.
Proof.
  intros Hby filtered out. subst out.
  destruct (applyMerchandising_moves products query Hby)
    as (moved & rest & -> & Hperm & _). fold filtered in Hperm.
  assert (H : Permutation (map (@unflagged A) (map (@pin A) moved ++ rest))
                          (map (@unflagged A) filtered)).
  { rewrite map_app, unflagged_pin, <- map_app.
    apply Permutation_map. exact Hperm. }
  split; [exact H|].
  apply Permutation_length in H. rewrite !length_map in H.
  split; [exact H|]. rewrite H. apply filter_length_le.
Qed.

Lemma NoDup_filter_ids (l : list (Product A)) (f : Product A -> bool) :
  NoDup (map (@id A) l) -> NoDup (map (@id A) (filter f l)).
Proof.
  induction l as [|x l IH]; intros Hl; cbn [filter map]; [constructor|].
  cbn [map] in Hl. inversion Hl as [|? ? Hx Hl']; subst.
  destruct (f x); [|apply IH; exact Hl'].
  cbn [map]. constructor; [|apply IH; exact Hl'].
  intros Hin. apply Hx. apply in_map_iff in Hin.
  destruct Hin as (y & Hy & Hin). apply filter_In in Hin.
  rewrite <- Hy. apply in_map. tauto.
Qed.

Lemma has_id_eq (pid : jsstring) (p : Product A) :
  has_id pid p = true <-> id p = Some pid.
Proof.
  unfold has_id. destruct (id p) as [i|]; [|split; discriminate].
  destruct (eqb_spec i pid) as [->|Hn]; split; try reflexivity;
    try discriminate. intros H. injection H as ->. contradiction.
Qed.

Lemma find_take_first (pid : jsstring) (l : list (Product A)) :
  find (has_id pid) l = option_map fst (take_first pid l).
Proof.
  induction l as [|x l IH]; [reflexivity|]. cbn [find take_first].
  destruct (has_id pid x); [reflexivity|]. rewrite IH.
  destruct (take_first pid l) as [[y t]|]; reflexivity.
Qed.

(** Taking a product out of a list with distinct ids does not change what
    is found for another id. *)
Lemma find_without (pid pid' : jsstring) (l1 l2 : list (Product A))
  (x : Product A) :
  has_id pid x = true -> pid' <> pid ->
  find (has_id pid') (l1 ++ x :: l2) = find (has_id pid') (l1 ++ l2).
Proof.
  intros Hx Hne. induction l1 as [|y l1 IH]; cbn [app find].
  - destruct (has_id pid' x) eqn:Hx'; [|reflexivity].
    apply has_id_eq in Hx. apply has_id_eq in Hx'. congruence.
  - destruct (has_id pid' y); [reflexivity|exact IH].
Qed.

Lemma found_pinned_without (pid : jsstring) (pids : list jsstring)
  (l1 l2 : list (Product A)) (x : Product A) :
  has_id pid x = true -> ~ In pid pids ->
  found_pinned pids (l1 ++ x :: l2) = found_pinned pids (l1 ++ l2).
Proof.
  intros Hx Hnot. unfold found_pinned.
  induction pids as [|p pids IH]; [reflexivity|]. cbn [flat_map].
  rewrite (@find_without pid p l1 l2 x Hx)
    by (intros ->; apply Hnot; left; reflexivity).
  rewrite IH by (intros H; apply Hnot; right; exact H). reflexivity.
Qed.

Lemma not_pinned_cons_out (pid : jsstring) (pids : list jsstring)
  (l : list (Product A)) :
  Forall (fun y => has_id pid y = false) l ->
  not_pinned (pid :: pids) l = not_pinned pids l.
Proof.
  intros H. unfold not_pinned. apply filter_ext_in. intros y Hy.
  rewrite Forall_forall in H. cbn [existsb]. rewrite (H y Hy). reflexivity.
Qed.

Lemma not_pinned_app (pids : list jsstring) (l1 l2 : list (Product A)) :
  not_pinned pids (l1 ++ l2) = not_pinned pids l1 ++ not_pinned pids l2.
Proof. apply filter_app. Qed.

(** In a list with distinct ids, the products after one with the id do
    not have it. *)
Lemma distinct_after (pid : jsstring) (l1 l2 : list (Product A))
  (x : Product A) :
  NoDup (map (@id A) (l1 ++ x :: l2)) -> has_id pid x = true ->
  Forall (fun y => has_id pid y = false) l2.
Proof.
  intros Hno Hx. apply has_id_eq in Hx.
  rewrite map_app in Hno. cbn [map] in Hno. apply NoDup_remove_2 in Hno.
  apply Forall_forall. intros y Hy.
  destruct (has_id pid y) eqn:E; [|reflexivity]. exfalso.
  apply has_id_eq in E. apply Hno. apply in_or_app. right.
  rewrite Hx, <- E. apply in_map. exact Hy.
Qed.

(** The loop pins exactly the pinned products that it finds. *)
Lemma pin_loop_found (byId : jsstring -> option (Product A))
  (pinnedIds : list jsstring) :
  not_found byId pinnedIds -> NoDup pinnedIds ->
  forall pinned filtered,
    NoDup (map (@id A) filtered) ->
    pin_loop byId pinnedIds pinned filtered
    = (pinned ++ map (@pin A) (found_pinned pinnedIds filtered),
       not_pinned pinnedIds filtered).
Proof.
  induction pinnedIds as [|pid pids IH]; intros Hby Hpids pinned filtered Hno;
    cbn [pin_loop].
  - unfold found_pinned, not_pinned. cbn [flat_map map existsb negb].
    rewrite app_nil_r. f_equal. symmetry.
    induction filtered as [|x l IHl]; [reflexivity|]. cbn [filter].
    f_equal. apply IHl. cbn [map] in Hno. inversion Hno; assumption.
  - rewrite (Hby pid (or_introl eq_refl)).
    assert (Hby' : not_found byId pids)
      by (intros x Hx; apply Hby; right; exact Hx).
    inversion Hpids as [|? ? Hnotin Hpids']; subst.
    unfold found_pinned at 1. cbn [flat_map]. fold (found_pinned pids filtered).
    rewrite find_take_first.
    destruct (take_first pid filtered) as [[x filtered']|] eqn:Etake;
      cbn [option_map fst].
    + destruct (take_first_some _ _ Etake) as (l1 & l2 & -> & -> & Hx & Hl1).
      assert (Hno' : NoDup (map (@id A) (l1 ++ l2))).
      { rewrite map_app in *. cbn [map] in Hno.
        apply NoDup_remove_1 in Hno. exact Hno. }
      rewrite (IH Hby' Hpids' _ _ Hno').
      rewrite (@found_pinned_without pid pids l1 l2 x Hx Hnotin).
      cbn [app map]. rewrite <- app_assoc. cbn [app]. f_equal.
      pose proof (@distinct_after pid l1 l2 x Hno Hx) as Hl2.
      rewrite !not_pinned_app.
      rewrite (@not_pinned_cons_out pid pids l1 Hl1).
      f_equal. rewrite <- (@not_pinned_cons_out pid pids l2 Hl2).
      unfold not_pinned. cbn [filter existsb]. rewrite Hx. reflexivity.
    + rewrite (IH Hby' Hpids' _ _ Hno). cbn [app]. f_equal.
      symmetry. apply not_pinned_cons_out. apply take_first_none. exact Etake.
Qed.

(** X17. When [allProductsById] has none of the pinned ids, and the
    pinned ids and the ids of the results are distinct, [applyMerchandising]
    returns the pinned products found among the results that are not
    blacklisted, one for each pinned id that has one, in the order of the
    pinned ids and flagged, followed by the other results in their
    order. *)
Theorem applyMerchandising_pinned_first (products : list (Product A))
  (query : jsstring) (allProductsById : jsstring -> option (Product A)) :
  let pinnedIds := getPinnedProducts pinnedRules query in
  let filtered :=
    filter (fun p => negb (is_blacklisted
                             (getBlacklistedProducts blacklistedRules query) p))
           products in
  not_found allProductsById pinnedIds ->
  NoDup pinnedIds ->
  NoDup (map (@id A) products) ->
  applyMerchandising pinnedRules blacklistedRules products query
                     allProductsById
  = map (@pin A) (found_pinned pinnedIds filtered)
    ++ not_pinned pinnedIds filtered
  /\ Forall (fun p => is_pinned p = true)
            (map (@pin A) (found_pinned pinnedIds filtered))
  /\ (forall pid p,
        In pid pinnedIds -> In p filtered -> has_id pid p = true ->
        In p (found_pinned pinnedIds filtered)).
Proof.
  intros pinnedIds filtered Hby Hpids Hno.
  assert (Hnof : NoDup (map (@id A) filtered))
    by (apply NoDup_filter_ids; exact Hno).
  split; [|split].
  - unfold applyMerchandising. cbv zeta. fold pinnedIds. fold filtered.
    pose proof (@pin_loop_found allProductsById pinnedIds Hby Hpids []
                  filtered Hnof) as Hloop.
    destruct pinnedIds as [|pid pids] eqn:Epin.
    + cbn [pin_loop] in Hloop. apply (f_equal snd) in Hloop.
      cbn [snd] in Hloop. unfold found_pinned. cbn [flat_map map app].
      exact Hloop.
    + rewrite Hloop. reflexivity.
  - apply Forall_forall. intros p Hp. apply in_map_iff in Hp.
    destruct Hp as (p0 & <- & _). reflexivity.
  - intros pid p Hpid Hp Hid. unfold found_pinned. apply in_flat_map.
    exists pid. split; [exact Hpid|].
    destruct (find (has_id pid) filtered) as [p'|] eqn:Ef.
    + left. apply find_some in Ef. destruct Ef as [Hin' Hid'].
      apply has_id_eq in Hid. apply has_id_eq in Hid'.
      (* distinct ids: the same product *)
      clear - Hnof Hp Hin' Hid Hid'.
      induction filtered as [|x l IH]; [contradiction|].
      cbn [map] in Hnof. inversion Hnof as [|? ? Hx Hl]; subst.
      destruct Hp as [->|Hp]; destruct Hin' as [->|Hin']; auto.
      * exfalso. apply Hx. rewrite Hid, <- Hid'. apply in_map. exact Hin'.
      * exfalso. apply Hx. rewrite Hid', <- Hid. apply in_map. exact Hp.
    + exfalso. apply (find_none _ _ Ef) in Hp. congruence.
Qed.

(** X18. When [allProductsById] has none of the pinned ids and the
    results have distinct ids, every returned product whose id is pinned
    for the query carries the [is_pinned] flag. *)
Theorem applyMerchandising_flags_pinned (products : list (Product A))
  (query pid : jsstring) (p : Product A)
  (allProductsById : jsstring -> option (Product A)) :
  not_found allProductsById (getPinnedProducts pinnedRules query) ->
  NoDup (map (@id A) products) ->
  In pid (getPinnedProducts pinnedRules query) ->
  In p (applyMerchandising pinnedRules blacklistedRules products query
                           allProductsById) ->
  has_id pid p = true ->
  is_pinned p = true.
Proof.
  intros Hby Hno Hpid Hp Hid.
  destruct (applyMerchandising_moves products query Hby)
    as (moved & rest & Hout & _ & _ & _ & Hnd).
  rewrite Hout in Hp. apply in_app_or in Hp. destruct Hp as [Hp|Hp].
  - apply in_map_iff in Hp. destruct Hp as (p0 & <- & _). reflexivity.
  - rewrite (Hnd (@NoDup_filter_ids products _ Hno) pid p Hpid Hp) in Hid.
    discriminate.
Qed.

(** X19. For a query of the code units U+0000 to U+017F (without U+0130),
    the rule of a query is looked up by the lower-case, trimmed query:
    white space around the query and its case do not change the pinned
    and blacklisted ids, and the ids returned are those of a rule whose
    key is the query or is followed by a space in it. *)
Theorem merchandising_rule_lookup (query : jsstring) :
  latin query = true ->
  let q := trim (toLowerCase query) in
  (forall ws1 ws2,
      forallb is_space ws1 = true -> forallb is_space ws2 = true ->
      getPinnedProducts pinnedRules (ws1 ++ query ++ ws2)
      = getPinnedProducts pinnedRules query
      /\ getBlacklistedProducts blacklistedRules (ws1 ++ query ++ ws2)
         = getBlacklistedProducts blacklistedRules query)
  /\ getPinnedProducts pinnedRules (toLowerCase query)
     = getPinnedProducts pinnedRules query
  /\ getBlacklistedProducts blacklistedRules (toLowerCase query)
     = getBlacklistedProducts blacklistedRules query
  /\ (getPinnedProducts pinnedRules query = []
      \/ exists key,
           In (key, getPinnedProducts pinnedRules query) pinnedRules
           /\ (q = key \/ startsWith q (key ++ lit " ") = true))
  /\ (getBlacklistedProducts blacklistedRules query = []
      \/ exists key,
           In (key, getBlacklistedProducts blacklistedRules query)
              blacklistedRules
           /\ (q = key \/ startsWith q (key ++ lit " ") = true)).
Proof.
  intros _ q.
  assert (Hpad : forall rules ws1 ws2,
             forallb is_space ws1 = true -> forallb is_space ws2 = true ->
             lookup_rules rules (ws1 ++ query ++ ws2)
             = lookup_rules rules query).
  { intros rules ws1 ws2 H1 H2. unfold lookup_rules.
    rewrite !or_else_empty, !toLowerCase_app.
    rewrite (toLowerCase_spaces _ H1), (toLowerCase_spaces _ H2).
    rewrite (@trim_padded ws1 (toLowerCase query) ws2 H1 H2). reflexivity. }
  assert (Hlow : forall rules,
             lookup_rules rules (toLowerCase query)
             = lookup_rules rules query).
  { intros rules. unfold lookup_rules.
    rewrite !or_else_empty, toLowerCase_idempotent. reflexivity. }
  assert (Hrule : forall rules,
             lookup_rules rules query = []
             \/ exists key,
                  In (key, lookup_rules rules query) rules
                  /\ (q = key \/ startsWith q (key ++ lit " ") = true)).
  { intros rules. unfold lookup_rules. rewrite or_else_empty. fold q.
    induction rules as [|[key ids] rules IH]; [left; reflexivity|].
    cbn [first_rule].
    destruct (JsString.eqb q key || startsWith q (key ++ lit " ")) eqn:E.
    - right. exists key. split; [left; reflexivity|].
      apply orb_true_iff in E. destruct E as [E|E]; [left|right; exact E].
      destruct (eqb_spec q key); [assumption|discriminate].
    - destruct IH as [IH|(k & Hin & Hk)]; [left; exact IH|].
      right. exists k. split; [right; exact Hin|exact Hk]. }
  unfold getPinnedProducts, getBlacklistedProducts.
  split; [intros ws1 ws2 H1 H2; split; apply Hpad; assumption|].
  split; [apply Hlow|]. split; [apply Hlow|]. split; apply Hrule.
Qed.

End MerchandisingFacts.

(** The rule for [canon] applies to [Canon EOS], with or without white
    space around it. *)
Lemma merchandising_rule_lookup_witness :
  getPinnedProducts sample_pinned (lit " " ++ lit "Canon EOS" ++ lit "  ")
  = getPinnedProducts sample_pinned (lit "Canon EOS")
  /\ getPinnedProducts sample_pinned (lit "Canon EOS") = [lit "p3"; lit "p9"].
Proof.
  split; [|vm_compute; reflexivity].
  apply (@merchandising_rule_lookup sample_pinned sample_blacklisted
           (lit "Canon EOS")); reflexivity.
Defined.

(** Three results, of which [p3] is pinned and [p1] blacklisted for
    queries that start with [canon]: [p3] is returned first and flagged,
    [p1] is not returned, and the pinned [p9], which is not among the
    results, is not shown. *)
Lemma applyMerchandising_drops_blacklisted_witness :
  Forall (fun p => is_blacklisted
                     (getBlacklistedProducts sample_blacklisted
                                             (lit "Canon EOS")) p = false)
         (applyMerchandising sample_pinned sample_blacklisted sample_products
                             (lit "Canon EOS") (no_products unit)).
Proof.
  apply (@applyMerchandising_drops_blacklisted unit sample_pinned
           sample_blacklisted sample_products (lit "Canon EOS")
           (no_products unit)).
  intros pid _. reflexivity.
Defined.

Lemma applyMerchandising_rearranges_witness :
  applyMerchandising sample_pinned sample_blacklisted sample_products
                     (lit "Canon EOS") (no_products unit)
  = [ {| id := Some (lit "p3"); is_pinned := true; details := tt |};
      {| id := Some (lit "p2"); is_pinned := false; details := tt |} ]
  /\ length (applyMerchandising sample_pinned sample_blacklisted
               sample_products (lit "Canon EOS") (no_products unit))
     <= length sample_products.
Proof.
  split; [vm_compute; reflexivity|].
  apply (@applyMerchandising_rearranges unit sample_pinned
           sample_blacklisted sample_products (lit "Canon EOS")
           (no_products unit)).
  intros pid _. reflexivity.
Defined.

Lemma applyMerchandising_pinned_first_witness :
  applyMerchandising sample_pinned sample_blacklisted sample_products
                     (lit "Canon EOS") (no_products unit)
  = map (@pin unit)
        [ {| id := Some (lit "p3"); is_pinned := false; details := tt |} ]
    ++ [ {| id := Some (lit "p2"); is_pinned := false; details := tt |} ].
Proof.
  assert (Hpins : NoDup (getPinnedProducts sample_pinned (lit "Canon EOS"))).
  { replace (getPinnedProducts sample_pinned (lit "Canon EOS"))
      with [lit "p3"; lit "p9"] by (vm_compute; reflexivity).
    repeat (constructor; [cbn [In]; intros [H|H]; [discriminate H|exact H]|]).
    constructor; [intros []|constructor]. }
  assert (Hids : NoDup (map (@id unit) sample_products)).
  { cbn [map sample_products id].
    constructor; [cbn [In]; intros [H|[H|H]];
                  [discriminate H|discriminate H|exact H]|].
    constructor; [cbn [In]; intros [H|H]; [discriminate H|exact H]|].
    constructor; [intros []|constructor]. }
  destruct (@applyMerchandising_pinned_first unit sample_pinned
              sample_blacklisted sample_products (lit "Canon EOS")
              (no_products unit) (fun pid _ => eq_refl) Hpins Hids)
    as [H _].
  rewrite H. vm_compute. reflexivity.
Defined.

Lemma applyMerchandising_flags_pinned_witness :
  NoDup (map (@id unit) sample_products)
  /\ is_pinned {| id := Some (lit "p3"); is_pinned := true; details := tt |}
     = true.
Proof.
  assert (Hno : NoDup (map (@id unit) sample_products)).
  { repeat (constructor; [cbn; intuition discriminate|]). constructor. }
  split; [exact Hno|].
  apply (@applyMerchandising_flags_pinned unit sample_pinned
           sample_blacklisted sample_products (lit "Canon EOS") (lit "p3")
           {| id := Some (lit "p3"); is_pinned := true; details := tt |}
           (no_products unit)).
  - intros pid _. reflexivity.
  - exact Hno.
  - vm_compute. left; reflexivity.
  - vm_compute. left; reflexivity.
  - vm_compute. reflexivity.
Defined.

(** *** The ranking envelope on documents *)

Import RankingDocs.

Open Scope R_scope.

Lemma eval_script_keywords (sc : Script) (ps : list (jsstring * jsstring))
  (d : Doc) (a c k : jsstring) :
  eval_script sc ps (with_keywords d a c k) = eval_script sc ps d.
Proof. destruct sc; reflexivity. Qed.

(** The scripts of the envelope other than the margin and the rating are
    at least 1. *)
Lemma script_ge_1 (sc : Script) (d : Doc) :
  In sc [sales_30d_boost; sales_365d_boost; revenue_boost;
         ga4_popularity_boost; ga4_conversion_boost; ga4_trending_boost;
         sku_specificity_boost] ->
  1 <= eval_script sc [] d.
Proof.
  intros Hin. cbn in Hin.
  destruct Hin as [<-|[<-|[<-|[<-|[<-|[<-|[<-|[]]]]]]]]; unfold eval_script.
  - destruct (Rlt_dec 0 (doc_sales_30d d)) as [H|H]; [|lra].
    pose proof (ln_1p_pos H). lra.
  - destruct (doc_sales_365d d) as [v|]; [|lra].
    destruct (Rlt_dec 0 v) as [H|H]; [|lra].
    pose proof (ln_1p_pos H). lra.
  - match goal with
    | |- 1 <= (if Rlt_dec 0 ?rev then _ else _) =>
        destruct (Rlt_dec 0 rev) as [H|H]; [|lra];
        pose proof (ln_1p_pos H); lra
    end.
  - apply positive_boost_ge_1. lra.
  - apply positive_boost_ge_1. lra.
  - apply positive_boost_ge_1. lra.
  - repeat match goal with
           | |- context [if ?c then _ else _] => destruct c
           end; lra.
Qed.

Lemma functions_value_pos (now : R) (fs : list score_function) (d : Doc) :
  Forall (fun f => 0 < apply_function now f d) fs ->
  0 < functions_value now fs d.
Proof.
  induction 1 as [|f fs Hf _ IH]; cbn [functions_value fold_right]; [lra|].
  fold (functions_value now fs d). apply Rmult_lt_0_compat; assumption.
Qed.

Lemma functions_value_same (now : R) (fs : list score_function)
  (d1 d2 : Doc) :
  Forall (fun f => apply_function now f d1 = apply_function now f d2) fs ->
  functions_value now fs d1 = functions_value now fs d2.
Proof.
  induction 1 as [|f fs Hf _ IH]; cbn [functions_value fold_right];
    [reflexivity|].
  fold (functions_value now fs d1). fold (functions_value now fs d2).
  rewrite Hf, IH. reflexivity.
Qed.

Lemma unchanged_between (now : R) (d1 d2 : Doc) (f : score_function) :
  apply_function now f d1 = apply_function now f d2 ->
  0 <= apply_function now f d1 ->
  between now d1 d2 f.
Proof. unfold between. intros <- H. lra. Qed.

Close Scope R_scope.

(** A factor of the envelope is positive, given that the margin and the
    rating factors are. *)
Ltac factor_pos :=
  lazymatch goal with
  | |- (0 < apply_function _ (weight_fn _ _) _)%R =>
      unfold apply_function;
      match goal with
      | |- context [filter_matches ?f ?d] => destruct (filter_matches f d)
      end; [unfold Q2R; cbn [Qnum Qden]; lra|lra]
  | |- (0 < apply_function _ (gauss _ _ _ _) _)%R =>
      unfold apply_function, gauss_decay; apply exp_pos
  | |- (0 < apply_function _ (script_score margin_boost _) _)%R =>
      cbn [apply_function]; rewrite ?eval_script_keywords; assumption
  | |- (0 < apply_function _ (script_score rating_boost _) _)%R =>
      cbn [apply_function]; rewrite ?eval_script_keywords; assumption
  | |- (0 < apply_function _ (script_score ?sc _) ?d)%R =>
      cbn [apply_function];
      let H := fresh in
      assert (H : (1 <= eval_script sc [] d)%R)
        by (apply script_ge_1; cbn; tauto);
      lra
  end.

Ltac factor_nonneg :=
  apply Rlt_le; factor_pos.

Ltac envelope_cases intent :=
  unfold wrapWithFunctionScore, when_term;
  destruct (conditionPref_of intent) as [[|]|];
  cbn [condition_weights fst snd];
  repeat match goal with
         | |- context [if ?c then _ else _] => destruct c
         end;
  cbn [app].

(** A factor of the envelope is not negative, given that the margin and
    the rating factors are not. *)
Ltac factor_accepted :=
  first [ cbn [apply_function]; assumption | factor_nonneg ].

(** X20. The index scores a document under the envelope exactly when the
    margin factor and the rating factor of the document are not negative:
    no other function of the envelope can be negative, for any intent. The
    score is then not negative. *)
Theorem envelope_accepted (now base : R) (baseQuery : Query)
  (intent : option Intent) (d : Doc) :
  let envelope := wrapWithFunctionScore baseQuery intent in
  (index_score now envelope d base <> None
   <-> (0 <= eval_script margin_boost [] d)%R
       /\ (0 <= eval_script rating_boost [] d)%R)
  /\ ((0 <= base)%R ->
      forall x, index_score now envelope d base = Some x -> (0 <= x)%R).
Proof.
  intros envelope. subst envelope. rewrite index_score_envelope.
  split; [split|].
  - destruct (accepts now _ d) eqn:E; [|congruence].
    intros _. apply (accepts_margin_rating _ _ _ _ E).
  - intros [Hm Hr].
    assert (E : accepts now
                  (functions_of (wrapWithFunctionScore baseQuery intent)) d
                = true).
    { apply accepts_iff. envelope_cases intent; cbn [functions_of];
        repeat (apply Forall_cons; [factor_accepted|]); apply Forall_nil. }
    rewrite E. discriminate.
  - intros Hbase x.
    destruct (accepts now _ d) eqn:E; [|discriminate].
    intros H.
    assert (Hx : x = (base * functions_value now
                               (functions_of
                                  (wrapWithFunctionScore baseQuery intent)) d)%R)
      by congruence.
    rewrite Hx. apply Rmult_le_pos; [exact Hbase|].
    apply accepts_nonneg. exact E.
Qed.

(** A product at a margin of 10 per cent is scored; at a margin of -400 per
    cent the margin factor is -0.2 and the request is refused. *)
Lemma envelope_accepted_witness :
  index_score 0 (wrapWithFunctionScore match_all None) (sample_doc 10) 1
  <> None
  /\ index_score 0 (wrapWithFunctionScore match_all None) (sample_doc (-400)) 1
     = None.
Proof.
  split.
  - apply (@envelope_accepted 0 1 match_all None (sample_doc 10)).
    split.
    + cbn [eval_script sample_doc doc_margin_pct]. lra.
    + cbn [eval_script sample_doc doc_review_count doc_avg_rating].
      destruct (Rge_dec 0 3); lra.
  - destruct (index_score 0 (wrapWithFunctionScore match_all None)
                (sample_doc (-400)) 1) as [x|] eqn:E; [|reflexivity].
    exfalso.
    assert (H : index_score 0 (wrapWithFunctionScore match_all None)
                  (sample_doc (-400)) 1 <> None) by congruence.
    apply (@envelope_accepted 0 1 match_all None (sample_doc (-400))) in H.
    destruct H as [H _]. cbn [eval_script sample_doc doc_margin_pct] in H. lra.
Defined.

(** A factor that does not read the keyword that changes. *)
Ltac factor_unchanged :=
  apply unchanged_between; [reflexivity|factor_nonneg].

(** A weight whose filter reads the keyword that changes: both filters are
    evaluated. *)
Ltac weight_between :=
  unfold between, apply_function;
  repeat match goal with
         | |- context [filter_matches ?f ?d] =>
             let b := eval lazy in (filter_matches f d) in
             change (filter_matches f d) with b
         end;
  unfold Q2R; cbn [Qnum Qden]; lra.

Lemma nonneg_keywords (d : Doc) (a c k : jsstring) :
  (0 < eval_script margin_boost [] d)%R ->
  (0 < eval_script rating_boost [] d)%R ->
  (0 < eval_script margin_boost [] (with_keywords d a c k))%R
  /\ (0 < eval_script rating_boost [] (with_keywords d a c k))%R.
Proof. rewrite !eval_script_keywords. auto. Qed.

(** X21. Of two documents that differ only in [condition], the used one
    does not score lower when the [conditionPref] of the intent is [used],
    and the new one does not score lower for any other intent (no
    preference, or a preference for new products) and without an intent,
    given a text relevance that is not negative and positive margin and
    rating factors. *)
Theorem condition_preference_orders (now base : R) (baseQuery : Query)
  (i : Intent) (d : Doc) (a k : jsstring) :
  (0 <= base)%R ->
  (0 < eval_script margin_boost [] d)%R ->
  (0 < eval_script rating_boost [] d)%R ->
  let score intent x :=
    ranking_score now (wrapWithFunctionScore baseQuery intent) x base in
  let d_new := with_keywords d a (lit "new") k in
  let d_used := with_keywords d a (lit "used") k in
  (conditionPref i = Some (Some used) ->
     (score (Some i) d_new <= score (Some i) d_used)%R)
  /\ (conditionPref i <> Some (Some used) ->
        (score (Some i) d_used <= score (Some i) d_new)%R)
  /\ (score None d_used <= score None d_new)%R.
Proof.
  intros Hbase Hm Hr score d_new d_used. subst score. cbv beta.
  destruct (@nonneg_keywords d a (lit "new") k Hm Hr) as [Hmn Hrn].
  destruct (@nonneg_keywords d a (lit "used") k Hm Hr) as [Hmu Hru].
  fold d_new in Hmn, Hrn. fold d_used in Hmu, Hru.
  split; [|split]; [intros Hpref|intros Hpref|];
    unfold ranking_score, wrapWithFunctionScore, when_term;
    (apply Rmult_le_compat_l; [exact Hbase|]);
    apply functions_value_between;
    unfold conditionPref_of;
    try (destruct (conditionPref i) as [[[|]|]|]; try congruence);
    cbn [condition_weights fst snd];
    repeat match goal with
           | |- context [if ?c then _ else _] => destruct c
           end;
    cbn [app];
    repeat (apply Forall_cons;
            [first [factor_unchanged|subst d_new d_used; weight_between]|]);
    apply Forall_nil.
Qed.

(** For [sony a7 iv używany], which asks for used products, a used camera
    does not score lower than a new one that is otherwise the same. *)
Lemma condition_preference_orders_witness :
  conditionPref (classifyIntent (lit "sony a7 iv używany")) = Some (Some used)
  /\ (ranking_score 0
        (wrapWithFunctionScore match_all
           (Some (classifyIntent (lit "sony a7 iv używany"))))
        (with_keywords (sample_doc 10) (lit "in_stock") (lit "new")
                       (lit "Aparaty cyfrowe")) 1
      <= ranking_score 0
           (wrapWithFunctionScore match_all
              (Some (classifyIntent (lit "sony a7 iv używany"))))
           (with_keywords (sample_doc 10) (lit "in_stock") (lit "used")
                          (lit "Aparaty cyfrowe")) 1)%R.
Proof.
  assert (Hu : conditionPref (classifyIntent (lit "sony a7 iv używany"))
               = Some (Some used)) by (vm_compute; reflexivity).
  split; [exact Hu|].
  apply (@condition_preference_orders 0 1 match_all
           (classifyIntent (lit "sony a7 iv używany")) (sample_doc 10)
           (lit "in_stock") (lit "Aparaty cyfrowe")).
  - lra.
  - cbn [eval_script sample_doc doc_margin_pct]. lra.
  - cbn [eval_script sample_doc doc_review_count doc_avg_rating].
    destruct (Rge_dec 0 3); lra.
  - exact Hu.
Defined.

Lemma functions_value_3 (now : R) (f1 f2 f3 : score_function)
  (fs : list score_function) (d : Doc) :
  functions_value now (f1 :: f2 :: f3 :: fs) d
  = (apply_function now f1 d
     * (apply_function now f2 d
        * (apply_function now f3 d * functions_value now fs d)))%R.
Proof. reflexivity. Qed.

(** X22. Of three documents that differ only in [availability], the one
    in stock does not score lower than the one on order, which does not
    score lower than the one out of stock, given a text relevance that is
    not negative and positive margin and rating factors. *)
Theorem availability_orders (now base : R) (baseQuery : Query)
  (intent : option Intent) (d : Doc) (c k : jsstring) :
  (0 <= base)%R ->
  (0 < eval_script margin_boost [] d)%R ->
  (0 < eval_script rating_boost [] d)%R ->
  let envelope := wrapWithFunctionScore baseQuery intent in
  let d_in := with_keywords d (lit "in_stock") c k in
  let d_order := with_keywords d (lit "na_zamowienie") c k in
  let d_out := with_keywords d (lit "out_of_stock") c k in
  (ranking_score now envelope d_out base
   <= ranking_score now envelope d_order base)%R
  /\ (ranking_score now envelope d_order base
      <= ranking_score now envelope d_in base)%R.
Proof.
  intros Hbase Hm Hr envelope d_in d_order d_out. subst envelope.
  destruct (@nonneg_keywords d (lit "in_stock") c k Hm Hr) as [Hmi Hri].
  fold d_in in Hmi, Hri.
  unfold ranking_score, wrapWithFunctionScore, when_term.
  cbn [app].
  rewrite (@functions_value_3 now _ _ _ _ d_in),
          (@functions_value_3 now _ _ _ _ d_order),
          (@functions_value_3 now _ _ _ _ d_out).
  match goal with
  | |- context [functions_value now ?fs d_in] => set (rest := fs)
  end.
  assert (Hpos : (0 < functions_value now rest d_in)%R).
  { apply functions_value_pos. subst rest.
    destruct (conditionPref_of intent) as [[|]|];
      cbn [condition_weights fst snd];
      repeat match goal with
             | |- context [if ?c then _ else _] => destruct c
             end;
      cbn [app];
      repeat (apply Forall_cons; [factor_pos|]); apply Forall_nil. }
  assert (Hsame : forall x,
             functions_value now rest (with_keywords d x c k)
             = functions_value now rest d_in).
  { intros x. apply functions_value_same. subst rest.
    destruct (conditionPref_of intent) as [[|]|];
      cbn [condition_weights fst snd];
      repeat match goal with
             | |- context [if ?c then _ else _] => destruct c
             end;
      cbn [app];
      repeat (apply Forall_cons; [reflexivity|]); apply Forall_nil. }
  unfold d_order, d_out. rewrite !Hsame.
  set (V := functions_value now rest d_in) in *.
  unfold apply_function.
  repeat match goal with
         | |- context [filter_matches ?f ?x] =>
             let b := eval lazy in (filter_matches f x) in
             change (filter_matches f x) with b
         end.
  unfold Q2R. cbn [Qnum Qden].
  assert (HbV : (0 <= base * V)%R) by (apply Rmult_le_pos; lra).
  split; nra.
Qed.

Lemma availability_orders_witness :
  (ranking_score 0 (wrapWithFunctionScore match_all None)
     (with_keywords (sample_doc 10) (lit "out_of_stock") (lit "new")
                    (lit "Aparaty cyfrowe")) 1
   <= ranking_score 0 (wrapWithFunctionScore match_all None)
        (with_keywords (sample_doc 10) (lit "na_zamowienie") (lit "new")
                       (lit "Aparaty cyfrowe")) 1)%R.
Proof.
  apply (@availability_orders 0 1 match_all None (sample_doc 10)
           (lit "new") (lit "Aparaty cyfrowe")).
  - lra.
  - cbn [eval_script sample_doc doc_margin_pct]. lra.
  - cbn [eval_script sample_doc doc_review_count doc_avg_rating].
    destruct (Rge_dec 0 3); lra.
Defined.

Lemma filter_terms_category (l : list jsstring) (d : Doc) (a c k : jsstring) :
  filter_matches (terms (lit "category") l) (with_keywords d a c k)
  = existsb (JsString.eqb k) l.
Proof. reflexivity. Qed.

Lemma existsb_member (c : jsstring) (l : list jsstring) :
  In c l -> existsb (JsString.eqb c) l = true.
Proof.
  intros H. apply existsb_exists. exists c. split; [exact H|apply eqb_refl].
Qed.

Lemma existsb_disjoint (c : jsstring) (l1 l2 : list jsstring) :
  disjoint_categories l1 l2 = true -> In c l1 ->
  existsb (JsString.eqb c) l2 = false.
Proof.
  unfold disjoint_categories. intros H Hc. rewrite forallb_forall in H.
  apply negb_true_iff. apply H. exact Hc.
Qed.

(** A weight on the category, for two documents whose categories are
    known to be in the list of the filter or not. *)
Ltac category_between :=
  unfold between, apply_function; rewrite !filter_terms_category;
  repeat match goal with
         | H : existsb _ _ = _ |- _ => rewrite H
         end;
  unfold Q2R; cbn [Qnum Qden]; lra.

(** X23. The category context of an intent decides between cameras and
    accessories: of two documents that differ only in [category], one in a
    body category and one in an accessory category, the body does not
    score lower for a body query, and the accessory does not score lower
    for an accessory query, given a text relevance that is not negative
    and positive margin and rating factors. *)
Theorem category_context_orders (now base : R) (baseQuery : Query)
  (i : Intent) (d : Doc) (a c k_acc k_body : jsstring) :
  (0 <= base)%R ->
  (0 < eval_script margin_boost [] d)%R ->
  (0 < eval_script rating_boost [] d)%R ->
  In k_acc ACCESSORY_CATEGORIES ->
  In k_body BODY_PRODUCT_CATEGORIES ->
  let envelope := wrapWithFunctionScore baseQuery (Some i) in
  let d_acc := with_keywords d a c k_acc in
  let d_body := with_keywords d a c k_body in
  (isBodyQuery i = Some true ->
     (ranking_score now envelope d_acc base
      <= ranking_score now envelope d_body base)%R)
  /\ (isBodyQuery i <> Some true -> wantsAccessories i = Some true ->
        (ranking_score now envelope d_body base
         <= ranking_score now envelope d_acc base)%R).
Proof.
  intros Hbase Hm Hr Hka Hkb envelope d_acc d_body. subst envelope.
  destruct (@nonneg_keywords d a c k_acc Hm Hr) as [Hma Hra].
  destruct (@nonneg_keywords d a c k_body Hm Hr) as [Hmb Hrb].
  fold d_acc in Hma, Hra. fold d_body in Hmb, Hrb.
  pose proof (existsb_member _ _ Hka) as Ha1.
  pose proof (existsb_member _ _ Hkb) as Hb1.
  pose proof (@existsb_disjoint k_acc ACCESSORY_CATEGORIES
                BODY_PRODUCT_CATEGORIES eq_refl Hka) as Ha2.
  pose proof (@existsb_disjoint k_body BODY_PRODUCT_CATEGORIES
                ACCESSORY_CATEGORIES eq_refl Hkb) as Hb2.
  pose proof (@existsb_disjoint k_acc ACCESSORY_CATEGORIES
                [ lit "Obiektywy do bezlusterkowców";
                  lit "Obiektywy do lustrzanek";
                  lit "Obiektywy do filmowania";
                  lit "Używane obiektywy" ] eq_refl Hka) as Ha3.
  pose proof (@existsb_disjoint k_body BODY_PRODUCT_CATEGORIES
                [ lit "Obiektywy do bezlusterkowców";
                  lit "Obiektywy do lustrzanek";
                  lit "Obiektywy do filmowania";
                  lit "Używane obiektywy" ] eq_refl Hkb) as Hb3.
  split; [intros Hbody|intros Hbody Hacc];
    unfold ranking_score, wrapWithFunctionScore, when_term;
    (apply Rmult_le_compat_l; [exact Hbase|]);
    apply functions_value_between;
    unfold flag_true.
  - rewrite Hbody.
    destruct (conditionPref_of (Some i)) as [[|]|];
      cbn [condition_weights fst snd];
      destruct (match type i with SKU => true | _ => false end); cbn [app];
      repeat (apply Forall_cons;
              [first [factor_unchanged
                     |subst d_acc d_body; category_between]|]);
      apply Forall_nil.
  - rewrite Hacc.
    assert (Hb : match isBodyQuery i with Some true => true | _ => false end
                 = false)
      by (destruct (isBodyQuery i) as [[|]|]; congruence).
    rewrite Hb.
    destruct (conditionPref_of (Some i)) as [[|]|];
      cbn [condition_weights fst snd];
      destruct (match type i with SKU => true | _ => false end); cbn [app];
      repeat (apply Forall_cons;
              [first [factor_unchanged
                     |subst d_acc d_body; category_between]|]);
      apply Forall_nil.
Qed.


(** For [canon eos r6], a body query, a camera does not score lower than
    a battery that is otherwise the same. *)
Lemma category_context_orders_witness :
  isBodyQuery (classifyIntent (lit "canon eos r6")) = Some true
  /\ (ranking_score 0
        (wrapWithFunctionScore match_all
           (Some (classifyIntent (lit "canon eos r6"))))
        (with_keywords (sample_doc 10) (lit "in_stock") (lit "new")
                       (lit "Akumulatory")) 1
      <= ranking_score 0
           (wrapWithFunctionScore match_all
              (Some (classifyIntent (lit "canon eos r6"))))
           (with_keywords (sample_doc 10) (lit "in_stock") (lit "new")
                          (lit "Aparaty cyfrowe")) 1)%R.
Proof.
  split; [vm_compute; reflexivity|].
  apply (@category_context_orders 0 1 match_all
           (classifyIntent (lit "canon eos r6")) (sample_doc 10)
           (lit "in_stock") (lit "new") (lit "Akumulatory")
           (lit "Aparaty cyfrowe")).
  - lra.
  - cbn [eval_script sample_doc doc_margin_pct]. lra.
  - cbn [eval_script sample_doc doc_review_count doc_avg_rating].
    destruct (Rge_dec 0 3); lra.
  - vm_compute. auto 20.
  - vm_compute. auto 20.
  - vm_compute. reflexivity.
Defined.
